(** * Keystone: application credentials and external authentication

    A shallow embedding of

    - [keystone/application_credential/core.py] (the credential [Manager]),
    - [keystone/application_credential/backends/base.py] (the driver
      interface), and
    - [keystone/auth/plugins/external.py] (the external authentication
      plugins),

    together with the properties of these modules stated in the design
    document.  Python objects live in a heap of dicts and lists, so that
    [copy], [pop] and item assignment act on shared objects as they do in
    the interpreter; exceptions are results; the calls the manager makes
    to its collaborators are recorded in a trace. *)

From Stdlib Require Import Ascii String.
From stdpp Require Import base strings gmap list option.

Open Scope string_scope.
Open Scope list_scope.

(** ** Python values and objects *)

Definition loc := nat.

(** A value is [None], a bool, a str, or a reference to a dict or a list. *)
Inductive val :=
| VNone
| VBool (b : bool)
| VStr (s : string)
| VRef (l : loc).

Global Instance val_eq_dec : EqDecision val.
Proof. solve_decision. Defined.

Inductive obj :=
| ODict (d : gmap string val)
| OList (xs : list val).

Global Instance obj_eq_dec : EqDecision obj.
Proof. solve_decision. Defined.

(** The exceptions that the modelled code raises or lets through. *)
Inductive exn :=
| KeyError (key : string)
| TypeError
| AttributeError (name : string)
| SystemError
| AssertionError
| NotImplemented
| RoleAssignmentNotFound (role_id actor_id target_id : val)
| RoleNotFound (role_id : val)
| ApplicationCredentialNotFound (application_credential_id : string)
| UserNotFound (name : string)
| DomainNotFound (name : string)
| Unauthorized (msg : string)
| BackendError (msg : string).

Global Instance exn_eq_dec : EqDecision exn.
Proof. solve_decision. Defined.

Inductive result (A : Type) :=
| Ok (a : A)
| Raise (e : exn).
Arguments Ok {A} a.
Arguments Raise {A} e.

Definition is_ok {A} (r : result A) : bool :=
  match r with Ok _ => true | Raise _ => false end.

(** ** State and exceptions

    [SE S A] is a computation over a state [S] that returns an [A] or
    raises.  A raised exception keeps the state reached so far: Python
    does not roll anything back. *)

Definition SE (S A : Type) : Type := S → result A * S.

Global Instance SE_ret {S} : MRet (SE S) := λ A a s, (Ok a, s).

Global Instance SE_bind {S} : MBind (SE S) := λ A B f m s,
  match m s with
  | (Ok a, s') => f a s'
  | (Raise e, s') => (Raise e, s')
  end.

Definition raise {S A} (e : exn) : SE S A := λ s, (Raise e, s).

Definition lift_result {S A} (r : result A) : SE S A := λ s, (r, s).

(** [try: m except Exception: h] *)
Definition try_except {S A} (m : SE S A) (h : exn → SE S A) : SE S A := λ s,
  match m s with
  | (Ok a, s') => (Ok a, s')
  | (Raise e, s') => h e s'
  end.

(** [for x in xs: body x] *)
Fixpoint for_each {S A} (body : A → SE S unit) (xs : list A) : SE S unit :=
  match xs with
  | [] => mret ()
  | x :: rest => body x ≫= λ _, for_each body rest
  end.

(** [[x for x in xs if p x]] where the condition may raise. *)
Fixpoint filter_comp {S A} (p : A → SE S bool) (xs : list A) : SE S (list A) :=
  match xs with
  | [] => mret []
  | x :: rest =>
      b ← p x;
      ys ← filter_comp p rest;
      mret (if b : bool then x :: ys else ys)
  end.

(** [[f x for x in xs]] where [f] may raise. *)
Fixpoint map_comp {S A B} (f : A → SE S B) (xs : list A) : SE S (list B) :=
  match xs with
  | [] => mret []
  | x :: rest =>
      y ← f x;
      ys ← map_comp f rest;
      mret (y :: ys)
  end.

(** ** Operations on heap objects *)

Section heap_ops.
Implicit Types (h : gmap loc obj) (v : val) (k : string).

(** A new object gets a location that is not in use. *)
Definition fresh_loc h : loc := fresh (dom h).

Definition py_alloc (o : obj) : SE (gmap loc obj) val := λ h,
  let l := fresh_loc h in (Ok (VRef l), <[l := o]> h).

(** Dereference; a reference out of the heap has no counterpart in a
    Python run and is reported as [SystemError]. *)
Definition deref h v : result (option obj) :=
  match v with
  | VRef l => match h !! l with Some o => Ok (Some o) | None => Raise SystemError end
  | _ => Ok None
  end.

(** [v[k]] with a str key: only dicts can be subscripted this way. *)
Definition py_getitem v k : SE (gmap loc obj) val := λ h,
  match deref h v with
  | Ok (Some (ODict d)) =>
      match d !! k with
      | Some x => (Ok x, h)
      | None => (Raise (KeyError k), h)
      end
  | Ok _ => (Raise TypeError, h)
  | Raise e => (Raise e, h)
  end.

(** [v[k] = x] with a str key. *)
Definition py_setitem v k (x : val) : SE (gmap loc obj) unit := λ h,
  match v, deref h v with
  | VRef l, Ok (Some (ODict d)) => (Ok (), <[l := ODict (<[k := x]> d)]> h)
  | _, Ok _ => (Raise TypeError, h)
  | _, Raise e => (Raise e, h)
  end.

(** [v.copy()]: a shallow copy of a dict or a list; other values have
    no such method. *)
Definition py_copy v : SE (gmap loc obj) val := λ h,
  match deref h v with
  | Ok (Some o) => py_alloc o h
  | Ok None => (Raise (AttributeError "copy"), h)
  | Raise e => (Raise e, h)
  end.

(** [v.pop(k)] with a str key: [KeyError] on a dict without the key;
    a list wants an integer index. *)
Definition py_pop v k : SE (gmap loc obj) val := λ h,
  match v, deref h v with
  | VRef l, Ok (Some (ODict d)) =>
      match d !! k with
      | Some x => (Ok x, <[l := ODict (delete k d)]> h)
      | None => (Raise (KeyError k), h)
      end
  | _, Ok (Some (OList _)) => (Raise TypeError, h)
  | _, Ok _ => (Raise (AttributeError "pop"), h)
  | _, Raise e => (Raise e, h)
  end.

(** [v.pop(k, default)]: [list.pop] takes at most one argument. *)
Definition py_pop_default v k (default : val) : SE (gmap loc obj) val := λ h,
  match v, deref h v with
  | VRef l, Ok (Some (ODict d)) =>
      match d !! k with
      | Some x => (Ok x, <[l := ODict (delete k d)]> h)
      | None => (Ok default, h)
      end
  | _, Ok (Some (OList _)) => (Raise TypeError, h)
  | _, Ok _ => (Raise (AttributeError "pop"), h)
  | _, Raise e => (Raise e, h)
  end.

(** [v.append(x)] *)
Definition py_append v (x : val) : SE (gmap loc obj) unit := λ h,
  match v, deref h v with
  | VRef l, Ok (Some (OList xs)) => (Ok (), <[l := OList (xs ++ [x])]> h)
  | _, Ok _ => (Raise (AttributeError "append"), h)
  | _, Raise e => (Raise e, h)
  end.

Definition chars (s : string) : list val :=
  (λ c, VStr (String c EmptyString)) <$> String.list_ascii_of_string s.

(** The elements [for x in v] runs over: the items of a list, the keys
    of a dict (in the order of the map), the characters of a str. *)
Definition py_iter v : SE (gmap loc obj) (list val) := λ h,
  match v, deref h v with
  | _, Ok (Some (OList xs)) => (Ok xs, h)
  | _, Ok (Some (ODict d)) => (Ok (VStr <$> (map_to_list d).*1), h)
  | VStr s, Ok None => (Ok (chars s), h)
  | _, Ok None => (Raise TypeError, h)
  | _, Raise e => (Raise e, h)
  end.

(** Values that can be put in a [set]: dicts and lists are unhashable. *)
Definition hashable v : bool :=
  match v with VRef _ => false | _ => true end.

(** [list(set(vs))]: the distinct elements, in some order (the model
    keeps first occurrences in place; the code only tests membership). *)
Definition py_list_set (vs : list val) : result (list val) :=
  if forallb hashable vs then Ok (remove_dups vs) else Raise TypeError.

(** [x == y] where one side is hashable: equal values.  (On two
    references [==] compares the objects; the left operand below comes
    out of a set and is never a reference.) *)
Definition py_eq (x y : val) : bool := bool_decide (x = y).
End heap_ops.

(** ** The world of the credential manager *)

(** [notifications.ACTIONS] *)
Inductive action := created | deleted | disabled | updated | internal.

Global Instance action_eq_dec : EqDecision action.
Proof. solve_decision. Defined.

(** The two methods of the manager that are registered as listeners. *)
Inductive callback :=
| on_user_delete
| on_assignment_removal.

(** The calls the manager makes to its collaborators: the assignment and
    role APIs, the driver, the memoization region and the audit
    notifier. *)
Inductive event {Hints : Type} :=
| EvListRoleAssignments (user_id project_id : val) (effective : bool)
| EvGetRole (role_id : val)
| EvDriverAuthenticate (application_credential_id secret : string)
| EvDriverCreate (application_credential roles : val)
| EvDriverGet (application_credential_id : string)
| EvDriverList (user_id : val) (hints : Hints)
| EvDriverDelete (application_credential_id : string)
| EvDriverDeleteForUser (user_id : val)
| EvDriverDeleteForUserOnProject (user_id project_id : val)
| EvCacheInvalidate (fn : string) (args : list string)
| EvAuditCreated (resource_type : string) (resource_id : val) (initiator : val)
| EvAuditDeleted (resource_type : string) (resource_id : val) (initiator : val).
Arguments event : clear implicits.

(** The state of one process: the heap of Python objects, the state [D]
    behind the driver, the memoization region, the listeners registered
    with the notification module, and the trace of calls.  Each call is
    recorded with the heap the callee is handed, so that the contents of
    its arguments can be read off the trace. *)
Record world {D Hints : Type} := World {
  heap : gmap loc obj;
  driver_state : D;
  cache : gmap string val;
  listeners : list (action * string * callback);
  trace : list (event Hints * gmap loc obj);
}.
Arguments world : clear implicits.
Arguments World {D Hints} heap driver_state cache listeners trace.

(** The sequence of calls, without the heaps. *)
Definition calls {D Hints} (w : world D Hints) : list (event Hints) := (trace w).*1.

(** ** The driver interface: [backends/base.py]

    A driver works on its own state and on the heap: it is handed Python
    objects and returns Python objects.  The manager calls [create] with
    the record and the roles and [list] with the user and the hints, and
    the class is declared with these signatures. *)
Class ApplicationCredentialDriverBase (D Hints : Type) := {
  driver_authenticate : string → string → SE (gmap loc obj * D) unit;
  driver_create_application_credential : val → val → SE (gmap loc obj * D) val;
  driver_get_application_credential : string → SE (gmap loc obj * D) val;
  driver_list_application_credentials_for_user :
    val → Hints → SE (gmap loc obj * D) val;
  driver_delete_application_credential : string → SE (gmap loc obj * D) unit;
  driver_delete_application_credentials_for_user : val → SE (gmap loc obj * D) unit;
  driver_delete_application_credentials_for_user_on_project :
    val → val → SE (gmap loc obj * D) unit;
}.

(** The abstract base itself: every method raises [NotImplemented]. *)
Definition abstract_driver (D Hints : Type) : ApplicationCredentialDriverBase D Hints := {|
  driver_authenticate _ _ := raise NotImplemented;
  driver_create_application_credential _ _ := raise NotImplemented;
  driver_get_application_credential _ := raise NotImplemented;
  driver_list_application_credentials_for_user _ _ := raise NotImplemented;
  driver_delete_application_credential _ := raise NotImplemented;
  driver_delete_application_credentials_for_user _ := raise NotImplemented;
  driver_delete_application_credentials_for_user_on_project _ _ := raise NotImplemented;
|}.

(** ** The manager: [core.py] *)

Section Manager.
Context {D Hints : Type}.
Context {driver : ApplicationCredentialDriverBase D Hints}.

(** [driver_hints.Hints()] *)
Variable new_Hints : Hints.

(** [assignment_api.list_role_assignments(user_id=, project_id=,
    effective=)]: the assignments, each a dict. *)
Variable list_role_assignments : val → val → bool → result (list (gmap string val)).

(** [PROVIDERS.role_api.get_role(role_id)]: the role, a dict. *)
Variable get_role : val → result (gmap string val).

(** [notifications.INVALIDATE_USER_PROJECT_TOKEN_PERSISTENCE] *)
Variable INVALIDATE_USER_PROJECT_TOKEN_PERSISTENCE : string.

#[local] Abbreviation world := (world D Hints).
#[local] Abbreviation event := (event Hints).
#[local] Abbreviation M := (SE world).

Definition on_heap {A} (m : SE (gmap loc obj) A) : M A := λ w,
  let '(r, h) := m (heap w) in
  (r, World h (driver_state w) (cache w) (listeners w) (trace w)).

Definition log (e : event) : M unit := λ w,
  (Ok (), World (heap w) (driver_state w) (cache w) (listeners w)
             (trace w ++ [(e, heap w)])).

(** A call into the driver: recorded, then run on the heap and on the
    driver's state. *)
Definition call_driver {A} (e : event) (m : SE (gmap loc obj * D) A) : M A := λ w,
  let '(r, (h, s)) := m (heap w, driver_state w) in
  (r, World h s (cache w) (listeners w) (trace w ++ [(e, heap w)])).

(** A call to one of the read-only APIs; a dict it returns is a new
    object. *)
Definition call_api (e : event) (r : result (gmap string val)) : M val :=
  log e;; d ← lift_result r; on_heap (py_alloc (ODict d)).

Definition _APP_CRED : string := "application_credential".

(** *** Memoization

    Modelled from the spec: the memoization decorator of
    [keystone.common.cache], which is not part of this tree.  The spec
    describes a read-through cache of credential lookups with
    get-or-load and invalidate; as in the decorator, an entry is filed
    under a key made from the name of the function and the arguments of
    the call, a lookup that raises stores nothing, and [invalidate]
    removes the entry filed under the arguments it is given. *)
Definition memo_key (fn : string) (args : list string) : string :=
  fn +:+ "|" +:+ String.concat " " args.

Definition MEMOIZE (fn : string) (args : list string) (body : M val) : M val := λ w,
  match cache w !! memo_key fn args with
  | Some v => (Ok v, w)
  | None =>
      match body w with
      | (Ok v, w') =>
          (Ok v, World (heap w') (driver_state w')
                   (<[memo_key fn args := v]> (cache w')) (listeners w') (trace w'))
      | (Raise e, w') => (Raise e, w')
      end
  end.

Definition invalidate (fn : string) (args : list string) : M unit := λ w,
  (Ok (), World (heap w) (driver_state w) (delete (memo_key fn args) (cache w))
             (listeners w) (trace w ++ [(EvCacheInvalidate fn args, heap w)])).

(** *** Notifications

    Modelled from the spec: [notifications.register_event_callback] and
    the delivery of an event to the listeners, from the module
    [keystone.notifications], which is not part of this tree: a listener
    is registered for an operation and a resource type, and an event is
    delivered to every listener registered for its operation and
    resource type, in the order of registration. *)
Definition register_event_callback (op : action) (resource_type : string)
    (cb : callback) : M unit := λ w,
  (Ok (), World (heap w) (driver_state w) (cache w)
             (listeners w ++ [(op, resource_type, cb)]) (trace w)).

Definition Audit_created (resource_type : string) (resource_id initiator : val) : M unit :=
  log (EvAuditCreated resource_type resource_id initiator).

Definition Audit_deleted (resource_type : string) (resource_id initiator : val) : M unit :=
  log (EvAuditDeleted resource_type resource_id initiator).

(** *** The methods of [Manager] *)

Definition _register_callback_listeners : M unit :=
  register_event_callback deleted "user" on_user_delete;;
  register_event_callback disabled "user" on_user_delete;;
  register_event_callback internal INVALIDATE_USER_PROJECT_TOKEN_PERSISTENCE
    on_assignment_removal.

Definition _delete_application_credentials_for_user (user_id : val) : M unit :=
  call_driver (EvDriverDeleteForUser user_id)
    (driver_delete_application_credentials_for_user user_id).

Definition _delete_application_credentials_for_user_on_project
    (user_id project_id : val) : M unit :=
  call_driver (EvDriverDeleteForUserOnProject user_id project_id)
    (driver_delete_application_credentials_for_user_on_project user_id project_id).

Definition _delete_app_creds_on_user_delete_callback
    (service resource_type : string) (operation : action) (payload : val) : M unit :=
  user_id ← on_heap (py_getitem payload "resource_info");
  _delete_application_credentials_for_user user_id.

Definition _delete_app_creds_on_assignment_removal
    (service resource_type : string) (operation : action) (payload : val) : M unit :=
  info ← on_heap (py_getitem payload "resource_info");
  user_id ← on_heap (py_getitem info "user_id");
  info' ← on_heap (py_getitem payload "resource_info");
  project_id ← on_heap (py_getitem info' "project_id");
  _delete_application_credentials_for_user_on_project user_id project_id.

Definition dict_get (d : gmap string val) (k : string) : result val :=
  match d !! k with Some x => Ok x | None => Raise (KeyError k) end.

Definition _get_user_roles (user_id project_id : val) : M (list val) :=
  log (EvListRoleAssignments user_id project_id true);;
  assignment_list ← lift_result (list_role_assignments user_id project_id true);
  ids ← map_comp (λ x, lift_result (dict_get x "role_id")) assignment_list;
  lift_result (py_list_set ids).

Definition _require_user_has_role_in_project (roles user_id project_id : val) : M unit :=
  user_roles ← _get_user_roles user_id project_id;
  roles ← on_heap (py_iter roles);
  for_each (λ role,
    matching_roles ← filter_comp (λ x,
        role_id ← on_heap (py_getitem role "id");
        mret (py_eq x role_id)) user_roles;
    match matching_roles with
    | [] =>
        role_id ← on_heap (py_getitem role "id");
        raise (RoleAssignmentNotFound role_id user_id project_id)
    | _ :: _ => mret ()
    end) roles.

Definition _get_role_list (app_cred_roles : val) : M val :=
  roles ← on_heap (py_alloc (OList []));
  app_cred_roles ← on_heap (py_iter app_cred_roles);
  for_each (λ role,
    role_id ← on_heap (py_getitem role "id");
    r ← call_api (EvGetRole role_id) (get_role role_id);
    on_heap (py_append roles r)) app_cred_roles;;
  mret roles.

Definition authenticate (request : val) (application_credential_id secret : string) : M unit :=
  call_driver (EvDriverAuthenticate application_credential_id secret)
    (driver_authenticate application_credential_id secret).

Definition _process_app_cred (app_cred_ref : val) : M val :=
  app_cred_ref ← on_heap (py_copy app_cred_ref);
  on_heap (py_pop app_cred_ref "secret_hash");;
  roles ← on_heap (py_getitem app_cred_ref "roles");
  roles ← _get_role_list roles;
  on_heap (py_setitem app_cred_ref "roles" roles);;
  mret app_cred_ref.

Definition create_application_credential (application_credential initiator : val) : M val :=
  application_credential ← on_heap (py_copy application_credential);
  user_id ← on_heap (py_getitem application_credential "user_id");
  project_id ← on_heap (py_getitem application_credential "project_id");
  default ← on_heap (py_alloc (OList []));
  roles ← on_heap (py_pop_default application_credential "roles" default);
  _require_user_has_role_in_project roles user_id project_id;;
  unhashed_secret ← on_heap (py_getitem application_credential "secret");
  ref ← call_driver (EvDriverCreate application_credential roles)
          (driver_create_application_credential application_credential roles);
  on_heap (py_setitem ref "secret" unhashed_secret);;
  ref ← _process_app_cred ref;
  resource_id ← on_heap (py_getitem application_credential "id");
  Audit_created _APP_CRED resource_id initiator;;
  mret ref.

Definition get_application_credential (application_credential_id : string) : M val :=
  MEMOIZE "get_application_credential" [application_credential_id] (
    app_cred ← call_driver (EvDriverGet application_credential_id)
                 (driver_get_application_credential application_credential_id);
    _process_app_cred app_cred).

Definition list_application_credentials (user_id : val) (hints : option Hints) : M (list val) :=
  let hints := match hints with Some h => h | None => new_Hints end in
  app_cred_list ← call_driver (EvDriverList user_id hints)
                    (driver_list_application_credentials_for_user user_id hints);
  app_cred_list ← on_heap (py_iter app_cred_list);
  map_comp _process_app_cred app_cred_list.

Definition delete_application_credential (application_credential_id : string)
    (initiator : val) : M unit :=
  invalidate "get_application_credential" [];;
  call_driver (EvDriverDelete application_credential_id)
    (driver_delete_application_credential application_credential_id);;
  Audit_deleted _APP_CRED (VStr application_credential_id) initiator.

(** [Manager.__init__]: the listeners are registered when the manager is
    constructed. *)
Definition Manager_init : M unit := _register_callback_listeners.

Definition run_callback (cb : callback)
    (service resource_type : string) (operation : action) (payload : val) : M unit :=
  match cb with
  | on_user_delete =>
      _delete_app_creds_on_user_delete_callback service resource_type operation payload
  | on_assignment_removal =>
      _delete_app_creds_on_assignment_removal service resource_type operation payload
  end.

(** Modelled from the spec: the delivery of an event by
    [keystone.notifications] (see above). *)
Definition notify_event_callbacks (service resource_type : string) (operation : action)
    (payload : val) : M unit := λ w,
  for_each (λ cb, run_callback cb service resource_type operation payload)
    ((filter (λ l, l.1.1 = operation ∧ l.1.2 = resource_type) (listeners w)).*2) w.

End Manager.

(** ** A reference driver

    Modelled from the spec: an implementation of the Store Driver
    contract; the drivers of the repository
    ([keystone/application_credential/backends/sql.py]) are not part of
    this tree, which has the abstract base only.  The spec asks for CRUD
    over credential records keyed by id, where [create] takes the record
    and the roles and owns the hashing of the secret, [get] and [delete]
    fail with not-found on an unknown id, and the two bulk deletes remove
    the records of a user, or of a user on a project, and always succeed.
    A stored record keeps the fields of the record it was created from,
    with the secret replaced by its hash, and the ids of its roles; what
    the driver returns is built anew from the stored record at each
    call. *)

Record stored := Stored {
  stored_fields : gmap string val;
  stored_roles : list val;
}.

Section reference_driver.
Context {Hints : Type}.

(** The hashing primitive and the meaning of the filter hints belong to
    other subsystems. *)
Variable hash_secret : string → string.
Variable satisfies : Hints → gmap string val → bool.

#[local] Abbreviation DS := (SE (gmap loc obj * gmap string stored)).

Definition in_heap {D A} (m : SE (gmap loc obj) A) : SE (gmap loc obj * D) A := λ s,
  let '(r, h) := m s.1 in (r, (h, s.2)).

Definition get_store {D} : SE (gmap loc obj * D) D := λ s, (Ok s.2, s).

Definition put_store {D} (d : D) : SE (gmap loc obj * D) unit := λ s, (Ok (), (s.1, d)).

Definition as_str {S} (v : val) : SE S string :=
  match v with VStr s => mret s | _ => raise TypeError end.

Definition dict_of {S} (o : option obj) : SE S (gmap string val) :=
  match o with Some (ODict d) => mret d | _ => raise TypeError end.

Definition to_dict (r : stored) : SE (gmap loc obj) val :=
  roles ← map_comp (λ role_id, py_alloc (ODict {[ "id" := role_id ]})) (stored_roles r);
  roles ← py_alloc (OList roles);
  py_alloc (ODict (<["roles" := roles]> (stored_fields r))).

Definition owned_by (user_id : val) (r : stored) : Prop :=
  stored_fields r !! "user_id" = Some user_id.

Definition scoped_to (project_id : val) (r : stored) : Prop :=
  stored_fields r !! "project_id" = Some project_id.

Global Instance owned_by_dec user_id r : Decision (owned_by user_id r).
Proof. unfold owned_by. apply _. Defined.

Global Instance scoped_to_dec project_id r : Decision (scoped_to project_id r).
Proof. unfold scoped_to. apply _. Defined.

Definition ref_authenticate (application_credential_id secret : string) : DS unit :=
  store ← get_store;
  match store !! application_credential_id with
  | Some r =>
      if decide (stored_fields r !! "secret_hash" = Some (VStr (hash_secret secret)))
      then mret () else raise AssertionError
  | None => raise AssertionError
  end.

Definition ref_create_application_credential (application_credential roles : val) : DS val :=
  id ← in_heap (py_getitem application_credential "id") ≫= as_str;
  secret ← in_heap (py_getitem application_credential "secret") ≫= as_str;
  fields ← (λ s, (deref s.1 application_credential, s)) ≫= dict_of;
  roles ← in_heap (py_iter roles);
  role_ids ← in_heap (map_comp (λ role, py_getitem role "id") roles);
  let r := Stored (<["secret_hash" := VStr (hash_secret secret)]> (delete "secret" fields))
             role_ids in
  store ← get_store;
  put_store (<[id := r]> store);;
  in_heap (to_dict r).

Definition ref_get_application_credential (application_credential_id : string) : DS val :=
  store ← get_store;
  match store !! application_credential_id with
  | Some r => in_heap (to_dict r)
  | None => raise (ApplicationCredentialNotFound application_credential_id)
  end.

Definition ref_list_application_credentials_for_user (user_id : val) (hints : Hints) : DS val :=
  store ← get_store;
  let rs := filter (λ r, owned_by user_id r ∧ satisfies hints (stored_fields r) = true)
              (map_to_list store).*2 in
  refs ← in_heap (map_comp to_dict rs);
  in_heap (py_alloc (OList refs)).

Definition ref_delete_application_credential (application_credential_id : string) : DS unit :=
  store ← get_store;
  match store !! application_credential_id with
  | Some _ => put_store (delete application_credential_id store)
  | None => raise (ApplicationCredentialNotFound application_credential_id)
  end.

Definition ref_delete_application_credentials_for_user (user_id : val) : DS unit :=
  store ← get_store;
  put_store (filter (λ kr, ¬ owned_by user_id kr.2) store).

Definition ref_delete_application_credentials_for_user_on_project
    (user_id project_id : val) : DS unit :=
  store ← get_store;
  put_store (filter (λ kr, ¬ (owned_by user_id kr.2 ∧ scoped_to project_id kr.2)) store).

Definition reference_driver : ApplicationCredentialDriverBase (gmap string stored) Hints := {|
  driver_authenticate := ref_authenticate;
  driver_create_application_credential := ref_create_application_credential;
  driver_get_application_credential := ref_get_application_credential;
  driver_list_application_credentials_for_user := ref_list_application_credentials_for_user;
  driver_delete_application_credential := ref_delete_application_credential;
  driver_delete_application_credentials_for_user :=
    ref_delete_application_credentials_for_user;
  driver_delete_application_credentials_for_user_on_project :=
    ref_delete_application_credentials_for_user_on_project;
|}.

End reference_driver.

(** ** External authentication: [auth/plugins/external.py] *)

Module External.

(** What the plugins read of the request: [REMOTE_USER], [REMOTE_DOMAIN]
    and [AUTH_TYPE], each a str or [None]. *)
Record request := Request {
  remote_user : option string;
  remote_domain : option string;
  auth_type : option string;
}.

(** [CONF.identity.default_domain_id] and [CONF.token.bind] *)
Record conf := Conf {
  default_domain_id : string;
  token_bind : list string;
}.

(** The lookups in the identity and resource backends. *)
Inductive lookup :=
| GetDomainByName (name : option string)
| GetUserByName (name : option string) (domain_id : string).

(** The values of [response_data]: a str, or a dict of strs. *)
Inductive rval :=
| RStr (s : string)
| RDict (d : gmap string string).

(** [base.AuthHandlerResponse] *)
Record AuthHandlerResponse := {
  status : bool;
  response_body : option string;
  response_data : gmap string rval;
}.

(** Truth value of a str or [None]. *)
Definition truthy (o : option string) : bool :=
  match o with
  | None | Some "" => false
  | Some _ => true
  end.

Definition lower_ascii (c : ascii) : ascii :=
  let n := nat_of_ascii c in
  if ((65 <=? n) && (n <=? 90))%nat then ascii_of_nat (n + 32) else c.

(** [str.lower], on the ASCII letters. *)
Fixpoint lower (s : string) : string :=
  match s with
  | EmptyString => EmptyString
  | String c s' => String (lower_ascii c) (lower s')
  end.

(** Two characters that differ at most by case, and two strings that do
    so character by character: what "compared case-insensitively" asks
    for. *)
Definition same_letter (c c' : ascii) : bool :=
  let n := nat_of_ascii c in
  let n' := nat_of_ascii c' in
  ((n =? n')
   || ((65 <=? n) && (n <=? 90) && (n' =? n + 32))
   || ((65 <=? n') && (n' <=? 90) && (n =? n' + 32)))%nat.

Fixpoint equal_ignoring_case (s t : string) : bool :=
  match s, t with
  | EmptyString, EmptyString => true
  | String c s', String c' t' => same_letter c c' && equal_ignoring_case s' t'
  | _, _ => false
  end.

Section plugins.

Variable CONF : conf.

(** [identity_api.get_user_by_name(name, domain_id)] and
    [resource_api.get_domain_by_name(name)]: a user or a domain, as a
    dict, or an exception. *)
Variable get_user_by_name : option string → string → result (gmap string string).
Variable get_domain_by_name : option string → result (gmap string string).

(** The state is the list of lookups made so far. *)
#[local] Abbreviation E := (SE (list lookup)).

Definition call_identity_api (name : option string) (domain_id : string)
    : E (gmap string string) := λ t,
  (get_user_by_name name domain_id, t ++ [GetUserByName name domain_id]).

Definition call_resource_api (name : option string) : E (gmap string string) := λ t,
  (get_domain_by_name name, t ++ [GetDomainByName name]).

Definition getitem (d : gmap string string) (k : string) : E string :=
  match d !! k with Some x => mret x | None => raise (KeyError k) end.

(** ['%s' % o] for a str or [None]. *)
Definition format_s (o : option string) : string := default "None" o.

(** The plugins differ in [_authenticate] only. *)
Class Base := _authenticate : request → E (gmap string string).

Definition DefaultDomain : Base := λ request,
  call_identity_api (remote_user request) (default_domain_id CONF).

Definition Domain : Base := λ request,
  domain_id ←
    (if truthy (remote_domain request) then
       ref ← call_resource_api (remote_domain request);
       getitem ref "id"
     else mret (default_domain_id CONF));
  call_identity_api (remote_user request) domain_id.

Definition KerberosDomain : Base := λ request,
  if decide (auth_type request ≠ Some "Negotiate")
  then raise (Unauthorized "auth_type is not Negotiate")
  else @_authenticate Domain request.

(** [Base.authenticate] *)
Definition authenticate `{Base} (request : request) (auth_payload : val)
    : E AuthHandlerResponse :=
  let response_data : gmap string rval := ∅ in
  if negb (truthy (remote_user request)) then
    raise (Unauthorized "No authenticated user")
  else
    user_ref ← try_except (_authenticate request) (λ _,
      raise (Unauthorized ("Unable to lookup user " +:+ format_s (remote_user request))));
    user_id ← getitem user_ref "id";
    let response_data := <["user_id" := RStr user_id]> response_data in
    let auth_type := lower (default "" (auth_type request)) in
    response_data ←
      (if bool_decide ("kerberos" ∈ token_bind CONF) && bool_decide (auth_type = "negotiate")
       then
         name ← getitem user_ref "name";
         match response_data !! "bind" with
         | None => mret (<["bind" := RDict {[ "kerberos" := name ]}]> response_data)
         | Some (RDict bind) =>
             mret (<["bind" := RDict (<["kerberos" := name]> bind)]> response_data)
         | Some (RStr _) => raise TypeError
         end
       else mret response_data);
    mret {| status := true; response_body := None; response_data := response_data |}.

End plugins.
End External.

(** ** Vocabulary of the properties *)

(** The id of a role reference [{'id': ...}] in a heap. *)
Definition role_id_of (h : gmap loc obj) (role : val) : option val :=
  match role with
  | VRef l => match h !! l with Some (ODict d) => d !! "id" | _ => None end
  | _ => None
  end.

(** The user holds a role, according to the assignments that the
    assignment API lists for the user and the project. *)
Definition holds_role (assignment_list : list (gmap string val)) (role_id : val) : Prop :=
  ∃ x, x ∈ assignment_list ∧ x !! "role_id" = Some role_id.

(** Each assignment names a role by a hashable value. *)
Definition assignments_ok (assignment_list : list (gmap string val)) : Prop :=
  ∀ x, x ∈ assignment_list → ∃ v, x !! "role_id" = Some v ∧ hashable v = true.

Definition is_driver_create {Hints} (e : event Hints) : Prop :=
  match e with EvDriverCreate _ _ => True | _ => False end.

Definition is_list_role_assignments {Hints} (e : event Hints) : Prop :=
  match e with EvListRoleAssignments _ _ _ => True | _ => False end.

(** The copy of the request and the default for [pop], as the role check
    finds them. *)
Definition copy_loc (h : gmap loc obj) : loc := fresh_loc h.
Definition default_loc (h : gmap loc obj) (d : gmap string val) : loc := fresh_loc (<[copy_loc h := ODict d]> h).
Definition checked_heap (h : gmap loc obj) (d : gmap string val) : gmap loc obj :=
  <[copy_loc h := ODict (delete "roles" d)]>
    (<[default_loc h d := OList []]> (<[copy_loc h := ODict d]> h)).


Section parts.
Context {D Hints : Type} {driver : ApplicationCredentialDriverBase D Hints}.
Variable list_role_assignments : val → val → bool → result (list (gmap string val)).
Variable get_role : val → result (gmap string val).

(** One turn of the loop of [_require_user_has_role_in_project]. *)
Definition require_role (user_roles : list val) (user_id project_id role : val)
    : SE (world D Hints) unit :=
  matching_roles ← filter_comp (λ x,
      role_id ← on_heap (py_getitem role "id");
      mret (py_eq x role_id)) user_roles;
  match matching_roles with
  | [] =>
      role_id ← on_heap (py_getitem role "id");
      raise (RoleAssignmentNotFound role_id user_id project_id)
  | _ :: _ => mret ()
  end.


(** One turn of the loop of [_get_role_list]. *)
Definition append_role (roles role : val) : SE (world D Hints) unit :=
  role_id ← on_heap (py_getitem role "id");
  r ← call_api (EvGetRole role_id) (get_role role_id);
  on_heap (py_append roles r).

(** [create_application_credential] once the driver has returned. *)
Definition create_finish (application_credential unhashed_secret ref initiator : val)
    : SE (world D Hints) val :=
  on_heap (py_setitem ref "secret" unhashed_secret);;
  ref ← _process_app_cred get_role ref;
  resource_id ← on_heap (py_getitem application_credential "id");
  Audit_created _APP_CRED resource_id initiator;;
  mret ref.

(** [create_application_credential] from the role check on. *)
Definition create_checked (application_credential roles user_id project_id initiator : val)
    : SE (world D Hints) val :=
  _require_user_has_role_in_project list_role_assignments roles user_id project_id;;
  unhashed_secret ← on_heap (py_getitem application_credential "secret");
  ref ← call_driver (EvDriverCreate application_credential roles)
          (driver_create_application_credential application_credential roles);
  create_finish application_credential unhashed_secret ref initiator.

End parts.

(** The ids of a list of role references, the roles that the role API
    has for a list of ids, and the objects that a list of values refers
    to. *)
Definition role_ids (h : gmap loc obj) (roles ids : list val) : Prop :=
  Forall2 (λ r rid, role_id_of h r = Some rid) roles ids.

Definition roles_known (get_role : val → result (gmap string val))
    (ids : list val) (roles : list (gmap string val)) : Prop :=
  Forall2 (λ rid role, get_role rid = Ok role) ids roles.

Definition role_objects (h : gmap loc obj) (vs : list val)
    (roles : list (gmap string val)) : Prop :=
  Forall2 (λ v role, ∃ l, v = VRef l ∧ h !! l = Some (ODict role)) vs roles.

(** Objects made since [h], other than [nl], that hold the roles. *)
Definition new_role_objects (h h' : gmap loc obj) (nl : loc) (vs : list val) (roles : list (gmap string val)) :=
  Forall2 (λ v role, ∃ l, v = VRef l ∧ l ≠ nl ∧ h !! l = None ∧ h' !! l = Some (ODict role))
    vs roles.


(** The roles of a request: the list under ['roles'], or the empty
    default when the request has no such key. *)
Definition requested_roles (h : gmap loc obj) (d : gmap string val)
    : option (val * list val) :=
  match d !! "roles" with
  | None => Some (VRef (default_loc h d), [])
  | Some (VRef rl) =>
      match h !! rl with
      | Some (OList rs) => Some (VRef rl, rs)
      | _ => None
      end
  | Some _ => None
  end.

(** A record as a driver returns it: a dict with a [secret_hash] and
    with the references to its roles. *)
Definition stored_record (h : gmap loc obj) (r : loc) (dr : gmap string val)
    (ids : list val) : Prop :=
  h !! r = Some (ODict dr) ∧ is_Some (dr !! "secret_hash") ∧
  ∃ rrl rrs, dr !! "roles" = Some (VRef rrl) ∧ h !! rrl = Some (OList rrs) ∧
             role_ids h rrs ids.

(** The projection of a record: no [secret_hash], and the roles in
    full. *)
Definition projection_of (h : gmap loc obj) (p : loc) (dr : gmap string val)
    (roles : list (gmap string val)) : Prop :=
  ∃ nl vs, h !! p = Some (ODict (<["roles" := VRef nl]> (delete "secret_hash" dr)))
           ∧ h !! nl = Some (OList vs) ∧ role_objects h vs roles.

(** ** Specifications of computations *)

(** From a state that satisfies [P], the computation ends, with a value
    or an exception, in a state that satisfies [Q]. *)
Definition hoare {S A} (P : S → Prop) (m : SE S A) (Q : result A → S → Prop) : Prop :=
  ∀ s, P s → Q (m s).1 (m s).2.

(** The computation keeps the invariant [I], whatever it returns, and a
    value that it returns satisfies [R]. *)
Definition yields {S A} (I : S → Prop) (R : A → Prop) (m : SE S A) : Prop :=
  hoare I m (λ r s, I s ∧ ∀ a, r = Ok a → R a).

Definition keeps {S A} (I : S → Prop) (m : SE S A) : Prop :=
  yields I (λ _, True) m.

(** A value whose object, if it has one, was made after the heap [h0]:
    changing it leaves the objects of [h0] as they are. *)
Definition made_after (h0 : gmap loc obj) (v : val) : Prop :=
  ∀ l, v = VRef l → h0 !! l = None.

(** The objects of [h0] are in the heap as they were. *)
Definition intact {D Hints} (h0 : gmap loc obj) (w : world D Hints) : Prop :=
  h0 ⊆ heap w.

(** Since the trace [t0], only calls that satisfy [P] were made. *)
Definition only_calls {D Hints} (P : event Hints → Prop)
    (t0 : list (event Hints * gmap loc obj)) (w : world D Hints) : Prop :=
  ∃ tl, trace w = t0 ++ tl ∧ Forall (λ e, P e.1) tl.

(** A driver call that leaves the objects of the heap as they are and
    returns a new object. *)
Definition returns_new {D} (m : SE (gmap loc obj * D) val) : Prop :=
  ∀ h s, h ⊆ (m (h, s)).2.1 ∧
         ∀ v, (m (h, s)).1 = Ok v → ∃ l, v = VRef l ∧ h !! l = None.

(** ** A small deployment

    One user, [alice], who holds the roles [member] and [reader] on the
    project [proj]; the reference driver with no credentials; a request
    for a credential [c1] with the role [member]. *)

Definition demo_hash (s : string) : string := "sha512:" +:+ s.

Definition demo_driver : ApplicationCredentialDriverBase (gmap string stored) unit :=
  reference_driver demo_hash (λ _ _, true).

Definition demo_assignments (user_id project_id : val) (effective : bool)
    : result (list (gmap string val)) :=
  if decide (user_id = VStr "alice" ∧ project_id = VStr "proj") then
    Ok [ {[ "role_id" := VStr "member"; "user_id" := user_id ]};
         {[ "role_id" := VStr "reader"; "user_id" := user_id ]};
         {[ "role_id" := VStr "member"; "group_id" := VStr "staff" ]} ]
  else Ok [].

Definition demo_get_role (role_id : val) : result (gmap string val) :=
  match role_id with
  | VStr "member" => Ok {[ "id" := role_id; "name" := VStr "Member" ]}
  | VStr "reader" => Ok {[ "id" := role_id; "name" := VStr "Reader" ]}
  | VStr "admin" => Ok {[ "id" := role_id; "name" := VStr "Admin" ]}
  | _ => Raise (RoleNotFound role_id)
  end.

Definition demo_request : gmap string val :=
  {[ "id" := VStr "c1"; "user_id" := VStr "alice"; "project_id" := VStr "proj";
     "secret" := VStr "s3cr3t"; "name" := VStr "ci"; "roles" := VRef 1 ]}.

(** The request at 0 with its roles at 1 and 2; the same request for
    the role [admin] at 3, 4 and 5, and without roles at 6; the payloads
    of a user event at 7 and of an assignment event at 8 and 9. *)
Definition demo_heap : gmap loc obj :=
  {[ 0 := ODict demo_request;
     1 := OList [VRef 2];
     2 := ODict {[ "id" := VStr "member" ]};
     3 := ODict (<["roles" := VRef 4]> demo_request);
     4 := OList [VRef 2; VRef 5];
     5 := ODict {[ "id" := VStr "admin" ]};
     6 := ODict (delete "roles" demo_request);
     7 := ODict {[ "resource_info" := VStr "alice" ]};
     8 := ODict {[ "resource_info" := VRef 9 ]};
     9 := ODict {[ "user_id" := VStr "alice"; "project_id" := VStr "proj" ]} ]}.

Definition demo_world : world (gmap string stored) unit :=
  World demo_heap ∅ ∅ [] [].

Definition demo_create :=
  create_application_credential (driver := demo_driver) demo_assignments demo_get_role.

Definition demo_get :=
  get_application_credential (driver := demo_driver) demo_get_role.

Definition demo_delete := delete_application_credential (driver := demo_driver).

(** The world after [c1] was created and then read, which caches it. *)
Definition demo_cached : world (gmap string stored) unit :=
  (demo_get "c1" (demo_create (VRef 0) VNone demo_world).2).2.

(** The request for [admin] and [member], and the request without
    roles. *)
Definition demo_request_admin : gmap string val := <["roles" := VRef 4]> demo_request.
Definition demo_request_no_roles : gmap string val := delete "roles" demo_request.

Definition demo_held : list (gmap string val) :=
  [ {[ "role_id" := VStr "member"; "user_id" := VStr "alice" ]};
    {[ "role_id" := VStr "reader"; "user_id" := VStr "alice" ]};
    {[ "role_id" := VStr "member"; "group_id" := VStr "staff" ]} ].

Definition demo_member : gmap string val :=
  {[ "id" := VStr "member"; "name" := VStr "Member" ]}.

(** What the reference driver answers to the creation of [c1]. *)
Definition demo_created : result val * (gmap loc obj * gmap string stored) :=
  driver_create_application_credential (ApplicationCredentialDriverBase := demo_driver)
    (VRef (copy_loc demo_heap)) (VRef 1) (checked_heap demo_heap demo_request, ∅).

Definition demo_record : gmap string val :=
  match demo_created.1 with
  | Ok (VRef r) =>
      match demo_created.2.1 !! r with Some (ODict d) => d | _ => ∅ end
  | _ => ∅
  end.

(** A deployment of the external plugins: the user [alice] of the
    default domain, and the "kerberos" binding. *)
Definition demo_conf : External.conf :=
  {| External.default_domain_id := "default"; External.token_bind := ["kerberos"] |}.

Definition demo_users (name : option string) (domain_id : string)
    : result (gmap string string) :=
  match name, domain_id with
  | Some "alice", "default" => Ok {[ "id" := "u1"; "name" := "alice" ]}
  | _, _ => Raise (UserNotFound (External.format_s name))
  end.

Definition demo_domains (name : option string) : result (gmap string string) :=
  match name with
  | Some "Default" => Ok {[ "id" := "default" ]}
  | _ => Raise (DomainNotFound (External.format_s name))
  end.

Definition demo_negotiate : External.request :=
  {| External.remote_user := Some "alice"; External.remote_domain := None;
     External.auth_type := Some "NEGOTIATE" |}.

Definition demo_basic : External.request :=
  {| External.remote_user := Some "alice"; External.remote_domain := Some "Default";
     External.auth_type := Some "Basic" |}.

Definition demo_response : External.AuthHandlerResponse :=
  {| External.status := true; External.response_body := None;
     External.response_data :=
       {[ "user_id" := External.RStr "u1";
          "bind" := External.RDict {[ "kerberos" := "alice" ]} ]} |}.

(** ** More of the small deployment *)

(** A request that names its domain and uses "Negotiate", and a backend
    whose users have no id. *)
Definition demo_kerberos : External.request :=
  {| External.remote_user := Some "alice"; External.remote_domain := Some "Default";
     External.auth_type := Some "Negotiate" |}.

Definition demo_unknown_domain : External.request :=
  {| External.remote_user := Some "alice"; External.remote_domain := Some "Nowhere";
     External.auth_type := None |}.

Definition demo_nameless_users (name : option string) (domain_id : string)
    : result (gmap string string) :=
  Ok {[ "name" := External.format_s name ]}.

(** ** More vocabulary *)

(** A dict without the key ['secret_hash']. *)
Definition no_secret_hash (h : gmap loc obj) (v : val) : Prop :=
  ∃ p d, v = VRef p ∧ h !! p = Some (ODict d) ∧ d !! "secret_hash" = None.

Definition is_get_role {Hints} (e : event Hints) : Prop :=
  match e with EvGetRole _ => True | _ => False end.

(** The calls that one run of [create_application_credential] can make,
    by its outcome: if it returns, the query for the assignments, the
    driver's [create], the lookups of the roles, and the audit event;
    if it raises, nothing, or the first, or the first two, or the first
    two and lookups of roles. *)
Definition create_calls {Hints} (initiator : val) (outcome : result val)
    (cs : list (event Hints)) : Prop :=
  match outcome with
  | Ok _ =>
      ∃ uid pid ac roles ids cid,
        cs = EvListRoleAssignments uid pid true :: EvDriverCreate ac roles
               :: (EvGetRole <$> ids) ++ [EvAuditCreated _APP_CRED cid initiator]
  | Raise _ =>
      cs = []
      ∨ (∃ uid pid, cs = [EvListRoleAssignments uid pid true])
      ∨ (∃ uid pid ac roles ids,
           cs = EvListRoleAssignments uid pid true :: EvDriverCreate ac roles
                  :: (EvGetRole <$> ids))
  end.

(** An invariant that speaks of the cache and the listeners only. *)
Definition cache_only {D Hints} (I : world D Hints → Prop) : Prop :=
  ∀ h s c ls t h' s' t', I (World h s c ls t) → I (World h' s' c ls t').



(** Assignments of which one names no role. *)
Definition demo_bad_assignments (user_id project_id : val) (effective : bool)
    : result (list (gmap string val)) :=
  Ok [ {[ "role_id" := VStr "member" ]}; {[ "user_id" := user_id ]} ].

(** A driver that keeps nothing: [create] completes the dict it is
    handed, in place, and returns it. *)
Definition demo_in_place_driver : ApplicationCredentialDriverBase unit unit := {|
  driver_authenticate _ _ := raise NotImplemented;
  driver_create_application_credential application_credential roles :=
    in_heap (py_setitem application_credential "secret_hash" (VStr "hash");;
             py_setitem application_credential "roles" roles;;
             mret application_credential);
  driver_get_application_credential _ := raise NotImplemented;
  driver_list_application_credentials_for_user _ _ := raise NotImplemented;
  driver_delete_application_credential _ := raise NotImplemented;
  driver_delete_application_credentials_for_user _ := raise NotImplemented;
  driver_delete_application_credentials_for_user_on_project _ _ := raise NotImplemented;
|}.

(** The request for [c1] without a user, without a secret, and without
    an id, at 20, 21 and 22. *)
Definition demo_heap_incomplete : gmap loc obj :=
  <[20 := ODict (delete "user_id" demo_request)]>
    (<[21 := ODict (delete "secret" demo_request)]>
       (<[22 := ODict (delete "id" demo_request)]> demo_heap)).


(** What the driver that works in place answers to the request without
    an id, and the dict it has completed. *)
Definition demo_in_place_created : result val * (gmap loc obj * unit) :=
  driver_create_application_credential
    (ApplicationCredentialDriverBase := demo_in_place_driver)
    (VRef (copy_loc demo_heap_incomplete)) (VRef 1)
    (checked_heap demo_heap_incomplete (delete "id" demo_request), ()).

Definition demo_in_place_record : gmap string val :=
  <["roles" := VRef 1]>
    (<["secret_hash" := VStr "hash"]> (delete "roles" (delete "id" demo_request))).

(** The record of [c1] as the reference driver returns it, up to the
    reference to its roles. *)
Definition demo_stored_fields : gmap string val :=
  <["secret_hash" := VStr "sha512:s3cr3t"]> (delete "secret" (delete "roles" demo_request)).

(** A stored record at 32 whose roles, at 31, are [member], a role
    [gone] that the role API no longer knows, and [admin]. *)
Definition demo_stale_record : gmap string val :=
  <["roles" := VRef 31]> demo_stored_fields.

Definition demo_heap_stale : gmap loc obj :=
  <[30 := ODict {[ "id" := VStr "gone" ]}]>
    (<[31 := OList [VRef 2; VRef 30; VRef 5]]>
       (<[32 := ODict demo_stale_record]> demo_heap)).

(** * Properties *)

(** ** Running a computation step by step *)

Section run.
Context {S : Type}.

Lemma bind_ok {A B} (m : SE S A) (f : A → SE S B) s a s' :
  m s = (Ok a, s') → (m ≫= f) s = f a s'.
Proof. intros H. unfold mbind, SE_bind. by rewrite H. Qed.

Lemma bind_raise {A B} (m : SE S A) (f : A → SE S B) s e s' :
  m s = (Raise e, s') → (m ≫= f) s = (Raise e, s').
Proof. intros H. unfold mbind, SE_bind. by rewrite H. Qed.

Lemma map_comp_pure {A B} (f : A → SE S B) (g : A → option B) xs s :
  (∀ x y s, g x = Some y → f x s = (Ok y, s)) →
  (∀ x, x ∈ xs → is_Some (g x)) →
  map_comp f xs s = (Ok (omap g xs), s).
Proof.
  intros Hf. induction xs as [|x xs IH]; intros Hg; [done|].
  destruct (Hg x) as [y Hy]; [by left|].
  simpl. rewrite Hy. erewrite bind_ok by eauto.
  erewrite bind_ok; [done|]. apply IH. intros z Hz. apply Hg. by right.
Qed.

Lemma filter_comp_pure {A} (p : A → SE S bool) (q : A → bool) xs s :
  (∀ x, p x s = (Ok (q x), s)) →
  filter_comp p xs s = (Ok (filter (λ x, q x = true) xs), s).
Proof.
  intros Hp. induction xs as [|x xs IH]; [done|].
  simpl. erewrite bind_ok by apply Hp. erewrite bind_ok by exact IH.
  rewrite filter_cons. by destruct (q x).
Qed.

Lemma yields_bind {A B} (I : S → Prop) (R' : A → Prop) (R : B → Prop)
    (m : SE S A) (f : A → SE S B) :
  yields I R' m → (∀ a, R' a → yields I R (f a)) → yields I R (m ≫= f).
Proof.
  intros Hm Hf s Hs. destruct (Hm s Hs) as [HI HR]. unfold mbind, SE_bind.
  destruct (m s) as [[a|e] s']; simpl in *; [|done].
  apply Hf; [by apply HR|done].
Qed.

Lemma yields_weaken {A} (I : S → Prop) (R R' : A → Prop) (m : SE S A) :
  yields I R m → (∀ a, R a → R' a) → yields I R' m.
Proof. intros Hm HR s Hs. destruct (Hm s Hs) as [HI Ha]. split; eauto. Qed.

Lemma yields_ret {A} (I : S → Prop) (R : A → Prop) (a : A) : R a → yields I R (mret a).
Proof. intros Ha s Hs. split; [done|]. by intros ? [= <-]. Qed.

Lemma yields_raise {A} (I : S → Prop) (R : A → Prop) e : yields I R (raise e).
Proof. by intros s Hs. Qed.

Lemma yields_lift_result {A} (I : S → Prop) (r : result A) :
  yields I (λ a, r = Ok a) (lift_result r).
Proof. by intros s Hs. Qed.

Lemma yields_keeps {A} (I : S → Prop) (R : A → Prop) (m : SE S A) :
  yields I R m → keeps I m.
Proof. intros Hm. by eapply yields_weaken. Qed.

Lemma keeps_bind {A B} (I : S → Prop) (R : B → Prop) (m : SE S A) (f : A → SE S B) :
  keeps I m → (∀ a, yields I R (f a)) → yields I R (m ≫= f).
Proof. intros Hm Hf. eapply yields_bind; [exact Hm|]. intros a _. apply Hf. Qed.

Lemma keeps_ret {A} (I : S → Prop) (a : A) : keeps I (mret a).
Proof. by apply yields_ret. Qed.

Lemma keeps_lift_result {A} (I : S → Prop) (r : result A) : keeps I (lift_result r).
Proof. eapply yields_keeps, yields_lift_result. Qed.

Lemma keeps_for_each {A} (I : S → Prop) (body : A → SE S unit) xs :
  (∀ x, keeps I (body x)) → keeps I (for_each body xs).
Proof.
  intros Hb. induction xs as [|x xs IH]; [apply keeps_ret|].
  simpl. apply keeps_bind; [apply Hb|]. intros _. exact IH.
Qed.

Lemma keeps_map_comp {A B} (I : S → Prop) (f : A → SE S B) xs :
  (∀ x, keeps I (f x)) → keeps I (map_comp f xs).
Proof.
  intros Hf. induction xs as [|x xs IH]; [apply keeps_ret|].
  simpl. apply keeps_bind; [apply Hf|]. intros y.
  apply keeps_bind; [exact IH|]. intros ys. apply keeps_ret.
Qed.

Lemma keeps_filter_comp {A} (I : S → Prop) (p : A → SE S bool) xs :
  (∀ x, keeps I (p x)) → keeps I (filter_comp p xs).
Proof.
  intros Hp. induction xs as [|x xs IH]; [apply keeps_ret|].
  simpl. apply keeps_bind; [apply Hp|]. intros b.
  apply keeps_bind; [exact IH|]. intros ys. apply keeps_ret.
Qed.

End run.

(** ** Heap lemmas *)

Section heap_lemmas.
Implicit Types (h : gmap loc obj) (l : loc) (d : gmap string val).

Lemma fresh_loc_None h : h !! fresh_loc h = None.
Proof. apply not_elem_of_dom. unfold fresh_loc. apply is_fresh. Qed.

Lemma alloc_subseteq h o : h ⊆ <[fresh_loc h := o]> h.
Proof. apply insert_subseteq, fresh_loc_None. Qed.

Lemma fresh_loc_ne h l o : h !! l = Some o → l ≠ fresh_loc h.
Proof. intros H ->. by rewrite fresh_loc_None in H. Qed.

Lemma py_copy_run h l o :
  h !! l = Some o → py_copy (VRef l) h = (Ok (VRef (fresh_loc h)), <[fresh_loc h := o]> h).
Proof. intros H. unfold py_copy. simpl. by rewrite H. Qed.

Lemma py_getitem_run h l d k x :
  h !! l = Some (ODict d) → d !! k = Some x → py_getitem (VRef l) k h = (Ok x, h).
Proof. intros H Hk. unfold py_getitem. simpl. by rewrite H, Hk. Qed.

Lemma py_getitem_missing h l d k :
  h !! l = Some (ODict d) → d !! k = None → py_getitem (VRef l) k h = (Raise (KeyError k), h).
Proof. intros H Hk. unfold py_getitem. simpl. by rewrite H, Hk. Qed.

Lemma py_setitem_run h l d k x :
  h !! l = Some (ODict d) →
  py_setitem (VRef l) k x h = (Ok (), <[l := ODict (<[k := x]> d)]> h).
Proof. intros H. unfold py_setitem. simpl. by rewrite H. Qed.

Lemma py_pop_run h l d k x :
  h !! l = Some (ODict d) → d !! k = Some x →
  py_pop (VRef l) k h = (Ok x, <[l := ODict (delete k d)]> h).
Proof. intros H Hk. unfold py_pop. simpl. by rewrite H, Hk. Qed.

Lemma py_pop_default_run h l d k x dflt :
  h !! l = Some (ODict d) → d !! k = Some x →
  py_pop_default (VRef l) k dflt h = (Ok x, <[l := ODict (delete k d)]> h).
Proof. intros H Hk. unfold py_pop_default. simpl. by rewrite H, Hk. Qed.

Lemma py_pop_default_missing h l d k dflt :
  h !! l = Some (ODict d) → d !! k = None →
  py_pop_default (VRef l) k dflt h = (Ok dflt, h).
Proof. intros H Hk. unfold py_pop_default. simpl. by rewrite H, Hk. Qed.

Lemma py_append_run h l xs x :
  h !! l = Some (OList xs) →
  py_append (VRef l) x h = (Ok (), <[l := OList (xs ++ [x])]> h).
Proof. intros H. unfold py_append. simpl. by rewrite H. Qed.

Lemma py_iter_run h l xs :
  h !! l = Some (OList xs) → py_iter (VRef l) h = (Ok xs, h).
Proof. intros H. unfold py_iter. simpl. by rewrite H. Qed.

End heap_lemmas.

(** ** The role check *)

Section role_check.
Context {D Hints : Type} {driver : ApplicationCredentialDriverBase D Hints}.
Variable list_role_assignments : val → val → bool → result (list (gmap string val)).
Implicit Types (w : world D Hints) (h : gmap loc obj) (s : D) (c : gmap string val).
Implicit Types (ls : list (action * string * callback)) (t : list (event Hints * gmap loc obj)).

Lemma on_heap_run {A} (m : SE (gmap loc obj) A) h s c ls t r h' :
  m h = (r, h') →
  on_heap m (World h s c ls t) = (r, World h' s c ls t).
Proof. intros H. unfold on_heap. simpl. by rewrite H. Qed.

Lemma _get_user_roles_run h s c ls t uid pid al :
  list_role_assignments uid pid true = Ok al →
  assignments_ok al →
  ∃ ids, _get_user_roles list_role_assignments uid pid (World h s c ls t)
         = (Ok ids, World h s c ls (t ++ [(EvListRoleAssignments uid pid true, h)]))
         ∧ ∀ rid, rid ∈ ids ↔ holds_role al rid.
Proof.
  intros Hal Hok. exists (remove_dups (omap (λ x, x !! "role_id") al)). split.
  - unfold _get_user_roles. erewrite bind_ok by reflexivity.  simpl.
    erewrite bind_ok; [|unfold lift_result; by rewrite Hal].
    erewrite bind_ok; cycle 1.
    { apply (map_comp_pure _ (λ x, x !! "role_id")).
      - intros x y s0 Hx. unfold lift_result, dict_get. by rewrite Hx.
      - intros x Hx. destruct (Hok x Hx) as (v & -> & _). eauto. }
    unfold lift_result, py_list_set.
    replace (forallb hashable (omap (λ x, x !! "role_id") al)) with true; [done|].
    symmetry. apply forallb_forall. intros v Hv.
    apply list_elem_of_In, list_elem_of_omap in Hv as (x & Hx & Hxv).
    destruct (Hok x Hx) as (v' & Hv' & Hh). congruence.
  - intros rid. rewrite elem_of_remove_dups, list_elem_of_omap. done.
Qed.

Lemma role_id_of_Some h role rid :
  role_id_of h role = Some rid →
  ∃ l d, role = VRef l ∧ h !! l = Some (ODict d) ∧ d !! "id" = Some rid.
Proof.
  destruct role as [| | |l]; simpl; try done.
  destruct (h !! l) as [[d|]|] eqn:Hl; try done. eauto.
Qed.

Lemma role_id_of_getitem h s c ls t role rid :
  role_id_of h role = Some rid →
  on_heap (py_getitem role "id") (World h s c ls t) = (Ok rid, World h s c ls t).
Proof.
  intros (l & d & -> & Hl & Hid)%role_id_of_Some.
  eapply on_heap_run, py_getitem_run; eauto.
Qed.

Lemma role_id_of_mono h h' role rid :
  h ⊆ h' → role_id_of h role = Some rid → role_id_of h' role = Some rid.
Proof.
  intros Hsub (l & d & -> & Hl & Hid)%role_id_of_Some. simpl.
  by rewrite (lookup_weaken _ _ _ _ Hl Hsub).
Qed.

Lemma require_role_run h s c ls t ids uid pid role rid :
  role_id_of h role = Some rid →
  require_role ids uid pid role (World h s c ls t)
  = (if bool_decide (rid ∈ ids) then Ok ()
     else Raise (RoleAssignmentNotFound rid uid pid), World h s c ls t).
Proof.
  intros Hrid. unfold require_role.
  erewrite bind_ok; cycle 1.
  { apply (filter_comp_pure _ (λ x, py_eq x rid)). intros x.
    erewrite bind_ok by (by apply role_id_of_getitem). done. }
  destruct (filter _ ids) as [|y ys] eqn:Hf.
  - erewrite bind_ok by (by apply role_id_of_getitem).
    rewrite bool_decide_eq_false_2; [done|]. intros Hin.
    assert (rid ∈ filter (λ x, py_eq x rid = true) ids) as Hin'.
    { apply list_elem_of_filter. split; [|done]. unfold py_eq. by apply bool_decide_eq_true. }
    rewrite Hf in Hin'. by apply not_elem_of_nil in Hin'.
  - rewrite bool_decide_eq_true_2; [done|].
    assert (y ∈ filter (λ x, py_eq x rid = true) ids) as Hy by (rewrite Hf; left).
    apply list_elem_of_filter in Hy as [Heq Hy]. unfold py_eq in Heq.
    apply bool_decide_eq_true in Heq. by subst.
Qed.

Lemma require_loop_raise h s c ls t ids uid pid rs :
  (∀ r, r ∈ rs → is_Some (role_id_of h r)) →
  (∃ r rid, r ∈ rs ∧ role_id_of h r = Some rid ∧ rid ∉ ids) →
  ∃ rid, (∃ r, r ∈ rs ∧ role_id_of h r = Some rid) ∧ (rid ∉ ids) ∧
    for_each (require_role ids uid pid) rs (World h s c ls t)
    = (Raise (RoleAssignmentNotFound rid uid pid), World h s c ls t).
Proof.
  induction rs as [|r rs IH]; intros Hwf (r0 & rid0 & Hin & Hrid0 & Hnot).
  { by apply not_elem_of_nil in Hin. }
  destruct (Hwf r) as [rid Hrid]; [by left|].
  destruct (decide (rid ∈ ids)) as [Hheld|Hunmet].
  - destruct IH as (rid' & (r' & Hr' & Hrid') & Hnot' & Hrun).
    { intros z Hz. apply Hwf. by right. }
    { exists r0, rid0. split; [|done].
      apply elem_of_cons in Hin as [->|Hin]; [congruence|done]. }
    exists rid'. split; [exists r'; split; [by right|done]|]. split; [done|].
    simpl. erewrite bind_ok; [exact Hrun|].
    rewrite (require_role_run _ _ _ _ _ _ _ _ _ rid) by done.
    by rewrite bool_decide_eq_true_2.
  - exists rid. split; [exists r; split; [by left|done]|]. split; [done|].
    simpl. erewrite bind_raise; [done|].
    rewrite (require_role_run _ _ _ _ _ _ _ _ _ rid) by done.
    by rewrite bool_decide_eq_false_2.
Qed.

Lemma require_loop_ok h s c ls t ids uid pid rs :
  (∀ r, r ∈ rs → ∃ rid, role_id_of h r = Some rid ∧ rid ∈ ids) →
  for_each (require_role ids uid pid) rs (World h s c ls t) = (Ok (), World h s c ls t).
Proof.
  induction rs as [|r rs IH]; intros Hall; [done|].
  destruct (Hall r) as (rid & Hrid & Hin); [by left|].
  simpl. erewrite bind_ok; [apply IH; intros z Hz; apply Hall; by right|].
  rewrite (require_role_run _ _ _ _ _ _ _ _ _ rid) by done.
  by rewrite bool_decide_eq_true_2.
Qed.

Lemma require_unfold roles uid pid :
  _require_user_has_role_in_project (D := D) (Hints := Hints)
    list_role_assignments roles uid pid
  = (user_roles ← _get_user_roles list_role_assignments uid pid;
     roles ← on_heap (py_iter roles);
     for_each (require_role user_roles uid pid) roles).
Proof. reflexivity. Qed.

Lemma require_run_raise h s c ls t rl rs uid pid al :
  list_role_assignments uid pid true = Ok al →
  assignments_ok al →
  h !! rl = Some (OList rs) →
  (∀ r, r ∈ rs → is_Some (role_id_of h r)) →
  (∃ r rid, r ∈ rs ∧ role_id_of h r = Some rid ∧ ¬ holds_role al rid) →
  ∃ rid, (∃ r, r ∈ rs ∧ role_id_of h r = Some rid) ∧ ¬ holds_role al rid ∧
    _require_user_has_role_in_project list_role_assignments (VRef rl) uid pid
      (World h s c ls t)
    = (Raise (RoleAssignmentNotFound rid uid pid),
       World h s c ls (t ++ [(EvListRoleAssignments uid pid true, h)])).
Proof.
  intros Hal Hok Hrl Hwf (r0 & rid0 & Hin & Hrid0 & Hnot).
  destruct (_get_user_roles_run h s c ls t uid pid al Hal Hok) as (ids & Hids & Hmem).
  destruct (require_loop_raise h s c ls (t ++ [(EvListRoleAssignments uid pid true, h)])
              ids uid pid rs Hwf) as (rid & Hreq & Hunmet & Hrun).
  { exists r0, rid0. by rewrite Hmem. }
  exists rid. split; [done|]. split; [by rewrite <- Hmem|].
  rewrite require_unfold. erewrite bind_ok by exact Hids.
  erewrite bind_ok by (eapply on_heap_run, py_iter_run; eauto). done.
Qed.

Lemma require_run_ok h s c ls t rl rs uid pid al :
  list_role_assignments uid pid true = Ok al →
  assignments_ok al →
  h !! rl = Some (OList rs) →
  (∀ r, r ∈ rs → ∃ rid, role_id_of h r = Some rid ∧ holds_role al rid) →
  _require_user_has_role_in_project list_role_assignments (VRef rl) uid pid
    (World h s c ls t)
  = (Ok (), World h s c ls (t ++ [(EvListRoleAssignments uid pid true, h)])).
Proof.
  intros Hal Hok Hrl Hall.
  destruct (_get_user_roles_run h s c ls t uid pid al Hal Hok) as (ids & Hids & Hmem).
  rewrite require_unfold. erewrite bind_ok by exact Hids.
  erewrite bind_ok by (eapply on_heap_run, py_iter_run; eauto).
  apply require_loop_ok. intros r Hr. destruct (Hall r Hr) as (rid & ? & ?).
  exists rid. by rewrite Hmem.
Qed.

End role_check.

(** ** The public view of a credential *)

Section projection.
Context {D Hints : Type} {driver : ApplicationCredentialDriverBase D Hints}.
Variable get_role : val → result (gmap string val).
Implicit Types (w : world D Hints) (h : gmap loc obj) (s : D) (c : gmap string val).
Implicit Types (ls : list (action * string * callback)) (t : list (event Hints * gmap loc obj)).

Lemma new_role_objects_weaken h0 h h' h'' nl vs roles :
  new_role_objects h h' nl vs roles →
  (∀ l, h !! l = None → h0 !! l = None) →
  (∀ l o, l ≠ nl → h' !! l = Some o → h'' !! l = Some o) →
  new_role_objects h0 h'' nl vs roles.
Proof.
  intros Hn H0 H''. eapply Forall2_impl; [|exact Hn].
  intros v role (l & -> & Hne & Hl & Hl'). exists l. repeat split; eauto.
Qed.

Lemma append_roles_run s c ls nl rrs : ∀ rids robjs h t acc,
  h !! nl = Some (OList acc) →
  role_ids h rrs rids →
  roles_known get_role rids robjs →
  ∃ h' vs t',
    for_each (append_role get_role (VRef nl)) rrs (World h s c ls t)
    = (Ok (), World h' s c ls t')
    ∧ h' !! nl = Some (OList (acc ++ vs))
    ∧ (∀ l o, l ≠ nl → h !! l = Some o → h' !! l = Some o)
    ∧ new_role_objects h h' nl vs robjs
    ∧ t'.*1 = t.*1 ++ (EvGetRole <$> rids).
Proof.
  induction rrs as [|r rrs IH]; intros rids robjs h t acc Hnl Hids Hknown.
  - apply Forall2_nil_inv_l in Hids as ->. apply Forall2_nil_inv_l in Hknown as ->.
    exists h, [], t. simpl. rewrite !app_nil_r. repeat split; eauto. constructor.
  - apply Forall2_cons_inv_l in Hids as (rid & rids' & Hrid & Hids & ->).
    apply Forall2_cons_inv_l in Hknown as (robj & robjs' & Hrobj & Hknown & ->).
    set (l := fresh_loc h).
    set (h2 := <[nl := OList (acc ++ [VRef l])]> (<[l := ODict robj]> h)).
    assert (l ≠ nl) as Hne by (symmetry; by eapply fresh_loc_ne).
    assert (∀ l0 o, l0 ≠ nl → h !! l0 = Some o → h2 !! l0 = Some o) as Hframe.
    { intros l0 o Hl0 Hlook. unfold h2. rewrite lookup_insert_ne by done.
      rewrite lookup_insert_ne; [done|]. symmetry. by eapply fresh_loc_ne. }
    assert (∀ z x, role_id_of h z = Some x → role_id_of h2 z = Some x) as Hmono.
    { intros z x (lz & dz & -> & Hlz & Hx)%role_id_of_Some. simpl.
      rewrite (Hframe lz (ODict dz)); [done| |done]. intros ->. congruence. }
    destruct (IH rids' robjs' h2 (t ++ [(EvGetRole rid, h)]) (acc ++ [VRef l]))
      as (h' & vs & t' & Hrun & Hnl' & Hframe' & Hnew & Ht').
    { unfold h2. apply lookup_insert_eq. }
    { eapply Forall2_impl; [|exact Hids]. intros z x. apply Hmono. }
    { done. }
    exists h', (VRef l :: vs), t'. split; [|split; [|split; [|split]]].
    + simpl. erewrite bind_ok; [exact Hrun|].
      unfold append_role.
      erewrite bind_ok by (by apply role_id_of_getitem).
      erewrite bind_ok; cycle 1.
      { unfold call_api. erewrite bind_ok by reflexivity. simpl.
        erewrite bind_ok by (unfold lift_result; by rewrite Hrobj).
        eapply on_heap_run. reflexivity. }
      eapply on_heap_run, py_append_run.
      rewrite lookup_insert_ne by done. done.
    + by rewrite Hnl', <- app_assoc.
    + intros l0 o Hl0 Hlook. apply Hframe'; [done|]. by apply Hframe.
    + constructor.
      * exists l. split; [done|]. split; [done|]. split; [apply fresh_loc_None|].
        apply Hframe'; [done|]. unfold h2. rewrite lookup_insert_ne by done.
        apply lookup_insert_eq.
      * eapply new_role_objects_weaken; [exact Hnew| |eauto].
        intros l0 Hl0. destruct (h !! l0) as [o|] eqn:Hlook; [|done].
        destruct (decide (l0 = nl)) as [->|Hl0ne].
        -- unfold h2 in Hl0. by rewrite lookup_insert_eq in Hl0.
        -- rewrite (Hframe l0 o) in Hl0; done.
    + rewrite Ht', fmap_app. simpl. by rewrite <- app_assoc.
Qed.

Lemma get_role_list_unfold app_cred_roles :
  _get_role_list (D := D) (Hints := Hints) get_role app_cred_roles
  = (roles ← on_heap (py_alloc (OList []));
     app_cred_roles ← on_heap (py_iter app_cred_roles);
     for_each (append_role get_role roles) app_cred_roles;;
     mret roles).
Proof. reflexivity. Qed.

Lemma _get_role_list_run h s c ls t rrl rrs rids robjs :
  h !! rrl = Some (OList rrs) →
  role_ids h rrs rids →
  roles_known get_role rids robjs →
  ∃ h' vs t',
    _get_role_list get_role (VRef rrl) (World h s c ls t)
    = (Ok (VRef (fresh_loc h)), World h' s c ls t')
    ∧ h ⊆ h'
    ∧ h' !! fresh_loc h = Some (OList vs)
    ∧ new_role_objects h h' (fresh_loc h) vs robjs
    ∧ t'.*1 = t.*1 ++ (EvGetRole <$> rids).
Proof.
  intros Hrrl Hids Hknown. set (nl := fresh_loc h).
  set (h1 := <[nl := OList []]> h).
  assert (h ⊆ h1) as Hsub by apply alloc_subseteq.
  destruct (append_roles_run s c ls nl rrs rids robjs h1 t [])
    as (h' & vs & t' & Hrun & Hnl' & Hframe & Hnew & Ht'); [apply lookup_insert_eq| |done|].
  { eapply Forall2_impl; [|exact Hids]. intros z x. by apply role_id_of_mono. }
  exists h', vs, t'. split; [|split; [|split; [|split]]]; [| |done| |done].
  - rewrite get_role_list_unfold.
    erewrite bind_ok by (eapply on_heap_run; reflexivity).
    erewrite bind_ok by (eapply on_heap_run, py_iter_run, lookup_weaken; eauto).
    erewrite bind_ok by exact Hrun. done.
  - apply map_subseteq_spec. intros l o Hl. apply Hframe.
    + intros ->. unfold nl in Hl. by rewrite fresh_loc_None in Hl.
    + by eapply lookup_weaken.
  - eapply new_role_objects_weaken; [exact Hnew| |eauto].
    intros l Hl. destruct (h !! l) as [o|] eqn:Hlook; [|done].
    by rewrite (lookup_weaken _ _ _ _ Hlook Hsub) in Hl.
Qed.

(** The projection: a copy of the record without [secret_hash] and
    with the roles in full; the record itself is left as it was. *)
Lemma _process_app_cred_run h s c ls t r dr hsh rrl rrs rids robjs :
  h !! r = Some (ODict dr) →
  dr !! "secret_hash" = Some hsh →
  dr !! "roles" = Some (VRef rrl) →
  h !! rrl = Some (OList rrs) →
  role_ids h rrs rids →
  roles_known get_role rids robjs →
  ∃ h' nl vs t',
    _process_app_cred get_role (VRef r) (World h s c ls t)
    = (Ok (VRef (fresh_loc h)), World h' s c ls t')
    ∧ h ⊆ h'
    ∧ h' !! fresh_loc h = Some (ODict (<["roles" := VRef nl]> (delete "secret_hash" dr)))
    ∧ h' !! nl = Some (OList vs)
    ∧ role_objects h' vs robjs
    ∧ t'.*1 = t.*1 ++ (EvGetRole <$> rids).
Proof.
  intros Hr Hsh Hroles Hrrl Hids Hknown. set (p := fresh_loc h).
  set (h2 := <[p := ODict (delete "secret_hash" dr)]> (<[p := ODict dr]> h)).
  assert (h ⊆ h2) as Hsub.
  { unfold h2. rewrite insert_insert_eq. apply alloc_subseteq. }
  destruct (_get_role_list_run h2 s c ls t rrl rrs rids robjs)
    as (h3 & vs & t' & Hrun & Hsub3 & Hnl & Hnew & Ht'); [| |done|].
  { by eapply lookup_weaken. }
  { eapply Forall2_impl; [|exact Hids]. intros z x. by apply role_id_of_mono. }
  set (nl := fresh_loc h2) in *.
  assert (h2 !! p = Some (ODict (delete "secret_hash" dr))) as Hp2.
  { unfold h2. apply lookup_insert_eq. }
  assert (nl ≠ p) as Hne by (symmetry; by eapply fresh_loc_ne).
  exists (<[p := ODict (<["roles" := VRef nl]> (delete "secret_hash" dr))]> h3), nl, vs, t'.
  split; [|split; [|split; [|split; [|split]]]]; [| | | | |done].
  - unfold _process_app_cred.
    erewrite bind_ok by (eapply on_heap_run, py_copy_run; eauto).
    erewrite bind_ok by (eapply on_heap_run, py_pop_run; [apply lookup_insert_eq|done]).
    erewrite bind_ok; cycle 1.
    { eapply on_heap_run, py_getitem_run; [apply lookup_insert_eq|].
      by rewrite lookup_delete_ne. }
    erewrite bind_ok by exact Hrun.
    erewrite bind_ok; [reflexivity|].
    eapply on_heap_run, py_setitem_run. by eapply lookup_weaken.
  - apply insert_subseteq_r; [apply fresh_loc_None|]. by etrans.
  - apply lookup_insert_eq.
  - by rewrite lookup_insert_ne.
  - eapply Forall2_impl; [|exact Hnew]. intros v role (l & -> & _ & Hl2 & Hl3).
    exists l. split; [done|]. rewrite lookup_insert_ne; [done|].
    intros <-. congruence.
Qed.

End projection.

(** ** Creation *)

Section create.
Context {D Hints : Type} {driver : ApplicationCredentialDriverBase D Hints}.
Variable list_role_assignments : val → val → bool → result (list (gmap string val)).
Variable get_role : val → result (gmap string val).
Implicit Types (w : world D Hints) (h : gmap loc obj) (s : D) (c : gmap string val).
Implicit Types (ls : list (action * string * callback)) (t : list (event Hints * gmap loc obj)).

Lemma create_unfold a initiator :
  create_application_credential (D := D) (Hints := Hints)
    list_role_assignments get_role a initiator
  = (application_credential ← on_heap (py_copy a);
     user_id ← on_heap (py_getitem application_credential "user_id");
     project_id ← on_heap (py_getitem application_credential "project_id");
     default ← on_heap (py_alloc (OList []));
     roles ← on_heap (py_pop_default application_credential "roles" default);
     create_checked list_role_assignments get_role application_credential roles
       user_id project_id initiator).
Proof. reflexivity. Qed.

Lemma default_loc_ne h d : copy_loc h ≠ default_loc h d.
Proof. apply (fresh_loc_ne _ _ (ODict d)). apply lookup_insert_eq. Qed.

Lemma checked_heap_subseteq h d : h ⊆ checked_heap h d.
Proof.
  unfold checked_heap. apply insert_subseteq_r; [apply fresh_loc_None|].
  etrans; [apply alloc_subseteq|]. apply alloc_subseteq.
Qed.

Lemma checked_heap_copy h d :
  checked_heap h d !! copy_loc h = Some (ODict (delete "roles" d)).
Proof. apply lookup_insert_eq. Qed.

Lemma checked_heap_default h d : checked_heap h d !! default_loc h d = Some (OList []).
Proof.
  unfold checked_heap. rewrite lookup_insert_ne by apply default_loc_ne.
  apply lookup_insert_eq.
Qed.

(** Up to the role check, with the roles in the request. *)
Lemma create_prefix_roles h s c ls t a d uid pid roles initiator :
  h !! a = Some (ODict d) →
  d !! "user_id" = Some uid → d !! "project_id" = Some pid →
  d !! "roles" = Some roles →
  create_application_credential list_role_assignments get_role (VRef a) initiator
    (World h s c ls t)
  = create_checked list_role_assignments get_role (VRef (copy_loc h)) roles uid pid initiator
      (World (checked_heap h d) s c ls t).
Proof.
  intros Ha Hu Hp Hr. rewrite create_unfold.
  erewrite bind_ok by (eapply on_heap_run, py_copy_run; eauto).
  erewrite bind_ok by (eapply on_heap_run, py_getitem_run; [apply lookup_insert_eq|done]).
  erewrite bind_ok by (eapply on_heap_run, py_getitem_run; [apply lookup_insert_eq|done]).
  erewrite bind_ok by (eapply on_heap_run; reflexivity).
  erewrite bind_ok; [reflexivity|].
  eapply on_heap_run, py_pop_default_run; [|done].
  rewrite lookup_insert_ne; [apply lookup_insert_eq|].
  intros Heq. by apply (default_loc_ne h d).
Qed.

(** Up to the role check, without roles in the request. *)
Lemma create_prefix_no_roles h s c ls t a d uid pid initiator :
  h !! a = Some (ODict d) →
  d !! "user_id" = Some uid → d !! "project_id" = Some pid →
  d !! "roles" = None →
  create_application_credential list_role_assignments get_role (VRef a) initiator
    (World h s c ls t)
  = create_checked list_role_assignments get_role (VRef (copy_loc h))
      (VRef (default_loc h d)) uid pid initiator
      (World (checked_heap h d) s c ls t).
Proof.
  intros Ha Hu Hp Hr. rewrite create_unfold.
  erewrite bind_ok by (eapply on_heap_run, py_copy_run; eauto).
  erewrite bind_ok by (eapply on_heap_run, py_getitem_run; [apply lookup_insert_eq|done]).
  erewrite bind_ok by (eapply on_heap_run, py_getitem_run; [apply lookup_insert_eq|done]).
  erewrite bind_ok by (eapply on_heap_run; reflexivity).
  erewrite bind_ok; cycle 1.
  { eapply on_heap_run, py_pop_default_missing; [|done].
    rewrite lookup_insert_ne; [apply lookup_insert_eq|].
    intros Heq. by apply (default_loc_ne h d). }
  unfold checked_heap. rewrite delete_id by done.
  rewrite (insert_id (<[default_loc h d := OList []]> _)); [done|].
  rewrite lookup_insert_ne; [apply lookup_insert_eq|].
  intros Heq. by apply (default_loc_ne h d).
Qed.

(** C1.  A request for a role that the user does not hold on the project
    fails with [RoleAssignmentNotFound], which carries the id of a
    requested role that is not held, the user as actor and the project
    as target.  The only call made is the query for the assignments: the
    driver is not called, and its state is as before. *)
Theorem create_unmet_role_raises w a d uid pid rl rs al initiator :
  heap w !! a = Some (ODict d) →
  d !! "user_id" = Some uid → d !! "project_id" = Some pid →
  d !! "roles" = Some (VRef rl) →
  heap w !! rl = Some (OList rs) →
  (∀ r, r ∈ rs → is_Some (role_id_of (heap w) r)) →
  list_role_assignments uid pid true = Ok al →
  assignments_ok al →
  (∃ r rid, r ∈ rs ∧ role_id_of (heap w) r = Some rid ∧ ¬ holds_role al rid) →
  ∃ rid w',
    create_application_credential list_role_assignments get_role (VRef a) initiator w
    = (Raise (RoleAssignmentNotFound rid uid pid), w')
    ∧ (∃ r, r ∈ rs ∧ role_id_of (heap w) r = Some rid)
    ∧ ¬ holds_role al rid
    ∧ calls w' = calls w ++ [EvListRoleAssignments uid pid true]
    ∧ Forall (λ e, ¬ is_driver_create e) (drop (length (calls w)) (calls w'))
    ∧ driver_state w' = driver_state w.
Proof.
  destruct w as [h s c ls t]. simpl.
  intros Ha Hu Hp Hr Hrl Hwf Hal Hok (r0 & rid0 & Hin & Hrid0 & Hnot).
  pose proof (checked_heap_subseteq h d) as Hsub.
  destruct (require_run_raise list_role_assignments (checked_heap h d) s c ls t rl rs
              uid pid al Hal Hok) as (rid & (r & Hr' & Hrid) & Hunmet & Hrun).
  { by apply (lookup_weaken _ _ _ _ Hrl). }
  { intros z Hz. destruct (Hwf z Hz) as [x Hx]. exists x. by eapply role_id_of_mono. }
  { exists r0, rid0. split; [done|]. split; [by eapply role_id_of_mono|done]. }
  exists rid. eexists. split.
  { erewrite create_prefix_roles by eauto. unfold create_checked.
    erewrite bind_raise by exact Hrun. reflexivity. }
  assert (role_id_of h r = Some rid) as Hrid'.
  { destruct (Hwf r Hr') as [x Hx].
    rewrite <- Hrid. rewrite Hx. symmetry. by eapply role_id_of_mono. }
  split; [by exists r|]. split; [done|].
  unfold calls. simpl. rewrite fmap_app. simpl. split; [done|]. split; [|done].
  rewrite drop_app_length'; [|by rewrite length_fmap].
  constructor; [|constructor]. simpl. tauto.
Qed.

Lemma requested_roles_checked h d roles rs :
  requested_roles h d = Some (roles, rs) →
  ∃ rl, roles = VRef rl ∧ checked_heap h d !! rl = Some (OList rs).
Proof.
  unfold requested_roles. destruct (d !! "roles") as [[| | |rl]|] eqn:Hr; try done.
  - destruct (h !! rl) as [[|xs]|] eqn:Hrl; try done. intros [= <- <-].
    exists rl. split; [done|]. eapply lookup_weaken; [exact Hrl|apply checked_heap_subseteq].
  - intros [= <- <-]. exists (default_loc h d). split; [done|apply checked_heap_default].
Qed.

(** Up to the role check. *)
Lemma create_prefix h s c ls t a d uid pid roles rs initiator :
  h !! a = Some (ODict d) →
  d !! "user_id" = Some uid → d !! "project_id" = Some pid →
  requested_roles h d = Some (roles, rs) →
  create_application_credential list_role_assignments get_role (VRef a) initiator
    (World h s c ls t)
  = create_checked list_role_assignments get_role (VRef (copy_loc h)) roles uid pid initiator
      (World (checked_heap h d) s c ls t).
Proof.
  intros Ha Hu Hp. unfold requested_roles.
  destruct (d !! "roles") as [[| | |rl]|] eqn:Hr; try done.
  - destruct (h !! rl) as [[|xs]|] eqn:Hrl; try done. intros [= <- <-].
    by eapply create_prefix_roles.
  - intros [= <- <-]. by eapply create_prefix_no_roles.
Qed.

Lemma role_id_of_set_secret h r dr secret z x :
  h !! r = Some (ODict dr) →
  role_id_of h z = Some x →
  role_id_of (<[r := ODict (<["secret" := secret]> dr)]> h) z = Some x.
Proof.
  intros Hr (lz & dz & -> & Hlz & Hx)%role_id_of_Some. simpl.
  destruct (decide (r = lz)) as [->|Hne].
  - rewrite lookup_insert_eq. rewrite lookup_insert_ne by done. congruence.
  - rewrite lookup_insert_ne by done. by rewrite Hlz.
Qed.

(** After the driver has returned a record. *)
Lemma create_finish_run h s c ls t ac dac cid secret r dr rids robjs initiator :
  stored_record h r dr rids →
  roles_known get_role rids robjs →
  h !! ac = Some (ODict dac) → dac !! "id" = Some cid →
  ∃ h' t',
    create_finish get_role (VRef ac) secret (VRef r) initiator (World h s c ls t)
    = (Ok (VRef (fresh_loc h)), World h' s c ls t')
    ∧ projection_of h' (fresh_loc h) (<["secret" := secret]> dr) robjs
    ∧ (∀ l o, l ≠ r → h !! l = Some o → h' !! l = Some o)
    ∧ h' !! r = Some (ODict (<["secret" := secret]> dr))
    ∧ t'.*1 = t.*1 ++ (EvGetRole <$> rids) ++ [EvAuditCreated _APP_CRED cid initiator].
Proof.
  intros (Hr & [hsh Hsh] & rrl & rrs & Hroles & Hrrl & Hids) Hknown Hac Hcid.
  set (h3 := <[r := ODict (<["secret" := secret]> dr)]> h).
  assert (fresh_loc h3 = fresh_loc h) as Hfresh.
  { unfold fresh_loc, h3. f_equal. apply dom_insert_lookup_L. eauto. }
  assert (rrl ≠ r) as Hne by (intros ->; congruence).
  destruct (_process_app_cred_run get_role h3 s c ls t r (<["secret" := secret]> dr) hsh
              rrl rrs rids robjs)
    as (h4 & nl & vs & t' & Hrun & Hsub & Hp & Hnl & Hobjs & Ht'); [..|done|].
  { apply lookup_insert_eq. }
  { by rewrite lookup_insert_ne. }
  { by rewrite lookup_insert_ne. }
  { unfold h3. by rewrite lookup_insert_ne. }
  { eapply Forall2_impl; [|exact Hids]. intros z x. by apply role_id_of_set_secret. }
  rewrite Hfresh in *.
  exists h4, (t' ++ [(EvAuditCreated _APP_CRED cid initiator, h4)]).
  split; [|split; [|split; [|split]]].
  - unfold create_finish.
    erewrite bind_ok by (eapply on_heap_run, py_setitem_run; eauto).
    erewrite bind_ok by exact Hrun.
    assert (∃ dac', h4 !! ac = Some (ODict dac') ∧ dac' !! "id" = Some cid)
      as (dac' & Hac' & Hcid').
    { destruct (decide (ac = r)) as [->|Hacr].
      - exists (<["secret" := secret]> dr). split.
        + eapply lookup_weaken; [apply lookup_insert_eq|done].
        + rewrite lookup_insert_ne by done. congruence.
      - exists dac. split; [|done].
        eapply lookup_weaken; [|exact Hsub]. unfold h3. by rewrite lookup_insert_ne. }
    erewrite bind_ok by (eapply on_heap_run, py_getitem_run; eauto).
    erewrite bind_ok by reflexivity. done.
  - by exists nl, vs.
  - intros l o Hl Hlook. eapply lookup_weaken; [|exact Hsub].
    unfold h3. by rewrite lookup_insert_ne.
  - eapply lookup_weaken; [apply lookup_insert_eq|done].
  - rewrite fmap_app, Ht'. simpl. by rewrite <- app_assoc.
Qed.

(** A run of [create_application_credential] that succeeds. *)
Lemma create_run w a d uid pid secret cid roles rs al
    r h2 s2 dr dac rids robjs initiator :
  heap w !! a = Some (ODict d) →
  d !! "user_id" = Some uid → d !! "project_id" = Some pid →
  d !! "secret" = Some secret →
  requested_roles (heap w) d = Some (roles, rs) →
  list_role_assignments uid pid true = Ok al →
  assignments_ok al →
  (∀ r, r ∈ rs → ∃ rid, role_id_of (heap w) r = Some rid ∧ holds_role al rid) →
  driver_create_application_credential (VRef (copy_loc (heap w))) roles
    (checked_heap (heap w) d, driver_state w) = (Ok (VRef r), (h2, s2)) →
  stored_record h2 r dr rids →
  roles_known get_role rids robjs →
  h2 !! copy_loc (heap w) = Some (ODict dac) → dac !! "id" = Some cid →
  ∃ p w',
    create_application_credential list_role_assignments get_role (VRef a) initiator w
    = (Ok (VRef p), w')
    ∧ projection_of (heap w') p (<["secret" := secret]> dr) robjs
    ∧ driver_state w' = s2
    ∧ cache w' = cache w
    ∧ calls w' = calls w
        ++ [EvListRoleAssignments uid pid true;
            EvDriverCreate (VRef (copy_loc (heap w))) roles]
        ++ (EvGetRole <$> rids)
        ++ [EvAuditCreated _APP_CRED cid initiator].
Proof.
  destruct w as [h s c ls t]. simpl.
  intros Ha Hu Hp Hsecret Hreq Hal Hok Hheld Hdrv Hrec Hknown Hac Hcid.
  destruct (requested_roles_checked h d roles rs Hreq) as (rl & -> & Hrl).
  pose proof (checked_heap_subseteq h d) as Hsub.
  destruct (create_finish_run h2 s2 c ls
              ((t ++ [(EvListRoleAssignments uid pid true, checked_heap h d)])
                 ++ [(EvDriverCreate (VRef (copy_loc h)) (VRef rl), checked_heap h d)])
              (copy_loc h) dac cid secret r dr rids robjs initiator)
    as (h' & t' & Hrun & Hproj & _ & _ & Ht'); [done..|].
  exists (fresh_loc h2), (World h' s2 c ls t').
  split; [|split; [exact Hproj|split; [done|split; [done|]]]].
  - erewrite create_prefix by eauto. unfold create_checked.
    erewrite bind_ok; cycle 1.
    { eapply require_run_ok; eauto. intros z Hz.
      destruct (Hheld z Hz) as (rid & Hrid & Hh). exists rid. split; [|done].
      by eapply role_id_of_mono. }
    erewrite bind_ok; cycle 1.
    { eapply on_heap_run, py_getitem_run; [apply checked_heap_copy|].
      by rewrite lookup_delete_ne. }
    erewrite bind_ok; [exact Hrun|].
    unfold call_driver. simpl. by rewrite Hdrv.
  - unfold calls. simpl. rewrite Ht', !fmap_app. simpl. by rewrite <- !app_assoc.
Qed.


(** C3.  When the user holds every requested role and the driver stores
    the record, [create_application_credential] calls the driver with
    the copy of the request and the roles, and returns a projection of
    the record that the driver returned with the plaintext secret of the
    request attached to it, without [secret_hash], and with each role id
    replaced by the role; the last thing it does is to emit the
    "created" audit event for the id of the request. *)
Theorem create_returns_projection w a d uid pid secret cid roles rs al
    r h2 s2 dr dac rids robjs initiator :
  heap w !! a = Some (ODict d) →
  d !! "user_id" = Some uid → d !! "project_id" = Some pid →
  d !! "secret" = Some secret →
  requested_roles (heap w) d = Some (roles, rs) →
  list_role_assignments uid pid true = Ok al →
  assignments_ok al →
  (∀ r, r ∈ rs → ∃ rid, role_id_of (heap w) r = Some rid ∧ holds_role al rid) →
  driver_create_application_credential (VRef (copy_loc (heap w))) roles
    (checked_heap (heap w) d, driver_state w) = (Ok (VRef r), (h2, s2)) →
  stored_record h2 r dr rids →
  roles_known get_role rids robjs →
  h2 !! copy_loc (heap w) = Some (ODict dac) → dac !! "id" = Some cid →
  ∃ p w',
    create_application_credential list_role_assignments get_role (VRef a) initiator w
    = (Ok (VRef p), w')
    ∧ projection_of (heap w') p (<["secret" := secret]> dr) robjs
    ∧ driver_state w' = s2
    ∧ calls w' = calls w
        ++ [EvListRoleAssignments uid pid true;
            EvDriverCreate (VRef (copy_loc (heap w))) roles]
        ++ (EvGetRole <$> rids)
        ++ [EvAuditCreated _APP_CRED cid initiator].
Proof.
  intros Ha Hu Hp Hsecret Hreq Hal Hok Hheld Hdrv Hrec Hknown Hac Hcid.
  destruct (create_run w a d uid pid secret cid roles rs al r h2 s2 dr dac rids robjs
              initiator) as (p & w' & Hrun & Hproj & Hs & _ & Hcalls); try done.
  by exists p, w'.
Qed.

End create.

(** ** What a computation leaves as it was *)

Section frame.
Context {D Hints : Type} {driver : ApplicationCredentialDriverBase D Hints}.
Variable list_role_assignments : val → val → bool → result (list (gmap string val)).
Variable get_role : val → result (gmap string val).
Implicit Types (w : world D Hints) (h : gmap loc obj) (s : D) (v : val).

#[local] Abbreviation M := (SE (world D Hints)).

Lemma made_after_mono h0 h v : h0 ⊆ h → made_after h v → made_after h0 v.
Proof.
  intros Hsub Hv l ->. specialize (Hv l eq_refl).
  destruct (h0 !! l) as [o|] eqn:Hl; [|done].
  by rewrite (lookup_weaken _ _ _ _ Hl Hsub) in Hv.
Qed.

Lemma intact_insert h0 h l o :
  h0 ⊆ h → made_after h0 (VRef l) → h0 ⊆ <[l := o]> h.
Proof. intros Hsub Hl. apply insert_subseteq_r; [by apply Hl|done]. Qed.

Ltac heap_cases :=
  intros [h s c ls t] Hw; unfold intact in *; simpl in *;
  unfold on_heap, py_getitem, py_setitem, py_pop, py_pop_default, py_append, py_iter,
    deref; simpl;
  repeat case_match; simpl in *; simplify_eq; eauto using intact_insert.

Lemma intact_getitem h0 v k : keeps (intact h0) (on_heap (py_getitem v k) : M val).
Proof. heap_cases. Qed.

Lemma intact_iter h0 v : keeps (intact h0) (on_heap (py_iter v) : M (list val)).
Proof. heap_cases. Qed.

Lemma intact_setitem h0 v k x :
  made_after h0 v → keeps (intact h0) (on_heap (py_setitem v k x) : M unit).
Proof. intros Hv. heap_cases. Qed.

Lemma intact_pop h0 v k :
  made_after h0 v → keeps (intact h0) (on_heap (py_pop v k) : M val).
Proof. intros Hv. heap_cases. Qed.

Lemma intact_pop_default h0 v k dflt :
  made_after h0 v → keeps (intact h0) (on_heap (py_pop_default v k dflt) : M val).
Proof. intros Hv. heap_cases. Qed.

Lemma intact_append h0 v x :
  made_after h0 v → keeps (intact h0) (on_heap (py_append v x) : M unit).
Proof. intros Hv. heap_cases. Qed.

Lemma intact_alloc h0 o :
  yields (intact h0) (made_after h0) (on_heap (py_alloc o) : M val).
Proof.
  intros [h s c ls t] Hw. unfold intact in *. simpl in *. split.
  - etrans; [exact Hw|]. apply alloc_subseteq.
  - intros v [= <-]. eapply made_after_mono; [exact Hw|].
    intros l [= <-]. apply fresh_loc_None.
Qed.

Lemma intact_copy h0 v :
  yields (intact h0) (made_after h0) (on_heap (py_copy v) : M val).
Proof.
  intros [h s c ls t] Hw. unfold on_heap, py_copy. simpl.
  destruct (deref h v) as [[o|]|e] eqn:Hd; simpl; try done.
  apply (intact_alloc h0 o (World h s c ls t) Hw).
Qed.

Lemma intact_log h0 e : keeps (intact h0) (log e : M unit).
Proof. by intros [h s c ls t] Hw. Qed.

Lemma intact_call_api h0 e r : yields (intact h0) (made_after h0) (call_api e r : M val).
Proof.
  unfold call_api. apply keeps_bind; [apply intact_log|]. intros _.
  apply keeps_bind; [apply keeps_lift_result|]. intros d. apply intact_alloc.
Qed.

Lemma intact_call_driver_new h0 e (m : SE (gmap loc obj * D) val) :
  returns_new m → yields (intact h0) (made_after h0) (call_driver e m : M val).
Proof.
  intros Hm [h s c ls t] Hw. unfold intact in *. simpl in *.
  destruct (Hm h s) as [Hsub Hnew]. unfold call_driver. simpl.
  destruct (m (h, s)) as [r [h' s']]. simpl in *. split; [by etrans|].
  intros v ->. destruct (Hnew v eq_refl) as (l & -> & Hl).
  eapply made_after_mono; [exact Hw|]. by intros ? [= <-].
Qed.

Lemma intact_get_user_roles h0 uid pid :
  keeps (intact h0) (_get_user_roles list_role_assignments uid pid : M (list val)).
Proof.
  unfold _get_user_roles. apply keeps_bind; [apply intact_log|]. intros _.
  apply keeps_bind; [apply keeps_lift_result|]. intros al.
  apply keeps_bind; [|intros ?; apply keeps_lift_result].
  apply keeps_map_comp. intros x. apply keeps_lift_result.
Qed.

Lemma intact_require h0 roles uid pid :
  keeps (intact h0)
    (_require_user_has_role_in_project list_role_assignments roles uid pid : M unit).
Proof.
  unfold _require_user_has_role_in_project.
  apply keeps_bind; [apply intact_get_user_roles|]. intros ids.
  apply keeps_bind; [apply intact_iter|]. intros rs.
  apply keeps_for_each. intros role.
  apply keeps_bind.
  - apply keeps_filter_comp. intros x.
    apply keeps_bind; [apply intact_getitem|]. intros ?. apply keeps_ret.
  - intros [|? ?]; [|apply keeps_ret].
    apply keeps_bind; [apply intact_getitem|]. intros ?. apply yields_raise.
Qed.

Lemma intact_get_role_list h0 rs :
  yields (intact h0) (made_after h0) (_get_role_list get_role rs : M val).
Proof.
  unfold _get_role_list.
  eapply yields_bind; [apply intact_alloc|]. intros nl Hnl.
  apply keeps_bind; [apply intact_iter|]. intros xs.
  apply keeps_bind; [|intros _; by apply yields_ret].
  apply keeps_for_each. intros role.
  apply keeps_bind; [apply intact_getitem|]. intros rid.
  apply keeps_bind; [eapply yields_keeps, intact_call_api|]. intros r.
  by apply intact_append.
Qed.

(** [_process_app_cred] changes no object that was there before the
    call: it works on its copy. *)
Lemma intact_process_app_cred h0 ref :
  yields (intact h0) (made_after h0) (_process_app_cred get_role ref : M val).
Proof.
  unfold _process_app_cred.
  eapply yields_bind; [apply intact_copy|]. intros p Hp.
  apply keeps_bind; [by apply intact_pop|]. intros _.
  apply keeps_bind; [apply intact_getitem|]. intros rs.
  apply keeps_bind; [eapply yields_keeps, intact_get_role_list|]. intros nl.
  apply keeps_bind; [by apply intact_setitem|]. intros _. by apply yields_ret.
Qed.

Lemma intact_create h0 a initiator :
  (∀ ac roles, returns_new (driver_create_application_credential ac roles)) →
  keeps (intact h0)
    (create_application_credential list_role_assignments get_role a initiator : M val).
Proof.
  intros Hdrv. unfold create_application_credential.
  eapply yields_bind; [apply intact_copy|]. intros ac Hac.
  apply keeps_bind; [apply intact_getitem|]. intros uid.
  apply keeps_bind; [apply intact_getitem|]. intros pid.
  apply keeps_bind; [eapply yields_keeps, intact_alloc|]. intros dflt.
  apply keeps_bind; [by apply intact_pop_default|]. intros roles.
  apply keeps_bind; [apply intact_require|]. intros _.
  apply keeps_bind; [apply intact_getitem|]. intros secret.
  eapply yields_bind; [apply intact_call_driver_new, Hdrv|]. intros ref Href.
  apply keeps_bind; [by apply intact_setitem|]. intros _.
  apply keeps_bind; [eapply yields_keeps, intact_process_app_cred|]. intros p.
  apply keeps_bind; [apply intact_getitem|]. intros cid.
  apply keeps_bind; [apply intact_log|]. intros _. apply keeps_ret.
Qed.

Lemma call_driver_heap {A} e (m : SE (gmap loc obj * D) A) w :
  heap (call_driver e m w).2 = (m (heap w, driver_state w)).2.1.
Proof. unfold call_driver. by destruct (m _) as [r [h s]]. Qed.

(** C10.  [create_application_credential] leaves every object that the
    caller has as it was, and so the dict it is given, provided that the
    driver does so and returns a new record.  [_process_app_cred] leaves
    every object as it was, and so the record it is given; hence what
    the heap holds when the driver returns, and so the records it has
    returned, is left as it was by [get_application_credential] and by
    [list_application_credentials]. *)
Theorem create_and_projection_mutate_copies_only
    w new_Hints a initiator record application_credential_id user_id hints :
  (∀ ac roles, returns_new (driver_create_application_credential ac roles)) →
  heap w ⊆ heap (create_application_credential list_role_assignments get_role
                   a initiator w).2
  ∧ heap w ⊆ heap (_process_app_cred get_role record w).2
  ∧ (cache w !! memo_key "get_application_credential" [application_credential_id] = None →
     (driver_get_application_credential application_credential_id
        (heap w, driver_state w)).2.1
       ⊆ heap (get_application_credential get_role application_credential_id w).2)
  ∧ (driver_list_application_credentials_for_user user_id (default new_Hints hints)
       (heap w, driver_state w)).2.1
      ⊆ heap (list_application_credentials new_Hints get_role user_id hints w).2.
Proof.
  intros Hdrv. split; [|split; [|split]].
  - destruct (intact_create (heap w) a initiator Hdrv w) as [HI _]; [|exact HI].
    by unfold intact.
  - destruct (intact_process_app_cred (heap w) record w) as [HI _]; [|exact HI].
    by unfold intact.
  - intros Hmiss. unfold get_application_credential, MEMOIZE. rewrite Hmiss.
    set (h1 := (driver_get_application_credential _ _).2.1).
    pose proof (call_driver_heap (EvDriverGet application_credential_id)
                  (driver_get_application_credential application_credential_id) w) as Hh.
    unfold mbind, SE_bind.
    destruct (call_driver _ _ w) as [[ref|e] w1] eqn:Hcall; simpl in Hh.
    + pose proof (intact_process_app_cred h1 ref w1) as [Hp _].
      { unfold intact, h1. by rewrite Hh. }
      by destruct (_process_app_cred get_role ref w1) as [[p|e] w2].
    + simpl. unfold h1. by rewrite Hh.
  - unfold list_application_credentials.
    set (hs := default new_Hints hints).
    replace (match hints with Some h => h | None => new_Hints end) with hs
      by (by destruct hints).
    set (h1 := (driver_list_application_credentials_for_user _ _ _).2.1).
    pose proof (call_driver_heap (EvDriverList user_id hs)
                  (driver_list_application_credentials_for_user user_id hs) w) as Hh.
    unfold mbind at 1, SE_bind at 1.
    destruct (call_driver _ _ w) as [[l|e] w1] eqn:Hcall; simpl in Hh.
    + assert (keeps (intact h1)
                (app_cred_list ← on_heap (py_iter l);
                 map_comp (_process_app_cred get_role) app_cred_list : M (list val))) as Hk.
      { apply keeps_bind; [apply intact_iter|]. intros xs.
        apply keeps_map_comp. intros x. eapply yields_keeps, intact_process_app_cred. }
      destruct (Hk w1) as [HI _]; [|exact HI]. unfold intact, h1. by rewrite Hh.
    + simpl. unfold h1. by rewrite Hh.
Qed.

End frame.

(** ** The calls of a computation *)

Section calls.
Context {D Hints : Type} {driver : ApplicationCredentialDriverBase D Hints}.
Variable list_role_assignments : val → val → bool → result (list (gmap string val)).
Variable get_role : val → result (gmap string val).
Variable P : event Hints → Prop.
Implicit Types (w : world D Hints) (h : gmap loc obj) (s : D) (v : val).
Implicit Types (t : list (event Hints * gmap loc obj)).

#[local] Abbreviation M := (SE (world D Hints)).

Lemma only_calls_refl w : only_calls P (trace w) w.
Proof. exists []. by rewrite app_nil_r. Qed.

Lemma only_calls_on_heap {A} t (m : SE (gmap loc obj) A) : keeps (only_calls P t) (on_heap m : M A).
Proof.
  intros [h s c ls t'] Hw. unfold on_heap. simpl. by destruct (m h) as [r h'].
Qed.

Lemma only_calls_log t e : P e → keeps (only_calls P t) (log e : M unit).
Proof.
  intros He [h s c ls t'] (tl & Ht & Htl). simpl in *. split; [|done].
  exists (tl ++ [(e, h)]). simpl. split; [by rewrite Ht, app_assoc|].
  apply Forall_app. split; [done|]. by constructor.
Qed.

Lemma only_calls_call_api t e r : P e → keeps (only_calls P t) (call_api e r : M val).
Proof.
  intros He. unfold call_api. apply keeps_bind; [by apply only_calls_log|]. intros _.
  apply keeps_bind; [apply keeps_lift_result|]. intros d. apply only_calls_on_heap.
Qed.

Lemma only_calls_get_role_list t rs :
  (∀ rid, P (EvGetRole rid)) → keeps (only_calls P t) (_get_role_list get_role rs : M val).
Proof.
  intros HP. unfold _get_role_list.
  apply keeps_bind; [apply only_calls_on_heap|]. intros nl.
  apply keeps_bind; [apply only_calls_on_heap|]. intros xs.
  apply keeps_bind; [|intros _; apply keeps_ret].
  apply keeps_for_each. intros role.
  apply keeps_bind; [apply only_calls_on_heap|]. intros rid.
  apply keeps_bind; [by apply only_calls_call_api|]. intros r.
  apply only_calls_on_heap.
Qed.

Lemma only_calls_process_app_cred t ref :
  (∀ rid, P (EvGetRole rid)) →
  keeps (only_calls P t) (_process_app_cred get_role ref : M val).
Proof.
  intros HP. unfold _process_app_cred.
  apply keeps_bind; [apply only_calls_on_heap|]. intros p.
  apply keeps_bind; [apply only_calls_on_heap|]. intros _.
  apply keeps_bind; [apply only_calls_on_heap|]. intros rs.
  apply keeps_bind; [by apply only_calls_get_role_list|]. intros nl.
  apply keeps_bind; [apply only_calls_on_heap|]. intros _. apply keeps_ret.
Qed.

Lemma only_calls_create_finish t ac secret ref initiator :
  (∀ rid, P (EvGetRole rid)) →
  (∀ rt cid, P (EvAuditCreated rt cid initiator)) →
  keeps (only_calls P t) (create_finish get_role ac secret ref initiator : M val).
Proof.
  intros HP HA. unfold create_finish.
  apply keeps_bind; [apply only_calls_on_heap|]. intros _.
  apply keeps_bind; [by apply only_calls_process_app_cred|]. intros p.
  apply keeps_bind; [apply only_calls_on_heap|]. intros cid.
  apply keeps_bind; [by apply only_calls_log|]. intros _. apply keeps_ret.
Qed.

End calls.

Section create_without_roles.
Context {D Hints : Type} {driver : ApplicationCredentialDriverBase D Hints}.
Variable list_role_assignments : val → val → bool → result (list (gmap string val)).
Variable get_role : val → result (gmap string val).

(** C9.  A request without ['roles'], or with an empty list of roles,
    passes the role check for any user and project, whatever the
    assignments of the user are: the driver is called to create the
    record, with an empty list of roles.  The assignments are listed
    all the same, once, before that, and not again. *)
Theorem create_without_roles (w : world D Hints) a d uid pid secret roles al initiator :
  heap w !! a = Some (ODict d) →
  d !! "user_id" = Some uid → d !! "project_id" = Some pid →
  d !! "secret" = Some secret →
  requested_roles (heap w) d = Some (roles, []) →
  list_role_assignments uid pid true = Ok al →
  assignments_ok al →
  ∃ rl tl,
    roles = VRef rl
    ∧ checked_heap (heap w) d !! rl = Some (OList [])
    ∧ trace (create_application_credential list_role_assignments get_role
               (VRef a) initiator w).2
      = trace w
          ++ [(EvListRoleAssignments uid pid true, checked_heap (heap w) d);
              (EvDriverCreate (VRef (copy_loc (heap w))) (VRef rl),
               checked_heap (heap w) d)]
          ++ tl
    ∧ Forall (λ e, ¬ is_list_role_assignments e.1) tl.
Proof.
  destruct w as [h s c ls t]. simpl. intros Ha Hu Hp Hsecret Hreq Hal Hok.
  destruct (requested_roles_checked h d roles [] Hreq) as (rl & -> & Hrl).
  exists rl. erewrite create_prefix by eauto. unfold create_checked.
  erewrite bind_ok; cycle 1.
  { eapply require_run_ok; eauto. intros z Hz. by apply not_elem_of_nil in Hz. }
  erewrite bind_ok; cycle 1.
  { eapply on_heap_run, py_getitem_run; [apply checked_heap_copy|].
    by rewrite lookup_delete_ne. }
  unfold mbind, SE_bind, call_driver. simpl.
  destruct (driver_create_application_credential _ _ _) as [[ref|e] [h2 s2]].
  - match goal with |- context [create_finish _ ?ac ?sec ?r ?i ?w1] =>
      destruct (only_calls_create_finish (D := D) get_role
                  (λ e, ¬ is_list_role_assignments e) (trace w1) ac sec r i
                  (λ _, id) (λ _ _, id) w1 (only_calls_refl _ w1))
        as [(tl & Htl & Hall) _]
    end.
    exists tl. split; [done|]. split; [done|]. split; [|done].
    rewrite Htl. simpl. by rewrite <- !app_assoc.
  - exists []. split; [done|]. split; [done|]. split; [|constructor].
    simpl. by rewrite <- !app_assoc.
Qed.

End create_without_roles.

(** ** Deletion *)

Section delete.
Context {D Hints : Type} {driver : ApplicationCredentialDriverBase D Hints}.
Implicit Types (w : world D Hints).

(** The order of the calls of [delete_application_credential]: the call
    to [invalidate], then the driver; the audit event comes last, and
    only when the driver has not raised. *)
Lemma delete_calls w application_credential_id initiator :
  let r := driver_delete_application_credential application_credential_id
             (heap w, driver_state w) in
  let w' := (delete_application_credential application_credential_id initiator w).2 in
  (delete_application_credential application_credential_id initiator w).1 = r.1
  ∧ calls w' = calls w
      ++ [EvCacheInvalidate "get_application_credential" [];
          EvDriverDelete application_credential_id]
      ++ (if is_ok r.1
          then [EvAuditDeleted _APP_CRED (VStr application_credential_id) initiator]
          else []).
Proof.
  destruct w as [h s c ls t]. unfold delete_application_credential, calls.
  unfold mbind, SE_bind, invalidate, call_driver, Audit_deleted, log. simpl.
  destruct (driver_delete_application_credential _ _) as [[[]|e] [h' s']]; simpl;
    rewrite !fmap_app; simpl; by rewrite <- !app_assoc.
Qed.

Lemma memo_key_nil_ne fn (arg : string) : arg ≠ "" → memo_key fn [] ≠ memo_key fn [arg].
Proof.
  intros Harg. unfold memo_key. simpl. intros Heq.
  apply (inj (String.app fn)), (inj (String.app "|")) in Heq. by symmetry in Heq.
Qed.

(** What [delete_application_credential] does to the cache: the entry of
    the credential stays. *)
Lemma delete_keeps_cache_entry w application_credential_id initiator :
  application_credential_id ≠ "" →
  cache (delete_application_credential application_credential_id initiator w).2
    !! memo_key "get_application_credential" [application_credential_id]
  = cache w !! memo_key "get_application_credential" [application_credential_id].
Proof.
  intros Hid. destruct w as [h s c ls t]. unfold delete_application_credential.
  unfold mbind, SE_bind, invalidate, call_driver, Audit_deleted, log. simpl.
  destruct (driver_delete_application_credential _ _) as [[[]|e] [h' s']]; simpl;
    by rewrite lookup_delete_ne by by apply memo_key_nil_ne.
Qed.

End delete.

(** C2.  In the small deployment, with [c1] created and cached by a
    read: [delete_application_credential] calls [invalidate], then the
    driver, then emits the audit event, and the driver has no record of
    [c1] afterwards; but the call to [invalidate] names no credential,
    the entry of [c1] is still in the cache, and a read of [c1] after
    the deletion returns the cached projection. *)
Theorem delete_leaves_cached_credential :
  let w := (demo_delete "c1" VNone demo_cached).2 in
  (demo_delete "c1" VNone demo_cached).1 = Ok ()
  ∧ drop (length (calls demo_cached)) (calls w)
    = [EvCacheInvalidate "get_application_credential" []; EvDriverDelete "c1";
       EvAuditDeleted _APP_CRED (VStr "c1") VNone]
  ∧ driver_state w !! "c1" = None
  ∧ is_Some (cache demo_cached !! memo_key "get_application_credential" ["c1"])
  ∧ cache w !! memo_key "get_application_credential" ["c1"]
    = cache demo_cached !! memo_key "get_application_credential" ["c1"]
  ∧ is_ok (demo_get "c1" w).1 = true
  ∧ (demo_get "c1" w).1 = (demo_get "c1" demo_cached).1.
Proof. vm_compute. repeat split; eauto. Qed.

(** ** Cascading deletes *)

Section cascade.
Context {D Hints : Type} {driver : ApplicationCredentialDriverBase D Hints}.
Variable INVALIDATE_USER_PROJECT_TOKEN_PERSISTENCE : string.
Implicit Types (h : gmap loc obj) (s : D) (c : gmap string val).
Implicit Types (t : list (event Hints * gmap loc obj)).

#[local] Abbreviation registered :=
  [(deleted, "user", on_user_delete); (disabled, "user", on_user_delete);
   (internal, INVALIDATE_USER_PROJECT_TOKEN_PERSISTENCE, on_assignment_removal)].

Lemma Manager_init_listeners h s c t :
  Manager_init INVALIDATE_USER_PROJECT_TOKEN_PERSISTENCE (World h s c [] t)
  = (Ok (), World h s c registered t).
Proof. reflexivity. Qed.

Lemma for_each_singleton {S A} (body : A → SE S unit) x (st : S) :
  for_each body [x] st = body x st.
Proof.
  simpl. unfold mbind, SE_bind, mret, SE_ret. by destruct (body x st) as [[[]|e] st'].
Qed.

(** A user event reaches the driver as one bulk delete for the user. *)
Lemma notify_user_event h s c t service op p dp uid :
  op = deleted ∨ op = disabled →
  h !! p = Some (ODict dp) → dp !! "resource_info" = Some uid →
  notify_event_callbacks service "user" op (VRef p) (World h s c registered t)
  = call_driver (EvDriverDeleteForUser uid)
      (driver_delete_application_credentials_for_user uid) (World h s c registered t).
Proof.
  intros Hop Hp Hinfo. unfold notify_event_callbacks. simpl.
  assert ((filter (λ l : action * string * callback, l.1.1 = op ∧ l.1.2 = "user")
             registered).*2 = [on_user_delete]) as ->.
  { rewrite !filter_cons, filter_nil. simpl.
    destruct Hop as [-> | ->];
      by repeat (first [rewrite decide_True by done
                       |rewrite decide_False by (by intros [? ?])]). }
  rewrite for_each_singleton. simpl.
  unfold _delete_app_creds_on_user_delete_callback.
  erewrite bind_ok by (eapply on_heap_run, py_getitem_run; eauto). done.
Qed.

(** An assignment event reaches the driver as one bulk delete for the
    user and the project. *)
Lemma notify_assignment_event h s c t service p dp i di uid pid :
  h !! p = Some (ODict dp) → dp !! "resource_info" = Some (VRef i) →
  h !! i = Some (ODict di) →
  di !! "user_id" = Some uid → di !! "project_id" = Some pid →
  notify_event_callbacks service INVALIDATE_USER_PROJECT_TOKEN_PERSISTENCE internal
    (VRef p) (World h s c registered t)
  = call_driver (EvDriverDeleteForUserOnProject uid pid)
      (driver_delete_application_credentials_for_user_on_project uid pid)
      (World h s c registered t).
Proof.
  intros Hp Hinfo Hi Hu Hpr. unfold notify_event_callbacks. simpl.
  assert ((filter (λ l : action * string * callback,
                     l.1.1 = internal ∧ l.1.2 = INVALIDATE_USER_PROJECT_TOKEN_PERSISTENCE)
             registered).*2 = [on_assignment_removal]) as ->.
  { rewrite !filter_cons, filter_nil. simpl.
    by repeat (first [rewrite decide_True by done
                     |rewrite decide_False by (by intros [? ?])]). }
  rewrite for_each_singleton. simpl.
  unfold _delete_app_creds_on_assignment_removal.
  erewrite bind_ok by (eapply on_heap_run, py_getitem_run; eauto).
  erewrite bind_ok by (eapply on_heap_run, py_getitem_run; eauto).
  erewrite bind_ok by (eapply on_heap_run, py_getitem_run; eauto).
  erewrite bind_ok by (eapply on_heap_run, py_getitem_run; eauto). done.
Qed.

End cascade.

(** ** The reference driver *)

Section reference.
Context {Hints : Type}.
Variable hash_secret : string → string.
Variable satisfies : Hints → gmap string val → bool.
Implicit Types (h : gmap loc obj) (store : gmap string stored).

Lemma in_heap_run {A} (m : SE (gmap loc obj) A) h store r h' :
  m h = (r, h') → in_heap m (h, store) = (r, (h', store)).
Proof. intros H. unfold in_heap. simpl. by rewrite H. Qed.

Lemma getitem_role_ids h rs rids :
  role_ids h rs rids →
  map_comp (λ role, py_getitem role "id") rs h = (Ok rids, h).
Proof.
  induction 1 as [|r rid rs rids Hr _ IH]; [done|].
  apply role_id_of_Some in Hr as (l & d & -> & Hl & Hid).
  simpl. erewrite bind_ok by (eapply py_getitem_run; eauto).
  erewrite bind_ok by exact IH. done.
Qed.

Lemma alloc_role_refs_run rids : ∀ h,
  ∃ h' refs,
    map_comp (λ role_id, py_alloc (ODict {[ "id" := role_id ]})) rids h = (Ok refs, h')
    ∧ h ⊆ h' ∧ role_ids h' refs rids.
Proof.
  induction rids as [|rid rids IH]; intros h.
  { exists h, []. split; [done|]. split; [done|constructor]. }
  set (l := fresh_loc h). set (h1 := <[l := ODict {[ "id" := rid ]}]> h).
  destruct (IH h1) as (h' & refs & Hrun & Hsub & Hids).
  exists h', (VRef l :: refs). split; [|split].
  - simpl. erewrite bind_ok by reflexivity. erewrite bind_ok by exact Hrun. done.
  - etrans; [apply alloc_subseteq|exact Hsub].
  - constructor; [|done]. simpl.
    rewrite (lookup_weaken h1 h' l (ODict {[ "id" := rid ]})); [|apply lookup_insert_eq|done].
    apply lookup_singleton_eq.
Qed.

Lemma to_dict_run (r : stored) h :
  ∃ h' p rrl refs,
    to_dict r h = (Ok (VRef p), h')
    ∧ h ⊆ h' ∧ h !! p = None
    ∧ h' !! p = Some (ODict (<["roles" := VRef rrl]> (stored_fields r)))
    ∧ h' !! rrl = Some (OList refs)
    ∧ role_ids h' refs (stored_roles r).
Proof.
  destruct (alloc_role_refs_run (stored_roles r) h) as (h1 & refs & Hrun & Hsub & Hids).
  set (rrl := fresh_loc h1). set (h2 := <[rrl := OList refs]> h1).
  set (p := fresh_loc h2).
  exists (<[p := ODict (<["roles" := VRef rrl]> (stored_fields r))]> h2), p, rrl, refs.
  assert (h1 ⊆ h2) as Hsub2 by apply alloc_subseteq.
  assert (h2 ⊆ <[p := ODict (<["roles" := VRef rrl]> (stored_fields r))]> h2) as Hsub3
    by apply alloc_subseteq.
  split; [|split; [|split; [|split; [|split]]]].
  - unfold to_dict. erewrite bind_ok by exact Hrun. erewrite bind_ok by reflexivity. done.
  - etrans; [exact Hsub|]. by etrans.
  - destruct (h !! p) as [o|] eqn:Hp; [|done].
    assert (h2 !! p = Some o) as Hp2.
    { eapply lookup_weaken; [exact Hp|]. by etrans. }
    unfold p in Hp2. by rewrite fresh_loc_None in Hp2.
  - apply lookup_insert_eq.
  - eapply lookup_weaken; [apply lookup_insert_eq|done].
  - eapply Forall2_impl; [|exact Hids]. intros z x Hz.
    eapply role_id_of_mono; [|exact Hz]. by etrans.
Qed.

(** What [create] stores, and the record that it returns. *)
Lemma ref_create_run h store ac dac cid sec rl rs rids :
  h !! ac = Some (ODict dac) →
  dac !! "id" = Some (VStr cid) → dac !! "secret" = Some (VStr sec) →
  h !! rl = Some (OList rs) →
  role_ids h rs rids →
  let fields := <["secret_hash" := VStr (hash_secret sec)]> (delete "secret" dac) in
  ∃ h' r rrl,
    ref_create_application_credential hash_secret (VRef ac) (VRef rl) (h, store)
    = (Ok (VRef r), (h', <[cid := Stored fields rids]> store))
    ∧ h ⊆ h' ∧ h !! r = None
    ∧ stored_record h' r (<["roles" := VRef rrl]> fields) rids.
Proof.
  intros Hac Hid Hsec Hrl Hids fields.
  destruct (to_dict_run (Stored fields rids) h)
    as (h' & r & rrl & refs & Hrun & Hsub & Hfresh & Hr & Hrrl & Hrefs).
  exists h', r, rrl. split; [|split; [done|split; [done|]]].
  - unfold ref_create_application_credential.
    erewrite bind_ok; cycle 1.
    { erewrite bind_ok by (eapply in_heap_run, py_getitem_run; eauto). reflexivity. }
    erewrite bind_ok; cycle 1.
    { erewrite bind_ok by (eapply in_heap_run, py_getitem_run; eauto). reflexivity. }
    erewrite bind_ok; cycle 1.
    { erewrite bind_ok; cycle 1.
      { simpl. by rewrite Hac. }
      reflexivity. }
    erewrite bind_ok by (eapply in_heap_run, py_iter_run; eauto).
    erewrite bind_ok by (eapply in_heap_run, getitem_role_ids; eauto).
    erewrite bind_ok by reflexivity.
    erewrite bind_ok by reflexivity.
    by eapply in_heap_run.
  - split; [exact Hr|]. split.
    + exists (VStr (hash_secret sec)). rewrite lookup_insert_ne by done.
      apply lookup_insert_eq.
    + exists rrl, refs. split; [apply lookup_insert_eq|done].
Qed.

Lemma ref_get_run h store cid (r : stored) hsh :
  store !! cid = Some r →
  stored_fields r !! "secret_hash" = Some hsh →
  ∃ h' p rrl,
    ref_get_application_credential cid (h, store) = (Ok (VRef p), (h', store))
    ∧ h ⊆ h' ∧ h !! p = None
    ∧ stored_record h' p (<["roles" := VRef rrl]> (stored_fields r)) (stored_roles r).
Proof.
  intros Hcid Hhsh.
  destruct (to_dict_run r h) as (h' & p & rrl & refs & Hrun & Hsub & Hfresh & Hp & Hrrl & Hrefs).
  exists h', p, rrl. split; [|split; [done|split; [done|]]].
  - unfold ref_get_application_credential. erewrite bind_ok by reflexivity.
    simpl. rewrite Hcid. by eapply in_heap_run.
  - split; [exact Hp|]. split.
    + exists hsh. by rewrite lookup_insert_ne.
    + exists rrl, refs. split; [apply lookup_insert_eq|done].
Qed.

(** The bulk deletes remove the records of the user, or of the user on
    the project, and no other. *)
Lemma ref_delete_for_user_run h store uid :
  ref_delete_application_credentials_for_user uid (h, store)
  = (Ok (), (h, filter (λ kr, ¬ owned_by uid kr.2) store)).
Proof. reflexivity. Qed.

Lemma ref_delete_for_user_on_project_run h store uid pid :
  ref_delete_application_credentials_for_user_on_project uid pid (h, store)
  = (Ok (), (h, filter (λ kr, ¬ (owned_by uid kr.2 ∧ scoped_to pid kr.2)) store)).
Proof. reflexivity. Qed.

Lemma getitem_heap v k h : (py_getitem v k h).2 = h.
Proof. unfold py_getitem. by repeat case_match. Qed.

Lemma iter_heap v h : (py_iter v h).2 = h.
Proof. unfold py_iter. by repeat case_match. Qed.

Lemma keeps_in_heap_read {D A} (I : gmap loc obj * D → Prop) (m : SE (gmap loc obj) A) :
  (∀ h, (m h).2 = h) → keeps I (in_heap m).
Proof.
  intros Hm [h s] Hs. unfold in_heap. simpl. specialize (Hm h).
  destruct (m h) as [r h']. simpl in *. by subst.
Qed.

Lemma map_comp_heap {A B} (f : A → SE (gmap loc obj) B) xs h :
  (∀ x h, (f x h).2 = h) → (map_comp f xs h).2 = h.
Proof.
  intros Hf. induction xs as [|x xs IH]; [done|]. simpl. unfold mbind, SE_bind.
  specialize (Hf x h). destruct (f x h) as [[y|e] h1]; simpl in *; subst; [|done].
  destruct (map_comp f xs h) as [[ys|e] h2]; simpl in *; by subst.
Qed.

(** [create] leaves the objects of the heap as they are, and the record
    that it returns is new. *)
Lemma ref_create_returns_new ac roles :
  returns_new (ref_create_application_credential hash_secret ac roles).
Proof.
  intros h store.
  assert (yields (λ st : gmap loc obj * gmap string stored, h ⊆ st.1)
            (λ v, ∃ l, v = VRef l ∧ h !! l = None)
            (ref_create_application_credential hash_secret ac roles)) as Hy.
  { unfold ref_create_application_credential.
    apply keeps_bind.
    { apply keeps_bind; [apply keeps_in_heap_read, getitem_heap|].
      intros [| | |]; by intros st Hst. }
    intros cid. apply keeps_bind.
    { apply keeps_bind; [apply keeps_in_heap_read, getitem_heap|].
      intros [| | |]; by intros st Hst. }
    intros sec. apply keeps_bind.
    { apply keeps_bind; [by intros st Hst|]. intros [[|]|]; by intros st Hst. }
    intros fields. apply keeps_bind; [apply keeps_in_heap_read, iter_heap|].
    intros rs. apply keeps_bind.
    { apply keeps_in_heap_read. intros h0. apply map_comp_heap. intros. apply getitem_heap. }
    intros rids. apply keeps_bind; [by intros st Hst|].
    intros st0. apply keeps_bind; [by intros st Hst|]. intros _.
    intros [h1 s1] Hsub. simpl in Hsub.
    destruct (to_dict_run (Stored (<["secret_hash" := VStr (hash_secret sec)]>
                                     (delete "secret" fields)) rids) h1)
      as (h' & p & rrl & refs & Hrun & Hsub' & Hfresh & _).
    erewrite in_heap_run by exact Hrun. simpl. split; [by etrans|].
    intros v [= <-]. exists p. split; [done|].
    destruct (h !! p) as [o|] eqn:Hp; [|done].
    by rewrite (lookup_weaken _ _ _ _ Hp Hsub) in Hfresh. }
  destruct (Hy (h, store)) as [Hsub Hnew]; [done|]. split; [exact Hsub|exact Hnew].
Qed.

End reference.

(** ** Reading a credential *)

Section get.
Context {D Hints : Type} {driver : ApplicationCredentialDriverBase D Hints}.
Variable get_role : val → result (gmap string val).
Implicit Types (w : world D Hints).

(** A read that is not served from the cache. *)
Lemma get_run w cid r h1 s1 dr rids robjs :
  cache w !! memo_key "get_application_credential" [cid] = None →
  driver_get_application_credential cid (heap w, driver_state w) = (Ok (VRef r), (h1, s1)) →
  stored_record h1 r dr rids →
  roles_known get_role rids robjs →
  ∃ p w',
    get_application_credential get_role cid w = (Ok (VRef p), w')
    ∧ projection_of (heap w') p dr robjs
    ∧ driver_state w' = s1
    ∧ cache w' = <[memo_key "get_application_credential" [cid] := VRef p]> (cache w)
    ∧ calls w' = calls w ++ [EvDriverGet cid] ++ (EvGetRole <$> rids).
Proof.
  destruct w as [h s c ls t]. simpl.
  intros Hmiss Hdrv (Hr & [hsh Hsh] & rrl & rrs & Hroles & Hrrl & Hids) Hknown.
  destruct (_process_app_cred_run get_role h1 s1 c ls (t ++ [(EvDriverGet cid, h)])
              r dr hsh rrl rrs rids robjs)
    as (h' & nl & vs & t' & Hrun & Hsub & Hp & Hnl & Hobjs & Ht'); [done..|].
  exists (fresh_loc h1). eexists. split.
  - unfold get_application_credential, MEMOIZE. simpl. rewrite Hmiss.
    erewrite bind_ok; cycle 1.
    { unfold call_driver. simpl. by rewrite Hdrv. }
    rewrite Hrun. reflexivity.
  - simpl. split; [by exists nl, vs|]. split; [done|]. split; [done|].
    unfold calls. simpl. rewrite Ht', fmap_app. simpl. by rewrite <- app_assoc.
Qed.

(** A read that is served from the cache changes nothing. *)
Lemma get_cached w cid v :
  cache w !! memo_key "get_application_credential" [cid] = Some v →
  get_application_credential get_role cid w = (Ok v, w).
Proof. intros Hhit. unfold get_application_credential, MEMOIZE. by rewrite Hhit. Qed.

End get.

Section round_trip.
Context {Hints : Type}.
Variable hash_secret : string → string.
Variable satisfies : Hints → gmap string val → bool.
Variable list_role_assignments : val → val → bool → result (list (gmap string val)).
Variable get_role : val → result (gmap string val).

#[local] Instance the_driver : ApplicationCredentialDriverBase (gmap string stored) Hints :=
  reference_driver hash_secret satisfies.

(** C4.  With the reference driver: a credential that was created, and
    that is new in that nothing is cached under its id, is then read
    back as a projection with the user and the project of the request
    and with the roles of the request, each in full as the role API has
    it; the projection has neither a [secret_hash] nor a [secret]. *)
Theorem create_then_get (w : world (gmap string stored) Hints)
    a d uid pid sec cid roles rs rids robjs al initiator :
  heap w !! a = Some (ODict d) →
  d !! "user_id" = Some uid → d !! "project_id" = Some pid →
  d !! "secret" = Some (VStr sec) → d !! "id" = Some (VStr cid) →
  requested_roles (heap w) d = Some (roles, rs) →
  role_ids (heap w) rs rids →
  list_role_assignments uid pid true = Ok al →
  assignments_ok al →
  (∀ rid, rid ∈ rids → holds_role al rid) →
  roles_known get_role rids robjs →
  cache w !! memo_key "get_application_credential" [cid] = None →
  ∃ p w1 p' w2 dp nl vs,
    create_application_credential list_role_assignments get_role (VRef a) initiator w
    = (Ok (VRef p), w1)
    ∧ get_application_credential get_role cid w1 = (Ok (VRef p'), w2)
    ∧ heap w2 !! p' = Some (ODict dp)
    ∧ dp !! "user_id" = Some uid
    ∧ dp !! "project_id" = Some pid
    ∧ dp !! "roles" = Some (VRef nl)
    ∧ heap w2 !! nl = Some (OList vs)
    ∧ role_objects (heap w2) vs robjs
    ∧ dp !! "secret_hash" = None
    ∧ dp !! "secret" = None.
Proof.
  intros Ha Hu Hp Hsec Hcid Hreq Hids Hal Hok Hheld Hknown Hmiss.
  destruct (requested_roles_checked (heap w) d roles rs Hreq) as (rl & -> & Hrl).
  pose proof (checked_heap_subseteq (heap w) d) as Hsub.
  pose proof (checked_heap_copy (heap w) d) as Hcopy.
  destruct (ref_create_run hash_secret (checked_heap (heap w) d) (driver_state w)
              (copy_loc (heap w)) (delete "roles" d) cid sec rl rs rids)
    as (h2 & r & rrl & Hcreate & Hsub2 & Hfresh & Hrec); [done| | |done| |].
  { by rewrite lookup_delete_ne. }
  { by rewrite lookup_delete_ne. }
  { eapply Forall2_impl; [|exact Hids]. intros z x. by apply role_id_of_mono. }
  set (fields := <["secret_hash" := VStr (hash_secret sec)]>
                   (delete "secret" (delete "roles" d))) in *.
  destruct (create_run list_role_assignments get_role w a d uid pid (VStr sec) (VStr cid)
              (VRef rl) rs al r h2 (<[cid := Stored fields rids]> (driver_state w))
              (<["roles" := VRef rrl]> fields) (delete "roles" d) rids robjs initiator)
    as (p & w1 & Hrun & _ & Hstate & Hcache & _); try done.
  { intros z Hz. apply list_elem_of_lookup in Hz as [i Hi].
    destruct (Forall2_lookup_l _ _ _ _ _ Hids Hi) as (rid & Hrid & Hz).
    exists rid. split; [done|]. apply Hheld. by eapply list_elem_of_lookup_2. }
  { by eapply lookup_weaken. }
  { by rewrite lookup_delete_ne. }
  destruct (ref_get_run (heap w1) (driver_state w1) cid (Stored fields rids)
              (VStr (hash_secret sec)))
    as (h3 & r' & rrl' & Hget & _ & _ & Hrec').
  { rewrite Hstate. apply lookup_insert_eq. }
  { apply lookup_insert_eq. }
  destruct (get_run get_role w1 cid r' h3 (driver_state w1)
              (<["roles" := VRef rrl']> fields) rids robjs)
    as (p' & w2 & Hrun' & (nl & vs & Hp' & Hnl & Hobjs) & _); try done.
  { by rewrite Hcache. }
  exists p, w1, p', w2. eexists. exists nl, vs.
  split; [exact Hrun|]. split; [exact Hrun'|]. split; [exact Hp'|].
  unfold fields. repeat split; try done; by simplify_map_eq.
Qed.

End round_trip.

(** ** Cascading deletes, end to end *)

Section events.
Context {D Hints : Type} {driver : ApplicationCredentialDriverBase D Hints}.

(** C5.  With the listeners that the manager registers when it is
    constructed: a "deleted" or "disabled" event for a user, with the id
    of the user in its payload, makes one call to the driver, the bulk
    delete for that user; an event for the removal of an assignment,
    with a user and a project in its payload, makes one call to the
    driver, the bulk delete for that user on that project.  In the
    reference driver the first removes the records that the user owns
    and no other, and the second the records that the user owns on the
    project and no other. *)
Theorem events_reach_the_driver INVALIDATE_USER_PROJECT_TOKEN_PERSISTENCE
    service op h (s : D) c (t : list (event Hints * gmap loc obj))
    p dp uid p' dp' i di uid' pid' (store : gmap string stored) :
  op = deleted ∨ op = disabled →
  h !! p = Some (ODict dp) → dp !! "resource_info" = Some uid →
  h !! p' = Some (ODict dp') → dp' !! "resource_info" = Some (VRef i) →
  h !! i = Some (ODict di) →
  di !! "user_id" = Some uid' → di !! "project_id" = Some pid' →
  let w := (Manager_init INVALIDATE_USER_PROJECT_TOKEN_PERSISTENCE (World h s c [] t)).2 in
  notify_event_callbacks service "user" op (VRef p) w
  = call_driver (EvDriverDeleteForUser uid)
      (driver_delete_application_credentials_for_user uid) w
  ∧ notify_event_callbacks service INVALIDATE_USER_PROJECT_TOKEN_PERSISTENCE internal
      (VRef p') w
    = call_driver (EvDriverDeleteForUserOnProject uid' pid')
        (driver_delete_application_credentials_for_user_on_project uid' pid') w
  ∧ (∃ store',
       ref_delete_application_credentials_for_user uid (h, store) = (Ok (), (h, store'))
       ∧ ∀ k r, store' !! k = Some r ↔ store !! k = Some r ∧ ¬ owned_by uid r)
  ∧ (∃ store',
       ref_delete_application_credentials_for_user_on_project uid' pid' (h, store)
       = (Ok (), (h, store'))
       ∧ ∀ k r, store' !! k = Some r
                ↔ store !! k = Some r ∧ ¬ (owned_by uid' r ∧ scoped_to pid' r)).
Proof.
  intros Hop Hp Hinfo Hp' Hinfo' Hi Hu Hpr w. unfold w. rewrite Manager_init_listeners.
  simpl. split; [by eapply notify_user_event|].
  split; [by eapply notify_assignment_event|]. split.
  - eexists. split; [apply ref_delete_for_user_run|].
    intros k r. rewrite map_lookup_filter_Some. simpl. tauto.
  - eexists. split; [apply ref_delete_for_user_on_project_run|].
    intros k r. rewrite map_lookup_filter_Some. simpl. tauto.
Qed.

End events.

(** ** External authentication *)

Section lower.
Import External.

Lemma nat_of_lower_ascii c :
  nat_of_ascii (lower_ascii c)
  = if ((65 <=? nat_of_ascii c) && (nat_of_ascii c <=? 90))%nat
    then nat_of_ascii c + 32 else nat_of_ascii c.
Proof.
  unfold lower_ascii. pose proof (nat_ascii_bounded c) as Hb.
  destruct (65 <=? nat_of_ascii c)%nat eqn:H1; simpl; [|done].
  destruct (nat_of_ascii c <=? 90)%nat eqn:H2; simpl; [|done].
  apply Nat.leb_le in H2. apply nat_ascii_embedding. lia.
Qed.

Lemma lower_ascii_same_letter c c' :
  lower_ascii c' = c' → (lower_ascii c = c' ↔ same_letter c c' = true).
Proof.
  intros Hc'.
  assert (nat_of_ascii (lower_ascii c') = nat_of_ascii c') as Hn' by (by rewrite Hc').
  assert (lower_ascii c = c' ↔ nat_of_ascii (lower_ascii c) = nat_of_ascii c') as ->.
  { split; [by intros ->|]. intros H.
    by rewrite <- (ascii_nat_embedding (lower_ascii c)), H, ascii_nat_embedding. }
  rewrite nat_of_lower_ascii in *. unfold same_letter.
  destruct (Nat.leb_spec 65 (nat_of_ascii c)), (Nat.leb_spec (nat_of_ascii c) 90),
    (Nat.leb_spec 65 (nat_of_ascii c')), (Nat.leb_spec (nat_of_ascii c') 90),
    (Nat.eqb_spec (nat_of_ascii c) (nat_of_ascii c')),
    (Nat.eqb_spec (nat_of_ascii c') (nat_of_ascii c + 32)),
    (Nat.eqb_spec (nat_of_ascii c) (nat_of_ascii c' + 32));
    simpl in *; split; intros; try done; lia.
Qed.

(** Against a string without capitals, [lower] and a comparison up to
    case agree. *)
Lemma lower_eq_iff s t :
  lower t = t → (lower s = t ↔ equal_ignoring_case s t = true).
Proof.
  revert t. induction s as [|c s IH]; intros [|c' t] Ht; simpl; try done.
  injection Ht as Hc' Ht.
  rewrite andb_true_iff, <- (IH t Ht), <- (lower_ascii_same_letter c c' Hc').
  split; [by intros [= -> ->]|by intros [-> ->]].
Qed.

End lower.

Section external.
Import External.
Variable CONF : conf.
Variable get_user_by_name : option string → string → result (gmap string string).
Variable get_domain_by_name : option string → result (gmap string string).
Context {plugin : Base}.
Implicit Types (request : request) (t : list lookup).

#[local] Abbreviation run_authenticate request auth_payload t :=
  (authenticate CONF request auth_payload t).

Lemma authenticate_no_user request auth_payload t :
  truthy (remote_user request) = false →
  run_authenticate request auth_payload t = (Raise (Unauthorized "No authenticated user"), t).
Proof. intros H. unfold authenticate. by rewrite H. Qed.

Lemma authenticate_lookup_fails request auth_payload t e t' :
  truthy (remote_user request) = true →
  _authenticate request t = (Raise e, t') →
  run_authenticate request auth_payload t
  = (Raise (Unauthorized ("Unable to lookup user " +:+ format_s (remote_user request))), t').
Proof.
  intros Hu He. unfold authenticate. rewrite Hu. simpl.
  erewrite bind_raise; [done|]. unfold try_except. by rewrite He.
Qed.

Lemma authenticate_found request auth_payload t user_ref t' :
  truthy (remote_user request) = true →
  _authenticate request t = (Ok user_ref, t') →
  ∀ msg, (run_authenticate request auth_payload t).1 ≠ Raise (Unauthorized msg).
Proof.
  intros Hu Hok msg. unfold authenticate. rewrite Hu. simpl.
  erewrite bind_ok by (unfold try_except; by rewrite Hok).
  unfold mbind, SE_bind, getitem, mret, SE_ret, raise.
  repeat (case_match; simpl in *; simplify_eq; try done).
Qed.

(** C6.  [authenticate] raises [Unauthorized] exactly when the request
    has no remote user or [_authenticate] raises; and whatever
    [_authenticate] raises, what the caller gets is the same
    [Unauthorized], "Unable to lookup user" with the name of the user. *)
Theorem authenticate_unauthorized_iff request auth_payload t :
  ((∃ msg, (run_authenticate request auth_payload t).1 = Raise (Unauthorized msg))
   ↔ (truthy (remote_user request) = false ∨ ∃ e, (_authenticate request t).1 = Raise e))
  ∧ (∀ e, truthy (remote_user request) = true →
          (_authenticate request t).1 = Raise e →
          (run_authenticate request auth_payload t).1
          = Raise (Unauthorized
                     ("Unable to lookup user " +:+ format_s (remote_user request)))).
Proof.
  split; [split|].
  - intros [msg Hmsg]. destruct (truthy (remote_user request)) eqn:Hu; [|by left].
    right. destruct (_authenticate request t) as [[user_ref|e] t'] eqn:Ha; [|by exists e].
    by destruct (authenticate_found request auth_payload t user_ref t' Hu Ha msg).
  - intros [Hu|[e He]].
    + eexists. by rewrite authenticate_no_user.
    + destruct (truthy (remote_user request)) eqn:Hu.
      * destruct (_authenticate request t) as [r t'] eqn:Ha. simpl in He. subst r.
        eexists. by erewrite authenticate_lookup_fails.
      * eexists. by rewrite authenticate_no_user.
  - intros e Hu He. destruct (_authenticate request t) as [r t'] eqn:Ha.
    simpl in He. subst r. by erewrite authenticate_lookup_fails.
Qed.

(** C8.  A response carries the id of the user that [_authenticate]
    found under ['user_id']; and it carries the name of that user under
    ['bind'], ['kerberos'], exactly when "kerberos" is among the
    configured bindings and the auth type of the request is, up to case,
    "negotiate". *)
Theorem authenticate_response request auth_payload t resp :
  (run_authenticate request auth_payload t).1 = Ok resp →
  ∃ user_ref uid,
    (_authenticate request t).1 = Ok user_ref
    ∧ user_ref !! "id" = Some uid
    ∧ response_data resp !! "user_id" = Some (RStr uid)
    ∧ ((∃ bind name, response_data resp !! "bind" = Some (RDict bind)
                     ∧ bind !! "kerberos" = Some name
                     ∧ user_ref !! "name" = Some name)
       ↔ ("kerberos" ∈ token_bind CONF
          ∧ equal_ignoring_case (default "" (auth_type request)) "negotiate" = true))
    ∧ (response_data resp !! "bind" = None
       ∨ ∃ name, response_data resp !! "bind" = Some (RDict {[ "kerberos" := name ]})).
Proof.
  unfold authenticate.
  destruct (truthy (remote_user request)) eqn:Hu; [|done]. simpl.
  unfold try_except, mbind, SE_bind.
  destruct (_authenticate request t) as [[user_ref|e] t'] eqn:Ha; [|done]. simpl.
  unfold getitem at 1. destruct (user_ref !! "id") as [uid|] eqn:Hid; [|done]. simpl.
  intros Hresp. exists user_ref, uid. split; [done|]. split; [done|].
  rewrite <- lower_eq_iff by reflexivity.
  destruct (bool_decide ("kerberos" ∈ token_bind CONF)) eqn:Hk; simpl in Hresp.
  - apply bool_decide_eq_true in Hk.
    destruct (bool_decide (lower (default "" (auth_type request)) = "negotiate")) eqn:Hn;
      simpl in Hresp.
    + apply bool_decide_eq_true in Hn. unfold getitem in Hresp.
      destruct (user_ref !! "name") as [name|] eqn:Hname; [|done].
      rewrite lookup_insert_ne in Hresp by done. rewrite lookup_empty in Hresp.
      simpl in Hresp. injection Hresp as <-. simpl.
      split; [by simplify_map_eq|]. split; [|right; exists name; by simplify_map_eq].
      split; [done|]. intros _. exists {[ "kerberos" := name ]}, name.
      by simplify_map_eq.
    + apply bool_decide_eq_false in Hn. injection Hresp as <-. simpl.
      split; [by simplify_map_eq|]. split; [|left; by simplify_map_eq].
      split; [|tauto]. intros (b & name & Hb & _). by simplify_map_eq.
  - apply bool_decide_eq_false in Hk. injection Hresp as <-. simpl.
    split; [by simplify_map_eq|]. split; [|left; by simplify_map_eq].
    split; [|tauto]. intros (b & name & Hb & _). by simplify_map_eq.
Qed.

End external.

Section kerberos.
Import External.
Variable CONF : conf.
Variable get_user_by_name : option string → string → result (gmap string string).
Variable get_domain_by_name : option string → result (gmap string string).

(** C7.  With [KerberosDomain], a request whose auth type is not
    "Negotiate" is refused with [Unauthorized], and no lookup is made,
    of a domain or of a user: the list of lookups is as before. *)
Theorem kerberos_requires_negotiate (request : request) auth_payload (t : list lookup) :
  auth_type request ≠ Some "Negotiate" →
  @_authenticate (KerberosDomain CONF get_user_by_name get_domain_by_name) request t
  = (Raise (Unauthorized "auth_type is not Negotiate"), t)
  ∧ ∃ msg,
      authenticate (H := KerberosDomain CONF get_user_by_name get_domain_by_name)
        CONF request auth_payload t
      = (Raise (Unauthorized msg), t).
Proof.
  intros Hne.
  assert (@_authenticate (KerberosDomain CONF get_user_by_name get_domain_by_name) request t
          = (Raise (Unauthorized "auth_type is not Negotiate"), t)) as Ha.
  { unfold _authenticate, KerberosDomain. by rewrite decide_True. }
  split; [done|].
  destruct (truthy (remote_user request)) eqn:Hu.
  - eexists. by erewrite authenticate_lookup_fails.
  - eexists. by rewrite authenticate_no_user.
Qed.

End kerberos.

(** ** The properties in the small deployment *)

Ltac elem_cases :=
  repeat match goal with
  | H : _ ∈ _ :: _ |- _ => apply elem_of_cons in H as [->|H]
  | H : _ ∈ [] |- _ => by apply not_elem_of_nil in H
  end.

Lemma demo_held_ok : assignments_ok demo_held.
Proof. intros x Hx. unfold demo_held in Hx. elem_cases; eexists; split; vm_compute; reflexivity. Qed.

Lemma demo_holds_member : holds_role demo_held (VStr "member").
Proof. unfold holds_role, demo_held. eexists. split; [left|]. vm_compute. reflexivity. Qed.

Lemma demo_lacks_admin : ¬ holds_role demo_held (VStr "admin").
Proof.
  intros (x & Hx & Hrid). unfold demo_held in Hx.
  elem_cases; vm_compute in Hrid; discriminate.
Qed.

Lemma create_unmet_role_raises_witness :
  ∃ rid w',
    demo_create (VRef 3) VNone demo_world
    = (Raise (RoleAssignmentNotFound rid (VStr "alice") (VStr "proj")), w')
    ∧ (∃ r, r ∈ [VRef 2; VRef 5] ∧ role_id_of (heap demo_world) r = Some rid)
    ∧ ¬ holds_role demo_held rid
    ∧ calls w' = calls demo_world
                   ++ [EvListRoleAssignments (VStr "alice") (VStr "proj") true]
    ∧ Forall (λ e, ¬ is_driver_create e) (drop (length (calls demo_world)) (calls w'))
    ∧ driver_state w' = driver_state demo_world.
Proof.
  apply (create_unmet_role_raises (driver := demo_driver) demo_assignments demo_get_role
           demo_world 3 demo_request_admin (VStr "alice") (VStr "proj") 4
           [VRef 2; VRef 5] demo_held VNone).
  - vm_compute; reflexivity.
  - vm_compute; reflexivity.
  - vm_compute; reflexivity.
  - vm_compute; reflexivity.
  - vm_compute; reflexivity.
  - intros r Hr. elem_cases; eexists; reflexivity.
  - vm_compute; reflexivity.
  - exact demo_held_ok.
  - exists (VRef 5), (VStr "admin"). split; [right; left|]. split; [vm_compute; reflexivity|].
    exact demo_lacks_admin.
Defined.

Lemma demo_roles_known : roles_known demo_get_role [VStr "member"] [demo_member].
Proof. repeat constructor. Qed.

Lemma demo_all_held (r : val) :
  r ∈ [VRef 2] →
  ∃ rid, role_id_of (heap demo_world) r = Some rid ∧ holds_role demo_held rid.
Proof.
  intros Hr. elem_cases. exists (VStr "member"). split; [reflexivity|].
  exact demo_holds_member.
Qed.

Lemma demo_created_record :
  stored_record demo_created.2.1 14 demo_record [VStr "member"].
Proof.
  split; [vm_compute; reflexivity|]. split; [eexists; vm_compute; reflexivity|].
  exists 13, [VRef 12]. split; [vm_compute; reflexivity|].
  split; [vm_compute; reflexivity|]. repeat constructor.
Qed.

Lemma create_returns_projection_witness :
  ∃ p w',
    demo_create (VRef 0) VNone demo_world = (Ok (VRef p), w')
    ∧ projection_of (heap w') p (<["secret" := VStr "s3cr3t"]> demo_record) [demo_member]
    ∧ driver_state w' = demo_created.2.2
    ∧ calls w' = calls demo_world
        ++ [EvListRoleAssignments (VStr "alice") (VStr "proj") true;
            EvDriverCreate (VRef (copy_loc (heap demo_world))) (VRef 1)]
        ++ (EvGetRole <$> [VStr "member"])
        ++ [EvAuditCreated _APP_CRED (VStr "c1") VNone].
Proof.
  apply (create_returns_projection (driver := demo_driver) demo_assignments demo_get_role
           demo_world 0 demo_request (VStr "alice") (VStr "proj") (VStr "s3cr3t")
           (VStr "c1") (VRef 1) [VRef 2] demo_held 14 demo_created.2.1 demo_created.2.2
           demo_record demo_request_no_roles [VStr "member"] [demo_member] VNone).
  - vm_compute; reflexivity.
  - vm_compute; reflexivity.
  - vm_compute; reflexivity.
  - vm_compute; reflexivity.
  - vm_compute; reflexivity.
  - vm_compute; reflexivity.
  - exact demo_held_ok.
  - exact demo_all_held.
  - vm_compute; reflexivity.
  - exact demo_created_record.
  - exact demo_roles_known.
  - vm_compute; reflexivity.
  - vm_compute; reflexivity.
Defined.

Lemma demo_role_ids : role_ids (heap demo_world) [VRef 2] [VStr "member"].
Proof. repeat constructor. Qed.

Lemma create_then_get_witness :
  ∃ p w1 p' w2 dp nl vs,
    demo_create (VRef 0) VNone demo_world = (Ok (VRef p), w1)
    ∧ demo_get "c1" w1 = (Ok (VRef p'), w2)
    ∧ heap w2 !! p' = Some (ODict dp)
    ∧ dp !! "user_id" = Some (VStr "alice")
    ∧ dp !! "project_id" = Some (VStr "proj")
    ∧ dp !! "roles" = Some (VRef nl)
    ∧ heap w2 !! nl = Some (OList vs)
    ∧ role_objects (heap w2) vs [demo_member]
    ∧ dp !! "secret_hash" = None
    ∧ dp !! "secret" = None.
Proof.
  apply (create_then_get demo_hash (λ _ _, true) demo_assignments demo_get_role
           demo_world 0 demo_request (VStr "alice") (VStr "proj") "s3cr3t" "c1"
           (VRef 1) [VRef 2] [VStr "member"] [demo_member] demo_held VNone).
  - vm_compute; reflexivity.
  - vm_compute; reflexivity.
  - vm_compute; reflexivity.
  - vm_compute; reflexivity.
  - vm_compute; reflexivity.
  - vm_compute; reflexivity.
  - exact demo_role_ids.
  - vm_compute; reflexivity.
  - exact demo_held_ok.
  - intros rid Hrid. elem_cases. exact demo_holds_member.
  - exact demo_roles_known.
  - vm_compute; reflexivity.
Defined.

Lemma create_without_roles_witness :
  ∃ rl tl,
    VRef (default_loc (heap demo_world) demo_request_no_roles) = VRef rl
    ∧ checked_heap (heap demo_world) demo_request_no_roles !! rl = Some (OList [])
    ∧ trace (demo_create (VRef 6) VNone demo_world).2
      = trace demo_world
          ++ [(EvListRoleAssignments (VStr "alice") (VStr "proj") true,
               checked_heap (heap demo_world) demo_request_no_roles);
              (EvDriverCreate (VRef (copy_loc (heap demo_world))) (VRef rl),
               checked_heap (heap demo_world) demo_request_no_roles)]
          ++ tl
    ∧ Forall (λ e, ¬ is_list_role_assignments e.1) tl.
Proof.
  apply (create_without_roles (driver := demo_driver) demo_assignments demo_get_role
           demo_world 6 demo_request_no_roles (VStr "alice") (VStr "proj") (VStr "s3cr3t")
           (VRef (default_loc (heap demo_world) demo_request_no_roles)) demo_held VNone).
  - vm_compute; reflexivity.
  - vm_compute; reflexivity.
  - vm_compute; reflexivity.
  - vm_compute; reflexivity.
  - vm_compute; reflexivity.
  - vm_compute; reflexivity.
  - exact demo_held_ok.
Defined.

Lemma create_and_projection_mutate_copies_only_witness :
  heap demo_world
    ⊆ heap (create_application_credential (driver := demo_driver) demo_assignments
              demo_get_role (VRef 0) VNone demo_world).2
  ∧ heap demo_world ⊆ heap (_process_app_cred demo_get_role (VRef 0) demo_world).2
  ∧ (cache demo_world !! memo_key "get_application_credential" ["c1"] = None →
     (driver_get_application_credential (ApplicationCredentialDriverBase := demo_driver)
        "c1" (heap demo_world, driver_state demo_world)).2.1
       ⊆ heap (get_application_credential (driver := demo_driver) demo_get_role "c1"
                 demo_world).2)
  ∧ (driver_list_application_credentials_for_user
       (ApplicationCredentialDriverBase := demo_driver) (VStr "alice")
       (default () None) (heap demo_world, driver_state demo_world)).2.1
      ⊆ heap (list_application_credentials (driver := demo_driver) () demo_get_role
                (VStr "alice") None demo_world).2.
Proof.
  apply (create_and_projection_mutate_copies_only (driver := demo_driver)
           demo_assignments demo_get_role demo_world () (VRef 0) VNone (VRef 0)
           "c1" (VStr "alice") None).
  intros ac roles. apply ref_create_returns_new.
Defined.

Lemma events_reach_the_driver_witness :
  let w := (Manager_init (D := gmap string stored) (Hints := unit)
              "invalidate_user_project_tokens" (World demo_heap ∅ ∅ [] [])).2 in
  notify_event_callbacks (driver := demo_driver) "identity" "user" disabled (VRef 7) w
  = call_driver (EvDriverDeleteForUser (VStr "alice"))
      (driver_delete_application_credentials_for_user
         (ApplicationCredentialDriverBase := demo_driver) (VStr "alice")) w
  ∧ notify_event_callbacks (driver := demo_driver) "identity"
      "invalidate_user_project_tokens" internal (VRef 8) w
    = call_driver (EvDriverDeleteForUserOnProject (VStr "alice") (VStr "proj"))
        (driver_delete_application_credentials_for_user_on_project
           (ApplicationCredentialDriverBase := demo_driver) (VStr "alice") (VStr "proj")) w
  ∧ (∃ store',
       ref_delete_application_credentials_for_user (VStr "alice")
         (demo_heap, driver_state demo_cached) = (Ok (), (demo_heap, store'))
       ∧ ∀ k r, store' !! k = Some r
                ↔ driver_state demo_cached !! k = Some r ∧ ¬ owned_by (VStr "alice") r)
  ∧ (∃ store',
       ref_delete_application_credentials_for_user_on_project (VStr "alice") (VStr "proj")
         (demo_heap, driver_state demo_cached) = (Ok (), (demo_heap, store'))
       ∧ ∀ k r, store' !! k = Some r
                ↔ driver_state demo_cached !! k = Some r
                  ∧ ¬ (owned_by (VStr "alice") r ∧ scoped_to (VStr "proj") r)).
Proof.
  apply (events_reach_the_driver (driver := demo_driver) "invalidate_user_project_tokens"
           "identity" disabled demo_heap ∅ ∅ [] 7 {[ "resource_info" := VStr "alice" ]}
           (VStr "alice") 8 {[ "resource_info" := VRef 9 ]} 9
           {[ "user_id" := VStr "alice"; "project_id" := VStr "proj" ]}
           (VStr "alice") (VStr "proj") (driver_state demo_cached)).
  - by right.
  - vm_compute; reflexivity.
  - vm_compute; reflexivity.
  - vm_compute; reflexivity.
  - vm_compute; reflexivity.
  - vm_compute; reflexivity.
  - vm_compute; reflexivity.
  - vm_compute; reflexivity.
Defined.

Lemma kerberos_requires_negotiate_witness :
  @External._authenticate (External.KerberosDomain demo_conf demo_users demo_domains)
    demo_basic []
  = (Raise (Unauthorized "auth_type is not Negotiate"), [])
  ∧ ∃ msg,
      External.authenticate
        (H := External.KerberosDomain demo_conf demo_users demo_domains)
        demo_conf demo_basic VNone []
      = (Raise (Unauthorized msg), []).
Proof.
  apply (kerberos_requires_negotiate demo_conf demo_users demo_domains demo_basic VNone []).
  vm_compute. discriminate.
Defined.

Lemma authenticate_response_witness :
  ∃ user_ref uid,
    (@External._authenticate (External.DefaultDomain demo_conf demo_users)
       demo_negotiate []).1 = Ok user_ref
    ∧ user_ref !! "id" = Some uid
    ∧ External.response_data demo_response !! "user_id" = Some (External.RStr uid)
    ∧ ((∃ bind name,
          External.response_data demo_response !! "bind" = Some (External.RDict bind)
          ∧ bind !! "kerberos" = Some name
          ∧ user_ref !! "name" = Some name)
       ↔ ("kerberos" ∈ External.token_bind demo_conf
          ∧ External.equal_ignoring_case
              (default "" (External.auth_type demo_negotiate)) "negotiate" = true))
    ∧ (External.response_data demo_response !! "bind" = None
       ∨ ∃ name, External.response_data demo_response !! "bind"
                 = Some (External.RDict {[ "kerberos" := name ]})).
Proof.
  apply (authenticate_response demo_conf
           (plugin := External.DefaultDomain demo_conf demo_users) demo_negotiate VNone []
           demo_response).
  vm_compute; reflexivity.
Defined.

(** ** More on the external plugins *)

Section external_bind.
Import External.
Variable CONF : conf.
Context {plugin : Base}.
Implicit Types (request : request) (t : list lookup).


End external_bind.

Section external_variants.
Import External.
Variable CONF : conf.
Variable get_user_by_name : option string → string → result (gmap string string).
Variable get_domain_by_name : option string → result (gmap string string).
Implicit Types (request : request) (t : list lookup).

#[local] Abbreviation the_Domain := (Domain CONF get_user_by_name get_domain_by_name).
#[local] Abbreviation the_DefaultDomain := (DefaultDomain CONF get_user_by_name).
#[local] Abbreviation the_KerberosDomain :=
  (KerberosDomain CONF get_user_by_name get_domain_by_name).

(** X17.  With [Domain], a request that names a domain is resolved in that
    domain: the domain is looked up by name, and the user is looked up
    in the domain that was found, whatever the default domain is. *)
Theorem domain_resolves_in_named_domain request t ref domain_id :
  truthy (remote_domain request) = true →
  get_domain_by_name (remote_domain request) = Ok ref →
  ref !! "id" = Some domain_id →
  @_authenticate the_Domain request t
  = (get_user_by_name (remote_user request) domain_id,
     t ++ [GetDomainByName (remote_domain request);
           GetUserByName (remote_user request) domain_id]).
Proof.
  intros Hd Href Hid. unfold _authenticate, Domain. rewrite Hd.
  unfold mbind, SE_bind, call_resource_api, call_identity_api, getitem. rewrite Href.
  rewrite Hid. simpl. by rewrite <- app_assoc.
Qed.

(** X18.  With [Domain], a request without a domain, or with an empty one, is
    handled as [DefaultDomain] handles it, and no domain is looked
    up. *)
Theorem domain_defaults_as_default_domain request auth_payload t :
  truthy (remote_domain request) = false →
  @_authenticate the_Domain request t
  = (get_user_by_name (remote_user request) (default_domain_id CONF),
     t ++ [GetUserByName (remote_user request) (default_domain_id CONF)])
  ∧ authenticate (H := the_Domain) CONF request auth_payload t
    = authenticate (H := the_DefaultDomain) CONF request auth_payload t.
Proof.
  intros Hd.
  assert (@_authenticate the_Domain request t = @_authenticate the_DefaultDomain request t)
    as Heq.
  { unfold _authenticate, Domain, DefaultDomain. by rewrite Hd. }
  split; [by rewrite Heq|].
  unfold authenticate. destruct (negb (truthy (remote_user request))); [done|].
  unfold mbind, SE_bind, try_except. by rewrite Heq.
Qed.

(** X19.  With [Domain], when the lookup of the named domain fails, no user
    is looked up, and [authenticate] turns the failure into
    [Unauthorized]. *)
Theorem domain_unknown_domain request auth_payload t e :
  truthy (remote_user request) = true →
  truthy (remote_domain request) = true →
  get_domain_by_name (remote_domain request) = Raise e →
  @_authenticate the_Domain request t
  = (Raise e, t ++ [GetDomainByName (remote_domain request)])
  ∧ authenticate (H := the_Domain) CONF request auth_payload t
    = (Raise (Unauthorized ("Unable to lookup user " +:+ format_s (remote_user request))),
       t ++ [GetDomainByName (remote_domain request)]).
Proof.
  intros Hu Hd He.
  assert (@_authenticate the_Domain request t
          = (Raise e, t ++ [GetDomainByName (remote_domain request)])) as Ha.
  { unfold _authenticate, Domain. rewrite Hd.
    unfold mbind, SE_bind, call_resource_api. by rewrite He. }
  split; [done|]. by eapply authenticate_lookup_fails.
Qed.


End external_variants.

Section external_errors.
Import External.
Variable CONF : conf.
Context {plugin : Base}.
Implicit Types (request : request) (t : list lookup).

(** X21.  A user that the backend returns without an id, or without a name
    when the kerberos binding asks for it, makes [authenticate] raise
    [KeyError], which is what the caller gets: only what
    [_authenticate] raises is turned into [Unauthorized]. *)
Theorem authenticate_malformed_user request auth_payload t user_ref t' :
  truthy (remote_user request) = true →
  _authenticate request t = (Ok user_ref, t') →
  (user_ref !! "id" = None →
   authenticate CONF request auth_payload t = (Raise (KeyError "id"), t'))
  ∧ (is_Some (user_ref !! "id") → user_ref !! "name" = None →
     "kerberos" ∈ token_bind CONF →
     lower (default "" (auth_type request)) = "negotiate" →
     authenticate CONF request auth_payload t = (Raise (KeyError "name"), t')).
Proof.
  intros Hu Ha. unfold authenticate. rewrite Hu. simpl.
  erewrite bind_ok by (unfold try_except; by rewrite Ha). split.
  - intros Hid. unfold mbind, SE_bind, getitem. by rewrite Hid.
  - intros [uid Hid] Hname Hk Hn. unfold mbind, SE_bind, getitem. rewrite Hid. simpl.
    rewrite (bool_decide_eq_true_2 _ Hk), (bool_decide_eq_true_2 _ Hn). simpl.
    by rewrite Hname.
Qed.

End external_errors.

(** ** More on the role check *)

Section role_check_more.
Context {D Hints : Type} {driver : ApplicationCredentialDriverBase D Hints}.
Variable list_role_assignments : val → val → bool → result (list (gmap string val)).
Implicit Types (w : world D Hints) (h : gmap loc obj) (s : D) (c : gmap string val).
Implicit Types (ls : list (action * string * callback)) (t : list (event Hints * gmap loc obj)).

(** X1.  [_get_user_roles] lists the assignments once, changes nothing else,
    and returns the roles of the assignments without repetition: a role
    that the user holds directly and through a group is there once. *)
Theorem get_user_roles_distinct h s c ls t uid pid al :
  list_role_assignments uid pid true = Ok al →
  assignments_ok al →
  ∃ ids,
    _get_user_roles list_role_assignments uid pid (World h s c ls t)
    = (Ok ids, World h s c ls (t ++ [(EvListRoleAssignments uid pid true, h)]))
    ∧ NoDup ids
    ∧ ∀ rid, rid ∈ ids ↔ holds_role al rid.
Proof.
  intros Hal Hok. exists (remove_dups (omap (λ x, x !! "role_id") al)).
  split; [|split].
  - unfold _get_user_roles. erewrite bind_ok by reflexivity. simpl.
    erewrite bind_ok; [|unfold lift_result; by rewrite Hal].
    erewrite bind_ok; cycle 1.
    { apply (map_comp_pure _ (λ x, x !! "role_id")).
      - intros x y s0 Hx. unfold lift_result, dict_get. by rewrite Hx.
      - intros x Hx. destruct (Hok x Hx) as (v & -> & _). eauto. }
    unfold lift_result, py_list_set.
    replace (forallb hashable (omap (λ x, x !! "role_id") al)) with true; [done|].
    symmetry. apply forallb_forall. intros v Hv.
    apply list_elem_of_In, list_elem_of_omap in Hv as (x & Hx & Hxv).
    destruct (Hok x Hx) as (v' & Hv' & Hh). congruence.
  - apply NoDup_remove_dups.
  - intros rid. rewrite elem_of_remove_dups, list_elem_of_omap. done.
Qed.

(** X2.  An assignment without a role makes [_get_user_roles] raise
    [KeyError], once the assignments have been listed. *)
Theorem get_user_roles_missing_role_id h s c ls t uid pid al x :
  list_role_assignments uid pid true = Ok al →
  x ∈ al → x !! "role_id" = None →
  _get_user_roles list_role_assignments uid pid (World h s c ls t)
  = (Raise (KeyError "role_id"),
     World h s c ls (t ++ [(EvListRoleAssignments uid pid true, h)])).
Proof.
  intros Hal Hx Hnone. unfold _get_user_roles. erewrite bind_ok by reflexivity. simpl.
  erewrite bind_ok; [|unfold lift_result; by rewrite Hal].
  erewrite bind_raise; [done|]. clear Hal.
  induction al as [|y al IH]; [by apply not_elem_of_nil in Hx|].
  simpl. destruct (y !! "role_id") as [v|] eqn:Hy.
  - apply elem_of_cons in Hx as [->|Hx]; [congruence|].
    erewrite bind_ok by (unfold lift_result, dict_get; by rewrite Hy).
    erewrite bind_raise; [done|]. by apply IH.
  - erewrite bind_raise; [done|]. unfold lift_result, dict_get. by rewrite Hy.
Qed.

Lemma for_each_app_ok {S A} (body : A → SE S unit) xs ys (st st' : S) :
  for_each body xs st = (Ok (), st') →
  for_each body (xs ++ ys) st = for_each body ys st'.
Proof.
  revert st. induction xs as [|x xs IH]; intros st; simpl.
  - by intros [= <-].
  - unfold mbind, SE_bind. destruct (body x st) as [[[]|e] st1]; [|done]. apply IH.
Qed.

(** X3.  The role check passes exactly when the user holds every requested
    role. *)
Theorem require_passes_iff h s c ls t rl rs uid pid al :
  list_role_assignments uid pid true = Ok al →
  assignments_ok al →
  h !! rl = Some (OList rs) →
  (∀ r, r ∈ rs → is_Some (role_id_of h r)) →
  (_require_user_has_role_in_project list_role_assignments (VRef rl) uid pid
     (World h s c ls t)).1 = Ok ()
  ↔ ∀ r rid, r ∈ rs → role_id_of h r = Some rid → holds_role al rid.
Proof.
  intros Hal Hok Hrl Hwf.
  destruct (_get_user_roles_run list_role_assignments h s c ls t uid pid al Hal Hok)
    as (ids & _ & Hmem).
  split.
  - intros Hrun r rid Hr Hrid. apply Hmem.
    destruct (decide (rid ∈ ids)) as [|Hnot]; [done|]. exfalso.
    destruct (require_run_raise list_role_assignments h s c ls t rl rs uid pid al
                Hal Hok Hrl Hwf) as (rid' & _ & _ & Hraise).
    { exists r, rid. by rewrite <- Hmem. }
    by rewrite Hraise in Hrun.
  - intros Hall. erewrite require_run_ok; eauto.
    intros r Hr. destruct (Hwf r Hr) as [rid Hrid]. exists rid. eauto.
Qed.

(** X4.  The role check stops at the first requested role that the user does
    not hold: that role is the one reported, and what comes after it in
    the request is not looked at. *)
Theorem require_reports_first_unmet h s c ls t rl held r rid rest uid pid al :
  list_role_assignments uid pid true = Ok al →
  assignments_ok al →
  h !! rl = Some (OList (held ++ r :: rest)) →
  (∀ x, x ∈ held → ∃ xid, role_id_of h x = Some xid ∧ holds_role al xid) →
  role_id_of h r = Some rid →
  ¬ holds_role al rid →
  _require_user_has_role_in_project list_role_assignments (VRef rl) uid pid
    (World h s c ls t)
  = (Raise (RoleAssignmentNotFound rid uid pid),
     World h s c ls (t ++ [(EvListRoleAssignments uid pid true, h)])).
Proof.
  intros Hal Hok Hrl Hheld Hrid Hnot.
  destruct (_get_user_roles_run list_role_assignments h s c ls t uid pid al Hal Hok)
    as (ids & Hids & Hmem).
  rewrite require_unfold. erewrite bind_ok by exact Hids.
  erewrite bind_ok by (eapply on_heap_run, py_iter_run; eauto).
  erewrite for_each_app_ok; cycle 1.
  { apply require_loop_ok. intros x Hx. destruct (Hheld x Hx) as (xid & ? & ?).
    exists xid. by rewrite Hmem. }
  simpl. erewrite bind_raise; [done|].
  rewrite (require_role_run _ _ _ _ _ _ _ _ _ rid) by done.
  rewrite bool_decide_eq_false_2; [done|]. by rewrite Hmem.
Qed.

End role_check_more.

(** ** More rules for specifications *)

Section hoare_rules.
Context {S : Type}.

Lemma keeps_hoare {A} (I : S → Prop) (m : SE S A) : keeps I m → hoare I m (λ _, I).
Proof. intros Hm s Hs. by destruct (Hm s Hs). Qed.

Lemma hoare_keeps {A} (I : S → Prop) (m : SE S A) : hoare I m (λ _, I) → keeps I m.
Proof. intros Hm s Hs. split; [by apply Hm|done]. Qed.

(** Sequencing, where the first step moves from [I] to [I'], and a
    failure of the first step is an outcome as good as any. *)
Lemma hoare_seq {A B} (I I' : S → Prop) (Q : result B → S → Prop)
    (m : SE S A) (f : A → SE S B) :
  hoare I m (λ _, I') →
  (∀ e s, I' s → Q (Raise e) s) →
  (∀ a, hoare I' (f a) Q) →
  hoare I (m ≫= f) Q.
Proof.
  intros Hm HQ Hf s Hs. specialize (Hm s Hs). unfold mbind, SE_bind.
  destruct (m s) as [[a|e] s']; simpl in *; [by apply Hf|by apply HQ].
Qed.

(** Sequencing, where the first step tells something of its value. *)
Lemma hoare_seq_val {A B} (I : S → Prop) (R : A → S → Prop) (Q : result B → S → Prop)
    (m : SE S A) (f : A → SE S B) :
  hoare I m (λ r s, match r with Ok a => R a s | Raise e => Q (Raise e) s end) →
  (∀ a, hoare (R a) (f a) Q) →
  hoare I (m ≫= f) Q.
Proof.
  intros Hm Hf s Hs. specialize (Hm s Hs). unfold mbind, SE_bind.
  destruct (m s) as [[a|e] s']; simpl in *; [by apply Hf|done].
Qed.

Lemma keeps_exist {A X} (I : X → S → Prop) (m : SE S A) :
  (∀ x, keeps (I x) m) → keeps (λ s, ∃ x, I x s) m.
Proof. intros Hm s [x Hs]. split; [|done]. exists x. by apply (Hm x s Hs). Qed.

End hoare_rules.

(** ** What never reaches the caller: [secret_hash] *)

Section no_hash.
Context {D Hints : Type} {driver : ApplicationCredentialDriverBase D Hints}.
Variable new_Hints : Hints.
Variable list_role_assignments : val → val → bool → result (list (gmap string val)).
Variable get_role : val → result (gmap string val).
Implicit Types (w : world D Hints) (h : gmap loc obj) (s : D) (v : val).

#[local] Abbreviation M := (SE (world D Hints)).

Lemma no_secret_hash_mono h h' v : h ⊆ h' → no_secret_hash h v → no_secret_hash h' v.
Proof.
  intros Hsub (p & d & -> & Hp & Hd). exists p, d.
  split; [done|]. split; [by eapply lookup_weaken|done].
Qed.

(** What holds of the heap and goes on holding as objects are added is
    kept by [_get_role_list]. *)
Lemma keeps_by_growth_get_role_list (R : gmap loc obj → Prop) rs :
  (∀ h h', h ⊆ h' → R h → R h') →
  keeps (λ w, R (heap w)) (_get_role_list get_role rs : M val).
Proof.
  intros HR w Hw. split; [|done].
  destruct (intact_get_role_list get_role (heap w) rs w) as [Hsub _]; [by unfold intact|].
  by eapply HR.
Qed.

(** The dict on which [_process_app_cred] works, at its four stages. *)
Lemma process_copy ref :
  hoare (λ _, True) (on_heap (py_copy ref) : M val)
    (λ r w, ∀ p, r = Ok p → ∃ l o, p = VRef l ∧ heap w !! l = Some o).
Proof.
  intros [h s c ls t] _ p. unfold on_heap, py_copy. simpl.
  destruct (deref h ref) as [[o|]|e]; simpl; try done.
  intros [= <-]. exists (fresh_loc h), o. split; [done|apply lookup_insert_eq].
Qed.

Lemma process_pop l :
  hoare (λ _, True) (on_heap (py_pop (VRef l) "secret_hash") : M val)
    (λ r w, ∀ x, r = Ok x → no_secret_hash (heap w) (VRef l)).
Proof.
  intros [h s c ls t] _ x. unfold on_heap, py_pop. simpl.
  destruct (h !! l) as [[d|xs]|]; simpl; try done.
  destruct (d !! "secret_hash"); simpl; [|done]. intros _.
  exists l, (delete "secret_hash" d).
  split; [done|]. split; [apply lookup_insert_eq|apply lookup_delete_eq].
Qed.

Lemma process_getitem p v k :
  keeps (λ w, no_secret_hash (heap w) p) (on_heap (py_getitem v k) : M val).
Proof.
  intros [h s c ls t] Hw. unfold on_heap. simpl in *.
  pose proof (getitem_heap v k h) as Hh.
  destruct (py_getitem v k h) as [r h']. simpl in *. subst. by split.
Qed.

Lemma process_setitem p x :
  keeps (λ w, no_secret_hash (heap w) p) (on_heap (py_setitem p "roles" x) : M unit).
Proof.
  intros [h s c ls t] (l & d & -> & Hl & Hd). unfold on_heap, py_setitem. simpl in *.
  rewrite Hl. simpl. split; [|done]. exists l, (<["roles" := x]> d).
  split; [done|]. split; [apply lookup_insert_eq|by rewrite lookup_insert_ne].
Qed.

Lemma process_no_secret_hash ref :
  hoare (λ _, True) (_process_app_cred get_role ref : M val)
    (λ r w, ∀ v, r = Ok v → no_secret_hash (heap w) v).
Proof.
  unfold _process_app_cred.
  eapply hoare_seq_val.
  { intros w Hw. pose proof (process_copy ref w Hw) as Hc.
    destruct (on_heap (py_copy ref) w) as [[p|e] w']; simpl in *; [|done].
    exact (Hc p eq_refl). }
  intros p w (l & o & -> & Hl). clear Hl.
  eapply (hoare_seq_val (λ _, True) (λ _ w, no_secret_hash (heap w) (VRef l)));
    [| |done].
  { intros w0 Hw0. pose proof (process_pop l w0 Hw0) as Hp.
    destruct (on_heap (py_pop (VRef l) "secret_hash") w0) as [[x|e] w']; simpl in *;
      [|done]. exact (Hp x eq_refl). }
  intros _. eapply hoare_seq; [apply keeps_hoare, process_getitem|done|].
  intros rs. eapply hoare_seq; [|done|].
  { apply keeps_hoare, (keeps_by_growth_get_role_list (λ h, no_secret_hash h (VRef l))).
    intros h h' Hsub. by apply no_secret_hash_mono. }
  intros nl. eapply hoare_seq; [apply keeps_hoare, process_setitem|done|].
  intros _ w0 Hw0 v [= <-]. exact Hw0.
Qed.

Lemma hoare_any {S A} (m : SE S A) : hoare (λ _, True) m (λ _ _, True).
Proof. by intros s _. Qed.

Lemma create_no_secret_hash application_credential initiator :
  hoare (λ _, True)
    (create_application_credential list_role_assignments get_role
       application_credential initiator : M val)
    (λ r w, ∀ v, r = Ok v → no_secret_hash (heap w) v).
Proof.
  unfold create_application_credential.
  do 8 (eapply (hoare_seq (λ _, True) (λ _, True)); [apply hoare_any|done|intros ?]).
  eapply (hoare_seq (λ _, True) (λ _, True)); [apply hoare_any|done|intros _].
  eapply hoare_seq_val.
  { intros w _. pose proof (process_no_secret_hash a6 w I) as Hp.
    destruct (_process_app_cred get_role a6 w) as [[p|e] w']; simpl in *; [|done].
    exact (Hp p eq_refl). }
  intros p. eapply hoare_seq; [apply keeps_hoare, process_getitem|done|].
  intros cid.
  eapply (hoare_seq _ (λ w, no_secret_hash (heap w) p)); [|done|].
  { intros [h s c ls t] Hw. exact Hw. }
  intros _ w0 Hw0 v [= <-]. exact Hw0.
Qed.

Lemma map_process_no_secret_hash xs :
  hoare (λ _, True) (map_comp (_process_app_cred get_role) xs : M (list val))
    (λ r w, ∀ vs, r = Ok vs → Forall (no_secret_hash (heap w)) vs).
Proof.
  induction xs as [|x xs IH]; intros w _ vs; simpl.
  { intros [= <-]. constructor. }
  unfold mbind, SE_bind.
  pose proof (process_no_secret_hash x w I) as Hx.
  destruct (_process_app_cred get_role x w) as [[p|e] w1]; simpl in *; [|done].
  specialize (Hx p eq_refl). specialize (IH w1 I).
  assert (keeps (intact (heap w1)) (map_comp (_process_app_cred get_role) xs : M _))
    as Hk.
  { apply keeps_map_comp. intros y. eapply yields_keeps, intact_process_app_cred. }
  destruct (Hk w1) as [Hsub _]; [by unfold intact|].
  destruct (map_comp (_process_app_cred get_role) xs w1) as [[ps|e] w2]; simpl in *;
    [|done].
  intros [= <-]. constructor; [by eapply no_secret_hash_mono|by apply IH].
Qed.

Lemma list_no_secret_hash user_id hints :
  hoare (λ _, True)
    (list_application_credentials new_Hints get_role user_id hints : M (list val))
    (λ r w, ∀ vs, r = Ok vs → Forall (no_secret_hash (heap w)) vs).
Proof.
  unfold list_application_credentials.
  do 2 (eapply (hoare_seq (λ _, True) (λ _, True)); [apply hoare_any|done|intros ?]).
  apply map_process_no_secret_hash.
Qed.

(** X9.  A dict that [_process_app_cred] returns has no ['secret_hash'],
    whatever the record and whatever the role API: the hash does not
    reach a caller of [create_application_credential] or of
    [list_application_credentials], with any driver.  (A read that is
    not served from the cache returns what [_process_app_cred]
    returns.) *)
Theorem secret_hash_never_returned w record application_credential initiator
    user_id hints :
  match _process_app_cred get_role record w with
  | (Ok v, w') => no_secret_hash (heap w') v
  | (Raise _, _) => True
  end
  ∧ match create_application_credential list_role_assignments get_role
            application_credential initiator w with
    | (Ok v, w') => no_secret_hash (heap w') v
    | (Raise _, _) => True
    end
  ∧ match list_application_credentials new_Hints get_role user_id hints w with
    | (Ok vs, w') => Forall (no_secret_hash (heap w')) vs
    | (Raise _, _) => True
    end.
Proof.
  split; [|split].
  - pose proof (process_no_secret_hash record w I) as H.
    destruct (_process_app_cred _ _ _) as [[v|e] w']; [by apply H|done].
  - pose proof (create_no_secret_hash application_credential initiator w I) as H.
    destruct (create_application_credential _ _ _ _ _) as [[v|e] w']; [by apply H|done].
  - pose proof (list_no_secret_hash user_id hints w I) as H.
    destruct (list_application_credentials _ _ _ _ _) as [[v|e] w']; [by apply H|done].
Qed.

End no_hash.

(** ** The calls of a creation, in every case *)

Section create_protocol.
Context {D Hints : Type} {driver : ApplicationCredentialDriverBase D Hints}.
Variable list_role_assignments : val → val → bool → result (list (gmap string val)).
Variable get_role : val → result (gmap string val).
Implicit Types (w : world D Hints) (h : gmap loc obj) (s : D) (v : val).
Implicit Types (t : list (event Hints * gmap loc obj)).

#[local] Abbreviation M := (SE (world D Hints)).
#[local] Abbreviation none := (λ _ : event Hints, False).

(** The three stages of a run: before the query for the assignments,
    after it, and after the call to the driver. *)
#[local] Abbreviation queried t0 := (λ w : world D Hints,
  ∃ q : val * val * gmap loc obj,
    only_calls none (t0 ++ [(EvListRoleAssignments q.1.1 q.1.2 true, q.2)]) w).

#[local] Abbreviation persisted t0 := (λ w : world D Hints,
  ∃ q : val * val * gmap loc obj * (val * val * gmap loc obj),
    only_calls is_get_role
      (t0 ++ [(EvListRoleAssignments q.1.1.1 q.1.1.2 true, q.1.2);
              (EvDriverCreate q.2.1.1 q.2.1.2, q.2.2)]) w).

Lemma only_calls_lift_result {A} (P : event Hints → Prop) t (r : result A) :
  keeps (only_calls P t) (lift_result r : M A).
Proof. apply keeps_lift_result. Qed.

Lemma only_calls_none t0 w : only_calls none t0 w → trace w = t0.
Proof.
  intros (tl & Ht & Htl). destruct tl as [|x tl]; [by rewrite Ht, app_nil_r|].
  inversion Htl as [|?? Hx]. destruct Hx.
Qed.

Lemma only_calls_here (P : event Hints → Prop) w : only_calls P (trace w) w.
Proof. exists []. by rewrite app_nil_r. Qed.

Lemma queried_get_user_roles t0 uid pid :
  hoare (only_calls none t0)
    (_get_user_roles list_role_assignments uid pid : M (list val)) (λ _, queried t0).
Proof.
  unfold _get_user_roles.
  eapply (hoare_seq _ (queried t0)); [|done|].
  { intros [h s c ls t] Hw. apply only_calls_none in Hw. simpl in *. subst.
    exists (uid, pid, h). apply only_calls_here. }
  intros _. apply keeps_hoare, keeps_exist. intros q.
  apply keeps_bind; [apply keeps_lift_result|]. intros al.
  apply keeps_bind; [|intros ?; apply keeps_lift_result].
  apply keeps_map_comp. intros x. apply keeps_lift_result.
Qed.

Lemma queried_require t0 roles uid pid :
  hoare (only_calls none t0)
    (_require_user_has_role_in_project list_role_assignments roles uid pid : M unit)
    (λ _, queried t0).
Proof.
  unfold _require_user_has_role_in_project.
  eapply hoare_seq; [apply queried_get_user_roles|done|].
  intros ids. apply keeps_hoare, keeps_exist. intros q.
  apply keeps_bind; [apply only_calls_on_heap|]. intros rs.
  apply keeps_for_each. intros role.
  apply keeps_bind.
  - apply keeps_filter_comp. intros x.
    apply keeps_bind; [apply only_calls_on_heap|]. intros ?. apply keeps_ret.
  - intros [|? ?]; [|apply keeps_ret].
    apply keeps_bind; [apply only_calls_on_heap|]. intros ?. apply yields_raise.
Qed.

Lemma persisted_call_driver t0 ac roles (m : SE (gmap loc obj * D) val) :
  hoare (queried t0) (call_driver (EvDriverCreate ac roles) m : M val)
    (λ _, persisted t0).
Proof.
  intros [h s c ls t] ([[uid pid] hq] & Hw). apply only_calls_none in Hw. simpl in *.
  unfold call_driver. simpl. destruct (m (h, s)) as [r [h' s']]. simpl.
  exists (uid, pid, hq, (ac, roles, h)). simpl. exists []. rewrite app_nil_r.
  split; [|constructor]. subst. by rewrite <- app_assoc.
Qed.

Lemma get_role_calls (tl : list (event Hints * gmap loc obj)) :
  Forall (λ e, is_get_role e.1) tl → ∃ ids, tl.*1 = EvGetRole <$> ids.
Proof.
  induction 1 as [|[e h] tl He _ [ids IH]]; [by exists []|].
  destruct e; try done. eexists (_ :: ids). rewrite !fmap_cons. by rewrite IH.
Qed.

Lemma create_calls_hoare t0 a initiator :
  hoare (only_calls none t0)
    (create_application_credential list_role_assignments get_role a initiator : M val)
    (λ r w, ∃ tl, trace w = t0 ++ tl ∧ create_calls initiator r tl.*1).
Proof.
  assert (∀ e w, only_calls none t0 w →
            ∃ tl, trace w = t0 ++ tl ∧ create_calls initiator (Raise e) tl.*1) as Q0.
  { intros e w Hw. apply only_calls_none in Hw. exists [].
    split; [by rewrite app_nil_r|]. by left. }
  assert (∀ e w, queried t0 w →
            ∃ tl, trace w = t0 ++ tl ∧ create_calls initiator (Raise e) tl.*1) as Q1.
  { intros e w ([[uid pid] hq] & Hw). apply only_calls_none in Hw. simpl in *.
    eexists. split; [exact Hw|]. right. left. by exists uid, pid. }
  assert (∀ e w, persisted t0 w →
            ∃ tl, trace w = t0 ++ tl ∧ create_calls initiator (Raise e) tl.*1) as Q2.
  { intros e w ([[[uid pid] hq] [[ac roles] hd]] & tl & Ht & Htl). simpl in *.
    destruct (get_role_calls tl Htl) as [ids Hids].
    eexists. split; [by rewrite Ht, <- app_assoc|]. right. right.
    exists uid, pid, ac, roles, ids. rewrite fmap_app. simpl. by rewrite Hids. }
  unfold create_application_credential.
  do 5 (eapply hoare_seq; [apply keeps_hoare, only_calls_on_heap|exact Q0|intros ?]).
  eapply hoare_seq; [apply queried_require|exact Q1|intros _].
  eapply hoare_seq; [apply keeps_hoare, keeps_exist; intros ?; apply only_calls_on_heap
                    |exact Q1|intros secret].
  eapply hoare_seq; [apply persisted_call_driver|exact Q2|intros ref].
  eapply hoare_seq; [apply keeps_hoare, keeps_exist; intros ?; apply only_calls_on_heap
                    |exact Q2|intros _].
  eapply hoare_seq; [apply keeps_hoare, keeps_exist; intros ?;
                       by apply only_calls_process_app_cred
                    |exact Q2|intros p].
  eapply hoare_seq; [apply keeps_hoare, keeps_exist; intros ?; apply only_calls_on_heap
                    |exact Q2|intros cid].
  intros [h s c ls t] ([[[uid pid] hq] [[ac roles] hd]] & tl & Ht & Htl). simpl in *.
  destruct (get_role_calls tl Htl) as [ids Hids].
  eexists. split; [by rewrite Ht, <- !app_assoc|].
  exists uid, pid, ac, roles, ids, cid. rewrite !fmap_app. simpl. by rewrite Hids.
Qed.

(** X5.  Whatever the request and the driver, the calls of one
    [create_application_credential] are, in this order: the query for
    the assignments, the driver's [create], lookups of roles, and the
    "created" audit event.  A run that returns has made them all; a run
    that raises has made some of the first three kinds and has emitted
    no audit event.  So the driver is never called before the
    assignments were listed, nor more than once, and an audit event
    means that the creation went through. *)
Theorem create_call_protocol w a initiator :
  ∃ tl,
    calls (create_application_credential list_role_assignments get_role a initiator w).2
    = calls w ++ tl
    ∧ create_calls initiator
        (create_application_credential list_role_assignments get_role a initiator w).1 tl.
Proof.
  destruct (create_calls_hoare (trace w) a initiator w) as (tl & Ht & Hshape).
  { apply only_calls_refl. }
  exists tl.*1. split; [|done]. unfold calls. by rewrite Ht, fmap_app.
Qed.

End create_protocol.

(** ** What the manager does not touch: the cache and the listeners *)

Section cache_untouched.
Context {D Hints : Type} {driver : ApplicationCredentialDriverBase D Hints}.
Variable new_Hints : Hints.
Variable list_role_assignments : val → val → bool → result (list (gmap string val)).
Variable get_role : val → result (gmap string val).
Variable I : world D Hints → Prop.
Hypothesis I_cache_only : cache_only I.

#[local] Abbreviation M := (SE (world D Hints)).

Lemma cache_only_on_heap {A} (m : SE (gmap loc obj) A) : keeps I (on_heap m : M A).
Proof.
  intros [h s c ls t] Hw. unfold on_heap. simpl. destruct (m h) as [r h'].
  split; [|done]. by eapply I_cache_only.
Qed.

Lemma cache_only_log e : keeps I (log e : M unit).
Proof. intros [h s c ls t] Hw. split; [|done]. by eapply I_cache_only. Qed.

Lemma cache_only_call_driver {A} e (m : SE (gmap loc obj * D) A) :
  keeps I (call_driver e m : M A).
Proof.
  intros [h s c ls t] Hw. unfold call_driver. simpl.
  destruct (m (h, s)) as [r [h' s']]. split; [|done]. by eapply I_cache_only.
Qed.

Lemma cache_only_call_api e r : keeps I (call_api e r : M val).
Proof.
  unfold call_api. apply keeps_bind; [apply cache_only_log|]. intros _.
  apply keeps_bind; [apply keeps_lift_result|]. intros d. apply cache_only_on_heap.
Qed.

Lemma cache_only_require roles uid pid :
  keeps I (_require_user_has_role_in_project list_role_assignments roles uid pid : M unit).
Proof.
  unfold _require_user_has_role_in_project, _get_user_roles.
  apply keeps_bind.
  { apply keeps_bind; [apply cache_only_log|]. intros _.
    apply keeps_bind; [apply keeps_lift_result|]. intros al.
    apply keeps_bind; [|intros ?; apply keeps_lift_result].
    apply keeps_map_comp. intros x. apply keeps_lift_result. }
  intros ids. apply keeps_bind; [apply cache_only_on_heap|]. intros rs.
  apply keeps_for_each. intros role.
  apply keeps_bind.
  - apply keeps_filter_comp. intros x.
    apply keeps_bind; [apply cache_only_on_heap|]. intros ?. apply keeps_ret.
  - intros [|? ?]; [|apply keeps_ret].
    apply keeps_bind; [apply cache_only_on_heap|]. intros ?. apply yields_raise.
Qed.

Lemma cache_only_process ref : keeps I (_process_app_cred get_role ref : M val).
Proof.
  unfold _process_app_cred, _get_role_list.
  apply keeps_bind; [apply cache_only_on_heap|]. intros p.
  apply keeps_bind; [apply cache_only_on_heap|]. intros _.
  apply keeps_bind; [apply cache_only_on_heap|]. intros rs.
  apply keeps_bind.
  { apply keeps_bind; [apply cache_only_on_heap|]. intros nl.
    apply keeps_bind; [apply cache_only_on_heap|]. intros xs.
    apply keeps_bind; [|intros _; apply keeps_ret].
    apply keeps_for_each. intros role.
    apply keeps_bind; [apply cache_only_on_heap|]. intros rid.
    apply keeps_bind; [apply cache_only_call_api|]. intros r.
    apply cache_only_on_heap. }
  intros nl. apply keeps_bind; [apply cache_only_on_heap|]. intros _. apply keeps_ret.
Qed.

Lemma cache_only_create a initiator :
  keeps I (create_application_credential list_role_assignments get_role a initiator : M val).
Proof.
  unfold create_application_credential.
  do 5 (apply keeps_bind; [apply cache_only_on_heap|]; intros ?).
  apply keeps_bind; [apply cache_only_require|]. intros _.
  apply keeps_bind; [apply cache_only_on_heap|]. intros secret.
  apply keeps_bind; [apply cache_only_call_driver|]. intros ref.
  apply keeps_bind; [apply cache_only_on_heap|]. intros _.
  apply keeps_bind; [apply cache_only_process|]. intros p.
  apply keeps_bind; [apply cache_only_on_heap|]. intros cid.
  apply keeps_bind; [apply cache_only_log|]. intros _. apply keeps_ret.
Qed.

Lemma cache_only_list user_id hints :
  keeps I (list_application_credentials new_Hints get_role user_id hints : M (list val)).
Proof.
  unfold list_application_credentials.
  apply keeps_bind; [apply cache_only_call_driver|]. intros l.
  apply keeps_bind; [apply cache_only_on_heap|]. intros xs.
  apply keeps_map_comp. intros x. apply cache_only_process.
Qed.

Lemma cache_only_callback cb service resource_type operation payload :
  keeps I (run_callback cb service resource_type operation payload : M unit).
Proof.
  destruct cb; simpl.
  - unfold _delete_app_creds_on_user_delete_callback.
    apply keeps_bind; [apply cache_only_on_heap|]. intros uid.
    apply cache_only_call_driver.
  - unfold _delete_app_creds_on_assignment_removal.
    do 4 (apply keeps_bind; [apply cache_only_on_heap|]; intros ?).
    apply cache_only_call_driver.
Qed.

End cache_untouched.

Section cache_untouched_thm.
Context {D Hints : Type} {driver : ApplicationCredentialDriverBase D Hints}.
Variable new_Hints : Hints.
Variable list_role_assignments : val → val → bool → result (list (gmap string val)).
Variable get_role : val → result (gmap string val).

(** X14.  Only [get_application_credential] and
    [delete_application_credential] work on the cache.  Whatever its
    outcome, a creation leaves the cache as it was, so that a new
    credential is not in it; so does a listing; and so do the two
    listeners, [_delete_app_creds_on_user_delete_callback] and
    [_delete_app_creds_on_assignment_removal]: what a bulk delete
    removes from the driver stays in the cache.  None of them changes
    the registered listeners. *)
Theorem cache_left_alone (w : world D Hints) a initiator user_id hints cb
    service resource_type operation payload :
  let same (w' : world D Hints) := cache w' = cache w ∧ listeners w' = listeners w in
  same (create_application_credential list_role_assignments get_role a initiator w).2
  ∧ same (list_application_credentials new_Hints get_role user_id hints w).2
  ∧ same (run_callback cb service resource_type operation payload w).2.
Proof.
  intros same.
  assert (cache_only same) as Hsame by (by intros h s c ls t h' s' t').
  assert (same w) as Hw by done.
  split; [|split].
  - by apply (cache_only_create list_role_assignments get_role same Hsame a initiator w).
  - by apply (cache_only_list new_Hints get_role same Hsame user_id hints w).
  - by apply (cache_only_callback same Hsame cb service resource_type operation payload w).
Qed.

End cache_untouched_thm.

(** ** Requests and records that lack a key *)

Section missing_keys.
Context {D Hints : Type} {driver : ApplicationCredentialDriverBase D Hints}.
Variable list_role_assignments : val → val → bool → result (list (gmap string val)).
Variable get_role : val → result (gmap string val).
Implicit Types (w : world D Hints) (h : gmap loc obj) (s : D) (c : gmap string val).
Implicit Types (ls : list (action * string * callback)) (t : list (event Hints * gmap loc obj)).

(** X6.  A request without ['user_id'], or without ['project_id'], fails
    with [KeyError] for the first of the two that is missing, before
    any call is made: all that has happened is the copy of the
    request. *)
Theorem create_without_user_or_project h s c ls t a d initiator :
  h !! a = Some (ODict d) →
  d !! "user_id" = None ∨ d !! "project_id" = None →
  create_application_credential list_role_assignments get_role (VRef a) initiator
    (World h s c ls t)
  = (Raise (KeyError (if d !! "user_id" is Some _ then "project_id" else "user_id")),
     World (<[copy_loc h := ODict d]> h) s c ls t).
Proof.
  intros Ha Hmiss. rewrite create_unfold.
  erewrite bind_ok by (eapply on_heap_run, py_copy_run; eauto).
  destruct (d !! "user_id") as [uid|] eqn:Hu.
  - destruct Hmiss as [|Hp]; [done|].
    erewrite bind_ok by (eapply on_heap_run, py_getitem_run; [apply lookup_insert_eq|done]).
    erewrite bind_raise; [done|].
    eapply on_heap_run, py_getitem_missing; [apply lookup_insert_eq|done].
  - erewrite bind_raise; [done|].
    eapply on_heap_run, py_getitem_missing; [apply lookup_insert_eq|done].
Qed.

(** X7.  A request without ['secret'] passes the role check and then fails
    with [KeyError]: the assignments have been listed, and the driver
    has not been called. *)
Theorem create_without_secret h s c ls t a d uid pid roles rs al initiator :
  h !! a = Some (ODict d) →
  d !! "user_id" = Some uid → d !! "project_id" = Some pid →
  d !! "secret" = None →
  requested_roles h d = Some (roles, rs) →
  list_role_assignments uid pid true = Ok al →
  assignments_ok al →
  (∀ r, r ∈ rs → ∃ rid, role_id_of h r = Some rid ∧ holds_role al rid) →
  create_application_credential list_role_assignments get_role (VRef a) initiator
    (World h s c ls t)
  = (Raise (KeyError "secret"),
     World (checked_heap h d) s c ls
       (t ++ [(EvListRoleAssignments uid pid true, checked_heap h d)])).
Proof.
  intros Ha Hu Hp Hsecret Hreq Hal Hok Hheld.
  destruct (requested_roles_checked h d roles rs Hreq) as (rl & -> & Hrl).
  pose proof (checked_heap_subseteq h d) as Hsub.
  erewrite create_prefix by eauto. unfold create_checked.
  erewrite bind_ok; cycle 1.
  { eapply require_run_ok; eauto. intros z Hz.
    destruct (Hheld z Hz) as (rid & Hrid & Hh). exists rid. split; [|done].
    by eapply role_id_of_mono. }
  erewrite bind_raise; [done|].
  eapply on_heap_run, py_getitem_missing; [apply checked_heap_copy|].
  by rewrite lookup_delete_ne.
Qed.

(** X8.  A request without ['id'] fails with [KeyError] only when the audit
    event is made up: by then the driver has created the record, and
    the roles have been looked up.  The record is in the driver, the
    caller gets an exception, and no audit event is emitted. *)
Theorem create_without_id h s c ls t a d uid pid secret roles rs al
    r h2 s2 dr dac rids robjs initiator :
  h !! a = Some (ODict d) →
  d !! "user_id" = Some uid → d !! "project_id" = Some pid →
  d !! "secret" = Some secret →
  requested_roles h d = Some (roles, rs) →
  list_role_assignments uid pid true = Ok al →
  assignments_ok al →
  (∀ r, r ∈ rs → ∃ rid, role_id_of h r = Some rid ∧ holds_role al rid) →
  driver_create_application_credential (VRef (copy_loc h)) roles (checked_heap h d, s)
  = (Ok (VRef r), (h2, s2)) →
  stored_record h2 r dr rids →
  roles_known get_role rids robjs →
  h2 !! copy_loc h = Some (ODict dac) → dac !! "id" = None →
  ∃ w',
    create_application_credential list_role_assignments get_role (VRef a) initiator
      (World h s c ls t)
    = (Raise (KeyError "id"), w')
    ∧ driver_state w' = s2
    ∧ calls w' = t.*1
        ++ [EvListRoleAssignments uid pid true; EvDriverCreate (VRef (copy_loc h)) roles]
        ++ (EvGetRole <$> rids).
Proof.
  intros Ha Hu Hp Hsecret Hreq Hal Hok Hheld Hdrv Hrec Hknown Hac Hcid.
  destruct (requested_roles_checked h d roles rs Hreq) as (rl & -> & Hrl).
  pose proof (checked_heap_subseteq h d) as Hsub.
  destruct Hrec as (Hr & [hsh Hsh] & rrl & rrs & Hroles & Hrrl & Hids).
  set (h3 := <[r := ODict (<["secret" := secret]> dr)]> h2).
  assert (rrl ≠ r) as Hne by (intros ->; congruence).
  destruct (_process_app_cred_run get_role h3 s2 c ls
              ((t ++ [(EvListRoleAssignments uid pid true, checked_heap h d)])
                 ++ [(EvDriverCreate (VRef (copy_loc h)) (VRef rl), checked_heap h d)])
              r (<["secret" := secret]> dr) hsh rrl rrs rids robjs)
    as (h4 & nl & vs & t' & Hrun & Hsub4 & _ & _ & _ & Ht'); [..|done|].
  { apply lookup_insert_eq. }
  { by rewrite lookup_insert_ne. }
  { by rewrite lookup_insert_ne. }
  { unfold h3. by rewrite lookup_insert_ne. }
  { eapply Forall2_impl; [|exact Hids]. intros z x. by apply role_id_of_set_secret. }
  assert (∃ dac', h4 !! copy_loc h = Some (ODict dac') ∧ dac' !! "id" = None)
    as (dac' & Hac' & Hcid').
  { destruct (decide (copy_loc h = r)) as [Heq|Hacr].
    - exists (<["secret" := secret]> dr). split.
      + eapply lookup_weaken; [|exact Hsub4]. rewrite Heq. apply lookup_insert_eq.
      + rewrite lookup_insert_ne by done. rewrite Heq in Hac. congruence.
    - exists dac. split; [|done].
      eapply lookup_weaken; [|exact Hsub4]. unfold h3. by rewrite lookup_insert_ne. }
  exists (World h4 s2 c ls t'). split; [|split; [done|]].
  - erewrite create_prefix by eauto. unfold create_checked.
    erewrite bind_ok; cycle 1.
    { eapply require_run_ok; eauto. intros z Hz.
      destruct (Hheld z Hz) as (rid & Hrid & Hh). exists rid. split; [|done].
      by eapply role_id_of_mono. }
    erewrite bind_ok; cycle 1.
    { eapply on_heap_run, py_getitem_run; [apply checked_heap_copy|].
      by rewrite lookup_delete_ne. }
    erewrite bind_ok; cycle 1.
    { unfold call_driver. simpl. by rewrite Hdrv. }
    unfold create_finish.
    erewrite bind_ok by (eapply on_heap_run, py_setitem_run; eauto).
    erewrite bind_ok by exact Hrun.
    erewrite bind_raise; [done|].
    eapply on_heap_run, py_getitem_missing; eauto.
  - unfold calls. simpl. rewrite Ht', !fmap_app. simpl. by rewrite <- !app_assoc.
Qed.

(** X10.  A record without ['secret_hash'] makes [_process_app_cred] raise
    [KeyError]: no role is looked up, and all that has happened is the
    copy of the record. *)
Theorem process_without_secret_hash h s c ls t r dr :
  h !! r = Some (ODict dr) →
  dr !! "secret_hash" = None →
  _process_app_cred get_role (VRef r) (World h s c ls t)
  = (Raise (KeyError "secret_hash"), World (<[fresh_loc h := ODict dr]> h) s c ls t).
Proof.
  intros Hr Hsh. unfold _process_app_cred.
  erewrite bind_ok by (eapply on_heap_run, py_copy_run; eauto).
  erewrite bind_raise; [done|].
  eapply on_heap_run. unfold py_pop. simpl. by rewrite lookup_insert_eq, Hsh.
Qed.

End missing_keys.

(** ** Listing *)

Section list.
Context {D Hints : Type} {driver : ApplicationCredentialDriverBase D Hints}.
Variable new_Hints : Hints.
Variable get_role : val → result (gmap string val).
Implicit Types (w : world D Hints) (h : gmap loc obj) (s : D) (c : gmap string val).
Implicit Types (ls : list (action * string * callback)) (t : list (event Hints * gmap loc obj)).





End list.

(** ** The listeners, and the abstract driver *)

Section listeners.
Context {D Hints : Type} {driver : ApplicationCredentialDriverBase D Hints}.
Implicit Types (w : world D Hints) (h : gmap loc obj).

(** X15.  A payload that does not have what the listener reads makes the
    listener raise, and no bulk delete is made: the world is as before.
    This holds for an event without ['resource_info'], and for an
    assignment event whose ['resource_info'] is the id of a user, as in
    a user event, or lacks the user or the project. *)
Theorem listeners_need_their_payload w service resource_type operation p dp :
  heap w !! p = Some (ODict dp) →
  (dp !! "resource_info" = None →
   _delete_app_creds_on_user_delete_callback service resource_type operation (VRef p) w
   = (Raise (KeyError "resource_info"), w)
   ∧ _delete_app_creds_on_assignment_removal service resource_type operation (VRef p) w
     = (Raise (KeyError "resource_info"), w))
  ∧ (∀ user_id, dp !! "resource_info" = Some (VStr user_id) →
       _delete_app_creds_on_assignment_removal service resource_type operation (VRef p) w
       = (Raise TypeError, w))
  ∧ (∀ i di, dp !! "resource_info" = Some (VRef i) → heap w !! i = Some (ODict di) →
       di !! "user_id" = None ∨ di !! "project_id" = None →
       _delete_app_creds_on_assignment_removal service resource_type operation (VRef p) w
       = (Raise (KeyError (if di !! "user_id" is Some _ then "project_id" else "user_id")),
          w)).
Proof.
  destruct w as [h s c ls t]. simpl. intros Hp. split; [|split].
  - intros Hinfo. split.
    + unfold _delete_app_creds_on_user_delete_callback.
      erewrite bind_raise; [done|]. eapply on_heap_run, py_getitem_missing; eauto.
    + unfold _delete_app_creds_on_assignment_removal.
      erewrite bind_raise; [done|]. eapply on_heap_run, py_getitem_missing; eauto.
  - intros user_id Hinfo. unfold _delete_app_creds_on_assignment_removal.
    erewrite bind_ok by (eapply on_heap_run, py_getitem_run; eauto).
    erewrite bind_raise; [done|]. by eapply on_heap_run.
  - intros i di Hinfo Hi Hmiss. unfold _delete_app_creds_on_assignment_removal.
    erewrite bind_ok by (eapply on_heap_run, py_getitem_run; eauto).
    destruct (di !! "user_id") as [uid|] eqn:Hu.
    + destruct Hmiss as [|Hpr]; [done|].
      erewrite bind_ok by (eapply on_heap_run, py_getitem_run; eauto).
      erewrite bind_ok by (eapply on_heap_run, py_getitem_run; eauto).
      erewrite bind_raise; [done|]. eapply on_heap_run, py_getitem_missing; eauto.
    + erewrite bind_raise; [done|]. eapply on_heap_run, py_getitem_missing; eauto.
Qed.

End listeners.

Section abstract.
Context {D Hints : Type}.
Variable new_Hints : Hints.
Variable get_role : val → result (gmap string val).

#[local] Instance base_driver : ApplicationCredentialDriverBase D Hints :=
  abstract_driver D Hints.


End abstract.

(** ** A role that the role API does not know *)

Section unknown_role.
Context {D Hints : Type} {driver : ApplicationCredentialDriverBase D Hints}.
Variable get_role : val → result (gmap string val).
Implicit Types (w : world D Hints) (h : gmap loc obj) (s : D) (c : gmap string val).
Implicit Types (ls : list (action * string * callback)) (t : list (event Hints * gmap loc obj)).

Lemma get_role_list_raises h s c ls t rrl known bad rest rids robjs rid e :
  h !! rrl = Some (OList (known ++ bad :: rest)) →
  role_ids h known rids →
  roles_known get_role rids robjs →
  role_id_of h bad = Some rid →
  get_role rid = Raise e →
  ∃ h' t',
    _get_role_list get_role (VRef rrl) (World h s c ls t) = (Raise e, World h' s c ls t')
    ∧ (∀ l o, h !! l = Some o → h' !! l = Some o)
    ∧ t'.*1 = t.*1 ++ (EvGetRole <$> (rids ++ [rid])).
Proof.
  intros Hrrl Hids Hknown Hbad He. set (nl := fresh_loc h).
  set (h1 := <[nl := OList []]> h).
  assert (h ⊆ h1) as Hsub by apply alloc_subseteq.
  destruct (append_roles_run get_role s c ls nl known rids robjs h1 t [])
    as (h' & vs & t' & Hrun & Hnl' & Hframe & Hnew & Ht'); [apply lookup_insert_eq| |done|].
  { eapply Forall2_impl; [|exact Hids]. intros z x. by apply role_id_of_mono. }
  assert (∀ l o, h !! l = Some o → h' !! l = Some o) as Hkeep.
  { intros l o Hl. apply Hframe; [by eapply fresh_loc_ne|by eapply lookup_weaken]. }
  exists h', (t' ++ [(EvGetRole rid, h')]). split; [|split; [done|]].
  - rewrite get_role_list_unfold.
    erewrite bind_ok by (eapply on_heap_run; reflexivity).
    erewrite bind_ok by (eapply on_heap_run, py_iter_run, lookup_weaken; eauto).
    erewrite bind_raise; [done|].
    erewrite for_each_app_ok by exact Hrun. simpl.
    erewrite bind_raise; [done|]. unfold append_role.
    erewrite bind_ok; cycle 1.
    { apply role_id_of_getitem.
      apply role_id_of_Some in Hbad as (l & d & -> & Hl & Hid). simpl.
      by rewrite (Hkeep l (ODict d)). }
    erewrite bind_raise; [done|]. unfold call_api.
    erewrite bind_ok by reflexivity. simpl.
    erewrite bind_raise; [done|]. unfold lift_result. by rewrite He.
  - rewrite !fmap_app, Ht'. simpl. by rewrite <- app_assoc.
Qed.

(** X11.  When the role API raises for one of the roles of a record, the
    projection of the record raises the same error: the roles before it
    have been looked up, in their order, and those after it are not.
    The record on the heap is as it was, and so are the driver's state
    and the cache. *)
Theorem process_unknown_role h s c ls t r dr hsh rrl known bad rest rids robjs rid e :
  h !! r = Some (ODict dr) →
  dr !! "secret_hash" = Some hsh →
  dr !! "roles" = Some (VRef rrl) →
  h !! rrl = Some (OList (known ++ bad :: rest)) →
  role_ids h known rids →
  roles_known get_role rids robjs →
  role_id_of h bad = Some rid →
  get_role rid = Raise e →
  ∃ w',
    _process_app_cred get_role (VRef r) (World h s c ls t) = (Raise e, w')
    ∧ heap w' !! r = Some (ODict dr)
    ∧ driver_state w' = s
    ∧ cache w' = c
    ∧ calls w' = t.*1 ++ (EvGetRole <$> (rids ++ [rid])).
Proof.
  intros Hr Hsh Hroles Hrrl Hids Hknown Hbad He. set (p := fresh_loc h).
  set (h2 := <[p := ODict (delete "secret_hash" dr)]> (<[p := ODict dr]> h)).
  assert (h ⊆ h2) as Hsub.
  { unfold h2. rewrite insert_insert_eq. apply alloc_subseteq. }
  destruct (get_role_list_raises h2 s c ls t rrl known bad rest rids robjs rid e)
    as (h3 & t' & Hrun & Hkeep & Ht'); [| | done | | done |].
  { by eapply lookup_weaken. }
  { eapply Forall2_impl; [|exact Hids]. intros z x. by apply role_id_of_mono. }
  { by eapply role_id_of_mono. }
  exists (World h3 s c ls t'). split; [|split; [|done]].
  - unfold _process_app_cred.
    erewrite bind_ok by (eapply on_heap_run, py_copy_run; eauto).
    erewrite bind_ok by (eapply on_heap_run, py_pop_run; [apply lookup_insert_eq|done]).
    erewrite bind_ok; cycle 1.
    { eapply on_heap_run, py_getitem_run; [apply lookup_insert_eq|].
      by rewrite lookup_delete_ne. }
    erewrite bind_raise; [done|]. exact Hrun.
  - simpl. apply Hkeep. by eapply lookup_weaken.
Qed.

End unknown_role.

Lemma process_unknown_role_witness :
  ∃ w',
    _process_app_cred demo_get_role (VRef 32)
      (World demo_heap_stale (∅ : gmap string stored) ∅ []
         (@nil (event unit * gmap loc obj)))
    = (Raise (RoleNotFound (VStr "gone")), w')
    ∧ heap w' !! 32 = Some (ODict demo_stale_record)
    ∧ driver_state w' = ∅
    ∧ cache w' = ∅
    ∧ calls w' = (@nil (event unit * gmap loc obj)).*1
                   ++ (EvGetRole <$> ([VStr "member"] ++ [VStr "gone"])).
Proof.
  apply (process_unknown_role (D := gmap string stored) (Hints := unit) demo_get_role
           demo_heap_stale ∅ ∅ []
           [] 32 demo_stale_record (VStr "sha512:s3cr3t") 31 [VRef 2] (VRef 30) [VRef 5]
           [VStr "member"] [demo_member] (VStr "gone") (RoleNotFound (VStr "gone"))).
  - vm_compute; reflexivity.
  - vm_compute; reflexivity.
  - vm_compute; reflexivity.
  - vm_compute; reflexivity.
  - repeat constructor.
  - exact demo_roles_known.
  - vm_compute; reflexivity.
  - vm_compute; reflexivity.
Defined.

(** ** The outcome of a deletion *)

Section delete_outcome.
Context {D Hints : Type} {driver : ApplicationCredentialDriverBase D Hints}.

(** X13.  [delete_application_credential] returns what the driver's
    delete returns and raises what it raises.  The driver is called
    once, after the call to [invalidate], on the heap and the state as
    they were, and what it leaves is what the deletion leaves; the
    "deleted" audit event comes last, and only when the driver has not
    raised.  The registered listeners are as before. *)
Theorem delete_outcome (w : world D Hints) application_credential_id initiator :
  let r := driver_delete_application_credential application_credential_id
             (heap w, driver_state w) in
  let w' := (delete_application_credential application_credential_id initiator w).2 in
  (delete_application_credential application_credential_id initiator w).1 = r.1
  ∧ heap w' = r.2.1
  ∧ driver_state w' = r.2.2
  ∧ listeners w' = listeners w
  ∧ calls w' = calls w
      ++ [EvCacheInvalidate "get_application_credential" [];
          EvDriverDelete application_credential_id]
      ++ (if is_ok r.1
          then [EvAuditDeleted _APP_CRED (VStr application_credential_id) initiator]
          else []).
Proof.
  destruct w as [h s c ls t]. unfold delete_application_credential, calls.
  unfold mbind, SE_bind, invalidate, call_driver, Audit_deleted, log. simpl.
  destruct (driver_delete_application_credential _ _) as [[[]|e] [h' s']]; simpl;
    rewrite !fmap_app; simpl; by rewrite <- !app_assoc.
Qed.

End delete_outcome.


(** ** More properties in the small deployment *)

Lemma domain_resolves_in_named_domain_witness :
  @External._authenticate (External.Domain demo_conf demo_users demo_domains)
    demo_kerberos []
  = (demo_users (External.remote_user demo_kerberos) "default",
     [] ++ [External.GetDomainByName (External.remote_domain demo_kerberos);
            External.GetUserByName (External.remote_user demo_kerberos) "default"]).
Proof.
  apply (domain_resolves_in_named_domain demo_conf demo_users demo_domains demo_kerberos []
           {[ "id" := "default" ]} "default"); vm_compute; reflexivity.
Defined.

Lemma domain_defaults_as_default_domain_witness :
  @External._authenticate (External.Domain demo_conf demo_users demo_domains)
    demo_negotiate []
  = (demo_users (External.remote_user demo_negotiate) (External.default_domain_id demo_conf),
     [] ++ [External.GetUserByName (External.remote_user demo_negotiate)
              (External.default_domain_id demo_conf)])
  ∧ External.authenticate (H := External.Domain demo_conf demo_users demo_domains)
      demo_conf demo_negotiate VNone []
    = External.authenticate (H := External.DefaultDomain demo_conf demo_users)
        demo_conf demo_negotiate VNone [].
Proof.
  apply (domain_defaults_as_default_domain demo_conf demo_users demo_domains
           demo_negotiate VNone []).
  vm_compute; reflexivity.
Defined.

Lemma domain_unknown_domain_witness :
  @External._authenticate (External.Domain demo_conf demo_users demo_domains)
    demo_unknown_domain []
  = (Raise (DomainNotFound "Nowhere"),
     [] ++ [External.GetDomainByName (External.remote_domain demo_unknown_domain)])
  ∧ External.authenticate (H := External.Domain demo_conf demo_users demo_domains)
      demo_conf demo_unknown_domain VNone []
    = (Raise (Unauthorized
                ("Unable to lookup user "
                 +:+ External.format_s (External.remote_user demo_unknown_domain))),
       [] ++ [External.GetDomainByName (External.remote_domain demo_unknown_domain)]).
Proof.
  apply (domain_unknown_domain demo_conf demo_users demo_domains demo_unknown_domain
           VNone [] (DomainNotFound "Nowhere")); vm_compute; reflexivity.
Defined.


Lemma authenticate_malformed_user_witness :
  (({[ "name" := "alice" ]} : gmap string string) !! "id" = None →
   External.authenticate (H := External.DefaultDomain demo_conf demo_nameless_users)
     demo_conf demo_negotiate VNone []
   = (Raise (KeyError "id"), [External.GetUserByName (Some "alice") "default"]))
  ∧ (is_Some (({[ "name" := "alice" ]} : gmap string string) !! "id") →
     ({[ "name" := "alice" ]} : gmap string string) !! "name" = None →
     "kerberos" ∈ External.token_bind demo_conf →
     External.lower (default "" (External.auth_type demo_negotiate)) = "negotiate" →
     External.authenticate (H := External.DefaultDomain demo_conf demo_nameless_users)
       demo_conf demo_negotiate VNone []
     = (Raise (KeyError "name"), [External.GetUserByName (Some "alice") "default"])).
Proof.
  apply (authenticate_malformed_user demo_conf
           (plugin := External.DefaultDomain demo_conf demo_nameless_users)
           demo_negotiate VNone [] {[ "name" := "alice" ]}
           [External.GetUserByName (Some "alice") "default"]); vm_compute; reflexivity.
Defined.

Lemma get_user_roles_distinct_witness :
  ∃ ids,
    _get_user_roles demo_assignments (VStr "alice") (VStr "proj") demo_world
    = (Ok ids,
       World demo_heap ∅ ∅ []
         ([] ++ [(EvListRoleAssignments (VStr "alice") (VStr "proj") true, demo_heap)]))
    ∧ NoDup ids
    ∧ ∀ rid, rid ∈ ids ↔ holds_role demo_held rid.
Proof.
  apply (get_user_roles_distinct (D := gmap string stored) (Hints := unit)
           demo_assignments demo_heap ∅ ∅ [] [] (VStr "alice") (VStr "proj") demo_held).
  - vm_compute; reflexivity.
  - exact demo_held_ok.
Defined.

Lemma get_user_roles_missing_role_id_witness :
  _get_user_roles demo_bad_assignments (VStr "alice") (VStr "proj") demo_world
  = (Raise (KeyError "role_id"),
     World demo_heap ∅ ∅ []
       ([] ++ [(EvListRoleAssignments (VStr "alice") (VStr "proj") true, demo_heap)])).
Proof.
  apply (get_user_roles_missing_role_id (D := gmap string stored) (Hints := unit)
           demo_bad_assignments demo_heap ∅ ∅ [] [] (VStr "alice") (VStr "proj")
           [ {[ "role_id" := VStr "member" ]}; {[ "user_id" := VStr "alice" ]} ]
           {[ "user_id" := VStr "alice" ]}).
  - vm_compute; reflexivity.
  - right. left.
  - vm_compute; reflexivity.
Defined.

Lemma require_passes_iff_witness :
  (_require_user_has_role_in_project demo_assignments (VRef 1) (VStr "alice") (VStr "proj")
     demo_world).1 = Ok ()
  ↔ ∀ r rid, r ∈ [VRef 2] → role_id_of demo_heap r = Some rid → holds_role demo_held rid.
Proof.
  apply (require_passes_iff (D := gmap string stored) (Hints := unit) demo_assignments
           demo_heap ∅ ∅ [] [] 1 [VRef 2] (VStr "alice") (VStr "proj") demo_held).
  - vm_compute; reflexivity.
  - exact demo_held_ok.
  - vm_compute; reflexivity.
  - intros r Hr. elem_cases; eexists; reflexivity.
Defined.

Lemma require_reports_first_unmet_witness :
  _require_user_has_role_in_project demo_assignments (VRef 4) (VStr "alice") (VStr "proj")
    demo_world
  = (Raise (RoleAssignmentNotFound (VStr "admin") (VStr "alice") (VStr "proj")),
     World demo_heap ∅ ∅ []
       ([] ++ [(EvListRoleAssignments (VStr "alice") (VStr "proj") true, demo_heap)])).
Proof.
  apply (require_reports_first_unmet (D := gmap string stored) (Hints := unit)
           demo_assignments demo_heap ∅ ∅ [] [] 4 [VRef 2] (VRef 5) (VStr "admin") []
           (VStr "alice") (VStr "proj") demo_held).
  - vm_compute; reflexivity.
  - exact demo_held_ok.
  - vm_compute; reflexivity.
  - exact demo_all_held.
  - vm_compute; reflexivity.
  - exact demo_lacks_admin.
Defined.

Lemma create_without_user_or_project_witness :
  create_application_credential (driver := demo_driver) demo_assignments demo_get_role
    (VRef 20) VNone (World demo_heap_incomplete ∅ ∅ [] [])
  = (Raise (KeyError (if delete "user_id" demo_request !! "user_id" is Some _
                      then "project_id" else "user_id")),
     World (<[copy_loc demo_heap_incomplete := ODict (delete "user_id" demo_request)]>
              demo_heap_incomplete) ∅ ∅ [] []).
Proof.
  apply (create_without_user_or_project (driver := demo_driver) demo_assignments
           demo_get_role demo_heap_incomplete ∅ ∅ [] [] 20 (delete "user_id" demo_request)
           VNone).
  - vm_compute; reflexivity.
  - left. vm_compute; reflexivity.
Defined.

Lemma demo_all_held_incomplete (r : val) :
  r ∈ [VRef 2] →
  ∃ rid, role_id_of demo_heap_incomplete r = Some rid ∧ holds_role demo_held rid.
Proof.
  intros Hr. elem_cases. exists (VStr "member"). split; [reflexivity|].
  exact demo_holds_member.
Qed.

Lemma create_without_secret_witness :
  create_application_credential (driver := demo_driver) demo_assignments demo_get_role
    (VRef 21) VNone (World demo_heap_incomplete ∅ ∅ [] [])
  = (Raise (KeyError "secret"),
     World (checked_heap demo_heap_incomplete (delete "secret" demo_request)) ∅ ∅ []
       ([] ++ [(EvListRoleAssignments (VStr "alice") (VStr "proj") true,
                checked_heap demo_heap_incomplete (delete "secret" demo_request))])).
Proof.
  apply (create_without_secret (driver := demo_driver) demo_assignments demo_get_role
           demo_heap_incomplete ∅ ∅ [] [] 21 (delete "secret" demo_request)
           (VStr "alice") (VStr "proj") (VRef 1) [VRef 2] demo_held VNone).
  - vm_compute; reflexivity.
  - vm_compute; reflexivity.
  - vm_compute; reflexivity.
  - vm_compute; reflexivity.
  - vm_compute; reflexivity.
  - vm_compute; reflexivity.
  - exact demo_held_ok.
  - exact demo_all_held_incomplete.
Defined.

Lemma demo_in_place_stored :
  stored_record demo_in_place_created.2.1 (copy_loc demo_heap_incomplete)
    demo_in_place_record [VStr "member"].
Proof.
  split; [vm_compute; reflexivity|]. split; [eexists; vm_compute; reflexivity|].
  exists 1, [VRef 2]. split; [vm_compute; reflexivity|].
  split; [vm_compute; reflexivity|]. repeat constructor.
Qed.

Lemma create_without_id_witness :
  ∃ w',
    create_application_credential (driver := demo_in_place_driver) demo_assignments
      demo_get_role (VRef 22) VNone (World demo_heap_incomplete () ∅ [] [])
    = (Raise (KeyError "id"), w')
    ∧ driver_state w' = demo_in_place_created.2.2
    ∧ calls w' = (@nil (event unit * gmap loc obj)).*1
        ++ [EvListRoleAssignments (VStr "alice") (VStr "proj") true;
            EvDriverCreate (VRef (copy_loc demo_heap_incomplete)) (VRef 1)]
        ++ (EvGetRole <$> [VStr "member"]).
Proof.
  apply (create_without_id (driver := demo_in_place_driver) demo_assignments demo_get_role
           demo_heap_incomplete () ∅ [] [] 22 (delete "id" demo_request)
           (VStr "alice") (VStr "proj") (VStr "s3cr3t") (VRef 1) [VRef 2] demo_held
           (copy_loc demo_heap_incomplete) demo_in_place_created.2.1
           demo_in_place_created.2.2 demo_in_place_record demo_in_place_record
           [VStr "member"] [demo_member] VNone).
  - vm_compute; reflexivity.
  - vm_compute; reflexivity.
  - vm_compute; reflexivity.
  - vm_compute; reflexivity.
  - vm_compute; reflexivity.
  - vm_compute; reflexivity.
  - exact demo_held_ok.
  - exact demo_all_held_incomplete.
  - vm_compute; reflexivity.
  - exact demo_in_place_stored.
  - exact demo_roles_known.
  - vm_compute; reflexivity.
  - vm_compute; reflexivity.
Defined.

Lemma process_without_secret_hash_witness :
  _process_app_cred demo_get_role (VRef 0) demo_world
  = (Raise (KeyError "secret_hash"),
     World (<[fresh_loc demo_heap := ODict demo_request]> demo_heap) ∅ ∅ [] []).
Proof.
  apply (process_without_secret_hash (D := gmap string stored) (Hints := unit)
           demo_get_role demo_heap ∅ ∅ [] [] 0 demo_request); vm_compute; reflexivity.
Defined.



Lemma listeners_need_their_payload_witness :
  (({[ "resource_info" := VStr "alice" ]} : gmap string val) !! "resource_info" = None →
   _delete_app_creds_on_user_delete_callback (driver := demo_driver) "identity" "user"
     deleted (VRef 7) demo_world
   = (Raise (KeyError "resource_info"), demo_world)
   ∧ _delete_app_creds_on_assignment_removal (driver := demo_driver) "identity" "user"
       deleted (VRef 7) demo_world
     = (Raise (KeyError "resource_info"), demo_world))
  ∧ (∀ user_id,
       ({[ "resource_info" := VStr "alice" ]} : gmap string val) !! "resource_info"
       = Some (VStr user_id) →
       _delete_app_creds_on_assignment_removal (driver := demo_driver) "identity" "user"
         deleted (VRef 7) demo_world
       = (Raise TypeError, demo_world))
  ∧ (∀ i di,
       ({[ "resource_info" := VStr "alice" ]} : gmap string val) !! "resource_info"
       = Some (VRef i) →
       heap demo_world !! i = Some (ODict di) →
       di !! "user_id" = None ∨ di !! "project_id" = None →
       _delete_app_creds_on_assignment_removal (driver := demo_driver) "identity" "user"
         deleted (VRef 7) demo_world
       = (Raise (KeyError (if di !! "user_id" is Some _ then "project_id" else "user_id")),
          demo_world)).
Proof.
  apply (listeners_need_their_payload (driver := demo_driver) demo_world "identity" "user"
           deleted 7 {[ "resource_info" := VStr "alice" ]}).
  vm_compute; reflexivity.
Defined.
